(** * Ladder: the CAD import pipeline of [ladder/__init__.py]

    A shallow embedding of the parts of the add-on that carry its logic:
    the unit table, [ImportProgress], [GmshManager.get_model_info],
    [GmshManager.convert_to_stl], the modal batch driver
    [LADDER_OT_import_cad], and its entry points: [GmshManager.install]
    with the install operator, the drag-and-drop handler
    [LADDER_FH_cad.files_drop] and [LADDER_OT_import_cad.execute].

    Conventions of the embedding.
    - A Python [int] is a [Z]; a Python [float] is an exact rational [Q]
      (the code only compares floats with constants, looks them up in
      tables and evaluates the short progress formula).
    - A [Path] is a record of the attributes the code reads from it.
    - The meshing engine and the host application are oracles: every call
      the source guards with [try/except] has an outcome that may be an
      exception, and the answer of the engine may depend on all the calls
      made to it before. *)

From Stdlib Require Import ZArith QArith Qminmax Lia Lqa Bool.
From Stdlib Require Import String Ascii DecimalString.
From stdpp Require Import gmap strings list.

Local Open Scope Z_scope.
Local Open Scope string_scope.
Local Open Scope list_scope.

(** ** Python helpers *)

Module Py.

  (** [str(n)] for an [int]. *)
Definition str (n : Z) : string := NilZero.string_of_int (Z.to_int n).

  (** [c.lower()] on an ASCII letter; every other byte is kept.  (The
      non-ASCII letters that Python lowers never become one of the bytes
      of the extensions tested below.) *)
Definition lower_ascii (c : ascii) : ascii :=
    let n := nat_of_ascii c in
    if (65 <=? n)%nat && (n <=? 90)%nat then ascii_of_nat (n + 32) else c.

Fixpoint lower (s : string) : string :=
    match s with
    | EmptyString => EmptyString
    | String c r => String (lower_ascii c) (lower r)
    end.

  (** [sub in s] for strings. *)
Fixpoint contains (sub s : string) : bool :=
    String.prefix sub s ||
    match s with
    | EmptyString => false
    | String _ r => contains sub r
    end.

  (** [x in xs] for a tuple or a list of strings. *)
Definition mem (x : string) (xs : list string) : bool :=
    existsb (String.eqb x) xs.

  (** Truthiness of a string: [if name:]. *)
Definition truthy (s : string) : bool :=
    match s with EmptyString => false | _ => true end.

End Py.

(** ** Constants *)

Definition SUPPORTED_EXTENSIONS : list string :=
  [".step"; ".stp"; ".iges"; ".igs"; ".brep"; ".brp"].

(** Unit scale factors (source unit -> meters). *)
Definition UNIT_SCALES : gmap string Q :=
  list_to_map
    [ ("MICROMETERS", 1 # 1000000);
      ("MILLIMETERS", 1 # 1000);
      ("CENTIMETERS", 1 # 100);
      ("METERS", 1 # 1);
      ("INCHES", 254 # 10000);
      ("FEET", 3048 # 10000) ]%Q.

(** ** ImportProgress *)

Record ImportProgress := {
  total_files : Z;
  current_file : Z;
  current_filename : string;
  phase : string;
  is_running : bool;
  was_cancelled : bool
}.

Module Progress.

  (** [ImportProgress.__init__] *)
Definition init : ImportProgress :=
    {| total_files := 0; current_file := 0; current_filename := "";
       phase := ""; is_running := false; was_cancelled := false |}.

Definition start (total : Z) (p : ImportProgress) : ImportProgress :=
    {| total_files := total; current_file := 0; current_filename := "";
       phase := ""; is_running := true; was_cancelled := false |}.

Definition update (file_index : Z) (filename phase' : string)
      (p : ImportProgress) : ImportProgress :=
    {| total_files := total_files p; current_file := file_index;
       current_filename := filename; phase := phase';
       is_running := is_running p; was_cancelled := was_cancelled p |}.

Definition stop (p : ImportProgress) : ImportProgress :=
    {| total_files := total_files p; current_file := current_file p;
       current_filename := current_filename p; phase := phase p;
       is_running := false; was_cancelled := was_cancelled p |}.

Definition cancel (p : ImportProgress) : ImportProgress :=
    {| total_files := total_files p; current_file := current_file p;
       current_filename := current_filename p; phase := phase p;
       is_running := false; was_cancelled := true |}.

  (** The property [progress_percent]. *)
Definition progress_percent (p : ImportProgress) : Q :=
    if (total_files p =? 0)%Z then 0%Q
    else
      let base := ((inject_Z (current_file p) / inject_Z (total_files p)) * 100)%Q in
      let base :=
        if String.eqb (phase p) "converting"
        then (base + ((1 # 2) / inject_Z (total_files p)) * 100)%Q
        else base in
      Qmin base 100.

  (** The property [status_text]. *)
Definition status_text (p : ImportProgress) : string :=
    if negb (is_running p) then ""
    else
      let phase_text :=
        if String.eqb (phase p) "converting" then "Converting" else "Importing" in
      "Ladder: " +:+ phase_text +:+ " " +:+ current_filename p +:+ " (" +:+
      Py.str (current_file p + 1) +:+ "/" +:+ Py.str (total_files p) +:+ ")".

  (** The status line as the specification words it, without the add-on's
      name in front. *)
Definition status_text_spec (p : ImportProgress) : string :=
    if negb (is_running p) then ""
    else
      let label :=
        if String.eqb (phase p) "converting" then "Converting" else "Importing" in
      label +:+ " " +:+ current_filename p +:+ " (" +:+
      Py.str (current_file p + 1) +:+ "/" +:+ Py.str (total_files p) +:+ ")".

  (** The percentage as the specification words it. *)
Definition percent_spec (p : ImportProgress) : Q :=
    let bonus :=
      if String.eqb (phase p) "converting"
      then (((1 # 2) / inject_Z (total_files p)) * 100)%Q else 0%Q in
    Qmin ((inject_Z (current_file p) / inject_Z (total_files p)) * 100 + bonus) 100.

End Progress.

(** ** Exceptions and the state monad of the embedding

    A Python call either returns or raises; what it did to the state
    before raising stays done. *)

Inductive result (A : Type) : Type :=
| Ok (a : A)
| Raise (e : string).
Arguments Ok {A} a.
Arguments Raise {A} e.

Definition M (S A : Type) : Type := S -> result A * S.

Definition ret {S A} (a : A) : M S A := fun s => (Ok a, s).

Definition bind {S A B} (m : M S A) (k : A -> M S B) : M S B :=
  fun s =>
    match m s with
    | (Ok a, s') => k a s'
    | (Raise e, s') => (Raise e, s')
    end.

(** [try: m  except Exception as e: handler e] *)
Definition try_except {S A} (m : M S A) (handler : string -> M S A) : M S A :=
  fun s =>
    match m s with
    | (Ok a, s') => (Ok a, s')
    | (Raise e, s') => handler e s'
    end.

Definition modify {S} (f : S -> S) : M S unit := fun s => (Ok tt, f s).

Declare Scope py_scope.
Delimit Scope py_scope with py.
Notation "x <- m ;; k" := (bind m (fun x => k))
  (at level 100, m at next level, right associativity) : py_scope.
Notation "m ;; k" := (bind m (fun _ => k))
  (at level 100, right associativity) : py_scope.

(** An outermost [try/except] whose handler returns: the call as a whole
    cannot raise. *)
Definition try_return {S A} (m : M S A) (handler : string -> S -> A * S)
    (s : S) : A * S :=
  match m s with
  | (Ok a, s') => (a, s')
  | (Raise e, s') => handler e s'
  end.

(** [try: m  except Exception: pass] *)
Definition try_pass {S} (m : M S unit) : M S unit :=
  try_except m (fun _ => ret tt).

(** ** The meshing engine (gmsh) as an oracle *)

Inductive GmshCall : Type :=
| Initialize
| SetNumber (name : string) (value : Q)
| ModelAdd (name : string)
| ImportShapes (path : string)
| Synchronize
| Merge (path : string)
| GetEntities
| GetBoundingBox (dim tag : Z)
| GetEntityName (dim tag : Z)
| Generate (dim : Z)
| WriteFile (path : string)
| Finalize.

(** The calls made so far, the most recent one first. *)
Definition history : Type := list GmshCall.

Definition BBox : Type := (Q * Q * Q * Q * Q * Q)%type.

(** What the engine answers to each call, given everything it was asked
    before.  [write_files] is what a [gmsh.write] does to the files on
    disk; [importable] is whether [import gmsh] succeeds. *)
Record Gmsh : Type := {
  importable : bool;
  on_initialize : history -> result unit;
  on_setNumber : history -> string -> Q -> result unit;
  on_model_add : history -> string -> result unit;
  on_importShapes : history -> string -> result unit;
  on_synchronize : history -> result unit;
  on_merge : history -> string -> result unit;
  on_getEntities : history -> result (list (Z * Z));
  on_getBoundingBox : history -> Z -> Z -> result BBox;
  on_getEntityName : history -> Z -> Z -> result string;
  on_generate : history -> Z -> result unit;
  on_write : history -> string -> result unit;
  write_files : history -> string -> gset string -> gset string;
  on_finalize : history -> result unit
}.

(** The state the engine side keeps between calls of [GmshManager]. *)
Record Engine : Type := {
  _gmsh_available : option bool;  (* the class attribute of GmshManager *)
  calls : history;
  files : gset string             (* the paths that exist on disk *)
}.

Definition log_call (c : GmshCall) (e : Engine) : Engine :=
  {| _gmsh_available := _gmsh_available e; calls := c :: calls e; files := files e |}.

Definition set_files (fs : gset string) (e : Engine) : Engine :=
  {| _gmsh_available := _gmsh_available e; calls := calls e; files := fs |}.

Definition set_available (b : option bool) (e : Engine) : Engine :=
  {| _gmsh_available := b; calls := calls e; files := files e |}.

(** A path, with the attributes the code reads ([str(p)], [p.name],
    [p.stem], [p.suffix]). *)
Record Path : Type := {
  path_str : string;
  name : string;
  stem : string;
  suffix : string
}.

Record BoundingBox : Type := {
  bb_min : Q * Q * Q;
  bb_max : Q * Q * Q;
  bb_size : Q * Q * Q
}.

(** The [info] dictionary of [get_model_info]. *)
Record ModelInfo : Type := {
  valid : bool;
  entities : Z;
  volumes : Z;
  surfaces : Z;
  curves : Z;
  points : Z;
  bounding_box : option BoundingBox;
  estimated_unit : string;
  part_names : list string
}.

(** ** GmshManager *)

Module GmshManager.

Local Open Scope py_scope.

  (** [is_available]: the probe, memoized in [_gmsh_available]. *)
Definition is_available (g : Gmsh) (e : Engine) : bool * Engine :=
    match _gmsh_available e with
    | Some b => (b, e)
    | None =>
        if importable g then (true, set_available (Some true) e)
        else (false, set_available (Some false) e)
    end.

Definition reset_cache (e : Engine) : Engine := set_available None e.

  (** The calls into the engine; [L] is the local state of the caller. *)
Section EngineCalls.
Context {L : Type} (g : Gmsh).

Definition call {A} (c : GmshCall) (answer : history -> result A)
        : M (Engine * L) A :=
      fun s => (answer (calls (fst s)), (log_call c (fst s), snd s)).

Definition initialize := call Initialize (on_initialize g).
Definition setNumber (k : string) (v : Q) :=
      call (SetNumber k v) (fun h => on_setNumber g h k v).
Definition model_add (n : string) :=
      call (ModelAdd n) (fun h => on_model_add g h n).
Definition importShapes (p : string) :=
      call (ImportShapes p) (fun h => on_importShapes g h p).
Definition synchronize := call Synchronize (on_synchronize g).
Definition merge (p : string) := call (Merge p) (fun h => on_merge g h p).
Definition getEntities := call GetEntities (on_getEntities g).
Definition getBoundingBox (dim tag : Z) :=
      call (GetBoundingBox dim tag) (fun h => on_getBoundingBox g h dim tag).
Definition getEntityName (dim tag : Z) :=
      call (GetEntityName dim tag) (fun h => on_getEntityName g h dim tag).
Definition generate (dim : Z) :=
      call (Generate dim) (fun h => on_generate g h dim).
Definition finalize := call Finalize (on_finalize g).

Definition write (p : string) : M (Engine * L) unit :=
      fun s =>
        let e := fst s in
        (on_write g (calls e) p,
         (set_files (write_files g (calls e) p (files e)) (log_call (WriteFile p) e),
          snd s)).

    (** Changing the caller's local state. *)
Definition local (f : L -> L) : M (Engine * L) unit :=
      modify (fun s => (fst s, f (snd s))).
Definition read_local : M (Engine * L) L :=
      fun s => (Ok (snd s), s).
End EngineCalls.

  (** The six boundary-representation suffixes tested by both loaders. *)
Definition is_brep_ext (file_ext : string) : bool :=
    Py.mem file_ext [".step"; ".stp"; ".iges"; ".igs"; ".brep"; ".brp"].

  (** *** get_model_info *)

Definition default_info : ModelInfo :=
    {| valid := false; entities := 0; volumes := 0; surfaces := 0;
       curves := 0; points := 0; bounding_box := None;
       estimated_unit := "UNKNOWN"; part_names := [] |}.

Definition set_valid (b : bool) (i : ModelInfo) : ModelInfo :=
    {| valid := b; entities := entities i; volumes := volumes i;
       surfaces := surfaces i; curves := curves i; points := points i;
       bounding_box := bounding_box i; estimated_unit := estimated_unit i;
       part_names := part_names i |}.

Definition set_entities (n : Z) (i : ModelInfo) : ModelInfo :=
    {| valid := valid i; entities := n; volumes := volumes i;
       surfaces := surfaces i; curves := curves i; points := points i;
       bounding_box := bounding_box i; estimated_unit := estimated_unit i;
       part_names := part_names i |}.

Definition add_point (i : ModelInfo) : ModelInfo :=
    {| valid := valid i; entities := entities i; volumes := volumes i;
       surfaces := surfaces i; curves := curves i; points := points i + 1;
       bounding_box := bounding_box i; estimated_unit := estimated_unit i;
       part_names := part_names i |}.

Definition add_curve (i : ModelInfo) : ModelInfo :=
    {| valid := valid i; entities := entities i; volumes := volumes i;
       surfaces := surfaces i; curves := curves i + 1; points := points i;
       bounding_box := bounding_box i; estimated_unit := estimated_unit i;
       part_names := part_names i |}.

Definition add_surface (i : ModelInfo) : ModelInfo :=
    {| valid := valid i; entities := entities i; volumes := volumes i;
       surfaces := surfaces i + 1; curves := curves i; points := points i;
       bounding_box := bounding_box i; estimated_unit := estimated_unit i;
       part_names := part_names i |}.

Definition add_volume (i : ModelInfo) : ModelInfo :=
    {| valid := valid i; entities := entities i; volumes := volumes i + 1;
       surfaces := surfaces i; curves := curves i; points := points i;
       bounding_box := bounding_box i; estimated_unit := estimated_unit i;
       part_names := part_names i |}.

  (** One round of the counting loop over [(dim, tag)]. *)
Definition count_entity (i : ModelInfo) (dt : Z * Z) : ModelInfo :=
    let dim := fst dt in
    if (dim =? 0)%Z then add_point i
    else if (dim =? 1)%Z then add_curve i
    else if (dim =? 2)%Z then add_surface i
    else if (dim =? 3)%Z then add_volume i
    else i.

Definition set_bounding_box (b : BoundingBox) (i : ModelInfo) : ModelInfo :=
    {| valid := valid i; entities := entities i; volumes := volumes i;
       surfaces := surfaces i; curves := curves i; points := points i;
       bounding_box := Some b; estimated_unit := estimated_unit i;
       part_names := part_names i |}.

Definition set_estimated_unit (u : string) (i : ModelInfo) : ModelInfo :=
    {| valid := valid i; entities := entities i; volumes := volumes i;
       surfaces := surfaces i; curves := curves i; points := points i;
       bounding_box := bounding_box i; estimated_unit := u;
       part_names := part_names i |}.

Definition append_part_name (n : string) (i : ModelInfo) : ModelInfo :=
    {| valid := valid i; entities := entities i; volumes := volumes i;
       surfaces := surfaces i; curves := curves i; points := points i;
       bounding_box := bounding_box i; estimated_unit := estimated_unit i;
       part_names := part_names i ++ [n] |}.

  (** [x > y] on floats. *)
Definition Qgt_bool (x y : Q) : bool := negb (Qle_bool x y).

  (** [max(a, b, c)]: the first of the largest. *)
Definition max3 (a b c : Q) : Q :=
    let m := if Qgt_bool b a then b else a in
    if Qgt_bool c m then c else m.

  (** The [if/elif] chain on [max_dim]. *)
Definition estimate_unit (max_dim : Q) : string :=
    if Qgt_bool max_dim 1000 then "MILLIMETERS"
    else if Qgt_bool max_dim 10 then "CENTIMETERS"
    else if Qgt_bool max_dim (1 # 10) then "METERS"
    else "MILLIMETERS".

Definition box_of (b : BBox) : BoundingBox :=
    let '(xmin, ymin, zmin, xmax, ymax, zmax) := b in
    {| bb_min := (xmin, ymin, zmin);
       bb_max := (xmax, ymax, zmax);
       bb_size := (xmax - xmin, ymax - ymin, zmax - zmin)%Q |}.

Definition max_dim_of (b : BBox) : Q :=
    let '(xmin, ymin, zmin, xmax, ymax, zmax) := b in
    max3 (xmax - xmin) (ymax - ymin) (zmax - zmin)%Q.

  (** The part-name loop of [get_model_info]; an exception leaves it. *)
Fixpoint info_part_names (g : Gmsh) (ents : list (Z * Z))
      : M (Engine * ModelInfo) unit :=
    match ents with
    | [] => ret tt
    | (dim, tag) :: rest =>
        n <- getEntityName g dim tag ;;
        i <- read_local ;;
        (if Py.truthy n && negb (Py.mem n (part_names i))
         then local (append_part_name n) else ret tt) ;;
        info_part_names g rest
    end.

  (** Loading a file: shape import for the six suffixes, merge otherwise.
      [before_import] is what [convert_to_stl] does before the import. *)
Definition load_file {L} (g : Gmsh) (input_path : Path)
      (before_import : M (Engine * L) unit) : M (Engine * L) unit :=
    let file_ext := Py.lower (suffix input_path) in
    if is_brep_ext file_ext then
      before_import ;;
      importShapes g (path_str input_path) ;;
      synchronize g
    else merge g (path_str input_path).

  (** The body of the outer [try] of [get_model_info]. *)
Definition get_model_info_try (g : Gmsh) (input_path : Path)
      : M (Engine * ModelInfo) unit :=
    initialize g ;;
    setNumber g "General.Terminal" 0 ;;
    model_add g "info" ;;
    loaded <- try_except
                (load_file g input_path (ret tt) ;; ret true)
                (fun _ => finalize g ;; ret false) ;;
    if negb loaded then ret tt
    else
      local (set_valid true) ;;
      ents <- getEntities g ;;
      local (set_entities (Z.of_nat (length ents))) ;;
      local (fun i => fold_left count_entity ents i) ;;
      try_pass
        (match ents with
         | [] => ret tt
         | _ :: _ =>
             b <- getBoundingBox g (-1) (-1) ;;
             local (set_bounding_box (box_of b)) ;;
             local (set_estimated_unit (estimate_unit (max_dim_of b)))
         end) ;;
      try_pass
        (info_part_names g ents) ;;
      finalize g.

Definition get_model_info (g : Gmsh) (input_path : Path) (e : Engine)
      : ModelInfo * Engine :=
    let info := default_info in
    let (available, e) := is_available g e in
    if negb available then (info, e)
    else
      let '(_, (e, info)) :=
        try_return (get_model_info_try g input_path)
                   (fun _ s => (tt, snd (try_pass (finalize g) s)))
                   (e, info) in
      (info, e).

  (** *** convert_to_stl *)

  (** The part-name loop of [convert_to_stl]. *)
Fixpoint convert_part_names (g : Gmsh) (ents : list (Z * Z))
      : M (Engine * list string) unit :=
    match ents with
    | [] => ret tt
    | (dim, tag) :: rest =>
        n <- getEntityName g dim tag ;;
        (if Py.truthy n then local (fun names => (names ++ [n])%list) else ret tt) ;;
        convert_part_names g rest
    end.

Definition ConversionResult : Type := (bool * string * list string)%type.

  (** [try: m  except Exception as e: gmsh.finalize(); return False, msg e, []]
      followed by the rest of the function. *)
Definition or_fail {L} (g : Gmsh) (m : M (Engine * L) unit)
      (msg : string) (rest : M (Engine * L) ConversionResult)
      : M (Engine * L) ConversionResult :=
    failed <- try_except (m ;; ret None)
                (fun e => finalize g ;; ret (Some (false, msg +:+ e, []))) ;;
    match failed with
    | Some r => ret r
    | None => rest
    end.

Definition healing_options (g : Gmsh) : M (Engine * list string) unit :=
    setNumber g "Geometry.OCCFixDegenerated" 1 ;;
    setNumber g "Geometry.OCCFixSmallEdges" 1 ;;
    setNumber g "Geometry.OCCFixSmallFaces" 1 ;;
    setNumber g "Geometry.OCCSewFaces" 1.

  (** The body of the outer [try] of [convert_to_stl]. *)
Definition convert_to_stl_try (g : Gmsh) (input_path : Path)
      (output_path : string) (mesh_size_min mesh_size_max : Q)
      (mesh_algorithm : Z) (optimize_mesh healing : bool)
      : M (Engine * list string) ConversionResult :=
    initialize g ;;
    setNumber g "General.Terminal" 0 ;;
    model_add g "cad_import" ;;
    or_fail g
      (load_file g input_path (if healing then healing_options g else ret tt))
      "Failed to import CAD file: "
      (try_pass (ents <- getEntities g ;; convert_part_names g ents) ;;
       setNumber g "Mesh.CharacteristicLengthMin" mesh_size_min ;;
       setNumber g "Mesh.CharacteristicLengthMax" mesh_size_max ;;
       setNumber g "Mesh.Algorithm" (inject_Z mesh_algorithm) ;;
       (if optimize_mesh
        then setNumber g "Mesh.Optimize" 1 ;; setNumber g "Mesh.OptimizeNetgen" 1
        else ret tt) ;;
       or_fail g (generate g 2) "Failed to generate mesh: "
         (or_fail g (write g output_path) "Failed to write STL: "
            (finalize g ;;
             names <- read_local ;;
             ret (true, "Conversion successful", names)))).

Definition convert_to_stl (g : Gmsh) (input_path : Path)
      (output_path : string) (mesh_size_min mesh_size_max : Q)
      (mesh_algorithm : Z) (optimize_mesh healing : bool) (e : Engine)
      : ConversionResult * Engine :=
    let (available, e) := is_available g e in
    if negb available then ((false, "gmsh is not installed", []), e)
    else
      let part_names : list string := [] in
      let '(r, (e, _)) :=
        try_return
          (convert_to_stl_try g input_path output_path mesh_size_min
             mesh_size_max mesh_algorithm optimize_mesh healing)
          (fun err s =>
             ((false, "Conversion error: " +:+ err, []),
              snd (try_pass (finalize g) s)))
          (e, part_names) in
      (r, e).

End GmshManager.

(** ** The host application (Blender) *)

(** A scene object, named by its identity [obj_id]. *)
Record Obj : Type := {
  obj_id : nat;
  obj_name : string;
  obj_data : option string;        (* [obj.data.name], when there is data *)
  obj_type : string;
  users_collection : list nat
}.

(** The operators of [bpy.ops] and the selection calls the driver makes;
    what they do to the geometry is not followed, the calls are logged. *)
Inductive HostOp : Type :=
| SelectAll_DESELECT
| SelectSet (obj : nat)
| SetActive (obj : nat)
| ShadeSmooth
| ModeSet (mode : string)
| MeshSelectAll
| RemoveDoubles (threshold : Q)
| NormalsMakeConsistent
| TransformApply
| OriginSet (type center : string)
| ViewSelected.

Record Scene : Type := {
  objects : list Obj;                (* bpy.data.objects *)
  collections : list nat;            (* bpy.data.collections *)
  cursor_location : Q * Q * Q;
  ops : list HostOp                  (* oldest first *)
}.

Definition set_objects (os : list Obj) (s : Scene) : Scene :=
  {| objects := os; collections := collections s;
     cursor_location := cursor_location s; ops := ops s |}.

Definition set_collections (cs : list nat) (s : Scene) : Scene :=
  {| objects := objects s; collections := cs;
     cursor_location := cursor_location s; ops := ops s |}.

Definition set_cursor (c : Q * Q * Q) (s : Scene) : Scene :=
  {| objects := objects s; collections := collections s;
     cursor_location := c; ops := ops s |}.

Definition run_op (o : HostOp) (s : Scene) : Scene :=
  {| objects := objects s; collections := collections s;
     cursor_location := cursor_location s; ops := ops s ++ [o] |}.

(** Writing through an object reference. *)
Definition update_obj (id : nat) (f : Obj -> Obj) (s : Scene) : Scene :=
  set_objects (map (fun o => if Nat.eqb (obj_id o) id then f o else o) (objects s)) s.

Definition find_obj (id : nat) (s : Scene) : option Obj :=
  find (fun o => Nat.eqb (obj_id o) id) (objects s).

Definition rename_obj (n : string) (o : Obj) : Obj :=
  {| obj_id := obj_id o; obj_name := n;
     obj_data := match obj_data o with Some _ => Some n | None => None end;
     obj_type := obj_type o; users_collection := users_collection o |}.

Definition relink_obj (target : nat) (o : Obj) : Obj :=
  {| obj_id := obj_id o; obj_name := obj_name o; obj_data := obj_data o;
     obj_type := obj_type o; users_collection := [target] |}.

(** [collection.objects] *)
Definition collection_objects (c : nat) (s : Scene) : list Obj :=
  filter (fun o => c ∈ users_collection o) (objects s).

(** Everything outside the operator that the driver reads or changes. *)
Record World : Type := {
  engine : Engine;
  scene : Scene;
  import_progress : ImportProgress;          (* the module-level singleton *)
  reports : list (string * string);          (* self.report, oldest first *)
  logged : list (string * string);           (* logger, oldest first *)
  status_text : option string;               (* workspace status bar *)
  wm_progress : option Q                     (* window-manager progress *)
}.

Definition set_engine (e : Engine) (w : World) : World :=
  {| engine := e; scene := scene w; import_progress := import_progress w;
     reports := reports w; logged := logged w; status_text := status_text w;
     wm_progress := wm_progress w |}.

Definition set_scene (s : Scene) (w : World) : World :=
  {| engine := engine w; scene := s; import_progress := import_progress w;
     reports := reports w; logged := logged w; status_text := status_text w;
     wm_progress := wm_progress w |}.

Definition set_import_progress (p : ImportProgress) (w : World) : World :=
  {| engine := engine w; scene := scene w; import_progress := p;
     reports := reports w; logged := logged w; status_text := status_text w;
     wm_progress := wm_progress w |}.

Definition add_report (level msg : string) (w : World) : World :=
  {| engine := engine w; scene := scene w; import_progress := import_progress w;
     reports := reports w ++ [(level, msg)]; logged := logged w;
     status_text := status_text w; wm_progress := wm_progress w |}.

Definition add_logged (level msg : string) (w : World) : World :=
  {| engine := engine w; scene := scene w; import_progress := import_progress w;
     reports := reports w; logged := logged w ++ [(level, msg)];
     status_text := status_text w; wm_progress := wm_progress w |}.

Definition set_status_text (t : option string) (w : World) : World :=
  {| engine := engine w; scene := scene w; import_progress := import_progress w;
     reports := reports w; logged := logged w; status_text := t;
     wm_progress := wm_progress w |}.

Definition set_wm_progress (q : option Q) (w : World) : World :=
  {| engine := engine w; scene := scene w; import_progress := import_progress w;
     reports := reports w; logged := logged w; status_text := status_text w;
     wm_progress := q |}.

(** The host's side of the calls the driver makes.  Only the calls the
    source guards with [try/except] are given a failing outcome; the
    [bpy.ops] operators of the post-processing are taken to return. *)
Record Host : Type := {
  gmsh : Gmsh;
  (* tempfile.mkstemp(suffix=".stl") and os.close: the new path, whose
     file then exists *)
  mkstemp : gset string -> result string;
  (* bpy.ops.wm.stl_import(filepath, global_scale): the objects it adds to
     bpy.data.objects, also when it raises *)
  stl_import : Scene -> string -> Q -> result unit * list Obj;
  (* Path.exists and Path.unlink of the clean-up; a unlink that returns
     has removed the file *)
  unlink : gset string -> string -> result unit;
  (* re.sub(r'[^\w\-_]', '_', s) *)
  clean_name : string -> string;
  (* f"{elapsed:.2f}" at the time of the summary *)
  elapsed : string;
  (* the 3D view exists and is not the camera view *)
  can_frame_view : result bool
}.

(** ** The import operator *)

Inductive SourceUnit : Type :=
| AUTO | MICROMETERS | MILLIMETERS | CENTIMETERS | METERS | INCHES | FEET.

(** The identifier of an enum item, which is what the property holds. *)
Definition unit_id (u : SourceUnit) : string :=
  match u with
  | AUTO => "AUTO"
  | MICROMETERS => "MICROMETERS"
  | MILLIMETERS => "MILLIMETERS"
  | CENTIMETERS => "CENTIMETERS"
  | METERS => "METERS"
  | INCHES => "INCHES"
  | FEET => "FEET"
  end.

Inductive GlobalScale : Type :=
| x1000 | x100 | x10 | x1 | x0_1 | x0_01 | x0_001.

(** [float(self.global_scale)] *)
Definition float_of_scale (s : GlobalScale) : Q :=
  match s with
  | x1000 => 1000 | x100 => 100 | x10 => 10 | x1 => 1
  | x0_1 => 1 # 10 | x0_01 => 1 # 100 | x0_001 => 1 # 1000
  end%Q.

Inductive SetOrigin : Type :=
| NONE | GEOMETRY | BOUNDS | CURSOR | WORLD.

Record Operator : Type := {
  (* properties *)
  mesh_algorithm : Z;                 (* int(self.mesh_algorithm) *)
  optimize_mesh : bool;
  healing : bool;
  source_unit : SourceUnit;
  global_scale : GlobalScale;
  use_part_names : bool;
  smooth_shading : bool;
  recalc_normals : bool;
  merge_distance : Q;
  apply_transform : bool;
  set_origin : SetOrigin;
  (* internal state *)
  _timer : option unit;
  _files_to_process : list Path;
  _current_index : nat;
  _temp_files : list string;
  _all_imported_objects : list nat;
  _mesh_min : Q;
  _mesh_max : Q;
  _target_collection : option nat
}.

Definition set_timer (t : option unit) (o : Operator) : Operator :=
  {| mesh_algorithm := mesh_algorithm o; optimize_mesh := optimize_mesh o;
     healing := healing o; source_unit := source_unit o;
     global_scale := global_scale o; use_part_names := use_part_names o;
     smooth_shading := smooth_shading o; recalc_normals := recalc_normals o;
     merge_distance := merge_distance o; apply_transform := apply_transform o;
     set_origin := set_origin o;
     _timer := t; _files_to_process := _files_to_process o;
     _current_index := _current_index o; _temp_files := _temp_files o;
     _all_imported_objects := _all_imported_objects o;
     _mesh_min := _mesh_min o; _mesh_max := _mesh_max o;
     _target_collection := _target_collection o |}.

Definition set_current_index (i : nat) (o : Operator) : Operator :=
  {| mesh_algorithm := mesh_algorithm o; optimize_mesh := optimize_mesh o;
     healing := healing o; source_unit := source_unit o;
     global_scale := global_scale o; use_part_names := use_part_names o;
     smooth_shading := smooth_shading o; recalc_normals := recalc_normals o;
     merge_distance := merge_distance o; apply_transform := apply_transform o;
     set_origin := set_origin o;
     _timer := _timer o; _files_to_process := _files_to_process o;
     _current_index := i; _temp_files := _temp_files o;
     _all_imported_objects := _all_imported_objects o;
     _mesh_min := _mesh_min o; _mesh_max := _mesh_max o;
     _target_collection := _target_collection o |}.

Definition set_temp_files (l : list string) (o : Operator) : Operator :=
  {| mesh_algorithm := mesh_algorithm o; optimize_mesh := optimize_mesh o;
     healing := healing o; source_unit := source_unit o;
     global_scale := global_scale o; use_part_names := use_part_names o;
     smooth_shading := smooth_shading o; recalc_normals := recalc_normals o;
     merge_distance := merge_distance o; apply_transform := apply_transform o;
     set_origin := set_origin o;
     _timer := _timer o; _files_to_process := _files_to_process o;
     _current_index := _current_index o; _temp_files := l;
     _all_imported_objects := _all_imported_objects o;
     _mesh_min := _mesh_min o; _mesh_max := _mesh_max o;
     _target_collection := _target_collection o |}.

Definition set_all_imported_objects (l : list nat) (o : Operator) : Operator :=
  {| mesh_algorithm := mesh_algorithm o; optimize_mesh := optimize_mesh o;
     healing := healing o; source_unit := source_unit o;
     global_scale := global_scale o; use_part_names := use_part_names o;
     smooth_shading := smooth_shading o; recalc_normals := recalc_normals o;
     merge_distance := merge_distance o; apply_transform := apply_transform o;
     set_origin := set_origin o;
     _timer := _timer o; _files_to_process := _files_to_process o;
     _current_index := _current_index o; _temp_files := _temp_files o;
     _all_imported_objects := l;
     _mesh_min := _mesh_min o; _mesh_max := _mesh_max o;
     _target_collection := _target_collection o |}.

Inductive Event : Type := ESC | TIMER | OTHER_EVENT.

(** What [modal] and [_finish] return to the host. *)
Inductive Status : Type := RUNNING_MODAL | FINISHED | CANCELLED.

Module LADDER_OT_import_cad.

Local Open Scope py_scope.

  (** The state the driver works on: [self] and everything around it. *)
Definition St : Type := (Operator * World)%type.

Definition self : M St Operator := fun s => (Ok (fst s), s).
Definition world : M St World := fun s => (Ok (snd s), s).
Definition set_self (f : Operator -> Operator) : M St unit :=
    modify (fun s => (f (fst s), snd s)).
Definition in_world (f : World -> World) : M St unit :=
    modify (fun s => (fst s, f (snd s))).
Definition in_scene (f : Scene -> Scene) : M St unit :=
    in_world (fun w => set_scene (f (scene w)) w).

  (** A call of a [GmshManager] method, which cannot raise. *)
Definition on_engine {A} (f : Engine -> A * Engine) : M St A :=
    fun s =>
      let (a, e) := f (engine (snd s)) in
      (Ok a, (fst s, set_engine e (snd s))).

Definition logger_error (msg : string) : M St unit :=
    in_world (add_logged "ERROR" msg).
Definition report (level msg : string) : M St unit :=
    in_world (add_report level msg).

  (** [import_progress.update(...)] followed by
      [context.workspace.status_text_set(import_progress.status_text)]. *)
Definition announce (index : nat) (filename phase : string) : M St unit :=
    in_world (fun w =>
      set_import_progress
        (Progress.update (Z.of_nat index) filename phase (import_progress w)) w) ;;
    in_world (fun w =>
      set_status_text (Some (Progress.status_text (import_progress w))) w).

  (** The body of the [try] that creates the temporary file and registers
      it in [_temp_files]. *)
Definition create_temp_file (h : Host) : M St string :=
    fun s =>
      let e := engine (snd s) in
      match mkstemp h (files e) with
      | Ok p =>
          (Ok p,
           (set_temp_files (_temp_files (fst s) ++ [p]) (fst s),
            set_engine (set_files ({[p]} ∪ files e) e) (snd s)))
      | Raise err => (Raise err, s)
      end.

  (** [info.get('estimated_unit', 'MILLIMETERS')]: the dictionary built by
      [get_model_info] always has the key. *)
Definition info_get_estimated_unit (info : ModelInfo) (default : string)
      : string :=
    estimated_unit info.

  (** [x = UNIT_SCALES[k] if k in UNIT_SCALES], starting from [unit_scale]. *)
Definition scale_or (unit_scale : Q) (k : string) : Q :=
    match UNIT_SCALES !! k with
    | Some v => v
    | None => unit_scale
    end.

  (** "Determine scale based on source unit". *)
Definition determine_unit_scale (h : Host) (input_path : Path) : M St Q :=
    o <- self ;;
    let unit_scale := 1%Q in
    if String.eqb (unit_id (source_unit o)) "AUTO" then
      info <- on_engine (GmshManager.get_model_info (gmsh h) input_path) ;;
      let detected_unit := info_get_estimated_unit info "MILLIMETERS" in
      ret (scale_or unit_scale detected_unit)
    else ret (scale_or unit_scale (unit_id (source_unit o))).

  (** [f"{i:03d}"] *)
Definition fmt_03d (i : nat) : string :=
    let s := Py.str (Z.of_nat i) in
    match String.length s with
    | 1%nat => "00" +:+ s
    | 2%nat => "0" +:+ s
    | _ => s
    end.

Definition numbered (base_name : string) (i : nat) : string :=
    base_name +:+ "_" +:+ fmt_03d i.

  (** The renaming loop with part names, from position [i] on. *)
Fixpoint rename_with_part_names (h : Host) (base_name : string)
      (part_names : list string) (i : nat) (objs : list nat) (sc : Scene)
      : Scene :=
    match objs with
    | [] => sc
    | obj :: rest =>
        let n :=
          match part_names !! i with
          | Some pn => clean_name h pn
          | None => numbered base_name i
          end in
        rename_with_part_names h base_name part_names (S i) rest
          (update_obj obj (rename_obj n) sc)
    end.

  (** The numbering loop, from position [i] on. *)
Fixpoint rename_numbered (base_name : string) (i : nat) (objs : list nat)
      (sc : Scene) : Scene :=
    match objs with
    | [] => sc
    | obj :: rest =>
        rename_numbered base_name (S i) rest
          (update_obj obj (rename_obj (numbered base_name i)) sc)
    end.

Definition rename_objects (h : Host) (o : Operator) (base_name : string)
      (part_names : list string) (new_objects : list nat) (sc : Scene) : Scene :=
    if use_part_names o && negb (Nat.eqb (length part_names) 0) then
      rename_with_part_names h base_name part_names 0 new_objects sc
    else
      match new_objects with
      | [obj] => update_obj obj (rename_obj base_name) sc
      | _ => rename_numbered base_name 0 new_objects sc
      end.

Definition move_to_collection (o : Operator) (new_objects : list nat)
      (sc : Scene) : Scene :=
    match _target_collection o with
    | Some target =>
        fold_left (fun sc obj => update_obj obj (relink_obj target) sc)
                  new_objects sc
    | None => sc
    end.

Definition run_ops (l : list HostOp) (sc : Scene) : Scene :=
    fold_left (fun sc op => run_op op sc) l sc.

  (** The post-processing of one object. *)
Definition post_process (o : Operator) (obj : nat) (sc : Scene) : Scene :=
    match find_obj obj sc with
    | Some ob =>
        if negb (String.eqb (obj_type ob) "MESH") then sc
        else
          let sc := run_ops [SelectAll_DESELECT; SelectSet obj; SetActive obj] sc in
          let sc := if smooth_shading o then run_op ShadeSmooth sc else sc in
          let sc :=
            if GmshManager.Qgt_bool (merge_distance o) 0 then
              run_ops [ModeSet "EDIT"; MeshSelectAll;
                       RemoveDoubles (merge_distance o); ModeSet "OBJECT"] sc
            else sc in
          let sc :=
            if recalc_normals o then
              run_ops [ModeSet "EDIT"; MeshSelectAll;
                       NormalsMakeConsistent; ModeSet "OBJECT"] sc
            else sc in
          let sc := if apply_transform o then run_op TransformApply sc else sc in
          match set_origin o with
          | NONE => sc
          | GEOMETRY => run_op (OriginSet "ORIGIN_GEOMETRY" "MEDIAN") sc
          | BOUNDS => run_op (OriginSet "ORIGIN_GEOMETRY" "BOUNDS") sc
          | CURSOR => run_op (OriginSet "ORIGIN_CURSOR" "") sc
          | WORLD =>
              let saved_cursor := cursor_location sc in
              let sc := set_cursor (0, 0, 0)%Q sc in
              let sc := run_op (OriginSet "ORIGIN_CURSOR" "") sc in
              set_cursor saved_cursor sc
          end
    | None => sc
    end.

  (** [bpy.ops.wm.stl_import(...)]: the objects it creates join
      [bpy.data.objects]. *)
Definition call_stl_import (h : Host) (filepath : string) (global_scale : Q)
      : M St unit :=
    fun s =>
      let sc := scene (snd s) in
      let (r, created) := stl_import h sc filepath global_scale in
      (r, (fst s, set_scene (set_objects (objects sc ++ created) sc) (snd s))).

  (** What follows a successful import of the intermediate mesh. *)
Definition adopt_new_objects (h : Host) (input_path : Path)
      (part_names : list string) (new_objects : list nat) : M St string :=
    o <- self ;;
    let base_name := stem input_path in
    in_scene (rename_objects h o base_name part_names new_objects) ;;
    in_scene (move_to_collection o new_objects) ;;
    in_scene (fun sc => fold_left (fun sc obj => post_process o obj sc) new_objects sc) ;;
    set_self (fun o =>
      set_all_imported_objects (_all_imported_objects o ++ new_objects) o) ;;
    ret "OK".

  (** The import phase of one file. *)
Definition import_phase (h : Host) (input_path : Path) (output_path : string)
      (unit_scale : Q) (part_names : list string) : M St string :=
    o <- self ;;
    announce (_current_index o) (name input_path) "importing" ;;
    w <- world ;;
    let before_objects : gset nat := list_to_set (map obj_id (objects (scene w))) in
    let final_scale := (float_of_scale (global_scale o) * unit_scale)%Q in
    imported <- try_except
                  (call_stl_import h output_path final_scale ;; ret true)
                  (fun e =>
                     logger_error ("Import failed for " +:+ path_str input_path
                                   +:+ ": " +:+ e) ;;
                     ret false) ;;
    if negb imported then ret "ERROR"
    else
      w <- world ;;
      let new_objects :=
        filter (fun obj => obj ∉ before_objects)
               (map obj_id (objects (scene w))) in
      match new_objects with
      | [] => ret "ERROR"
      | _ :: _ => adopt_new_objects h input_path part_names new_objects
      end.

  (** Conversion of one file and what follows it. *)
Definition convert_phase (h : Host) (input_path : Path) (output_path : string)
      : M St string :=
    unit_scale <- determine_unit_scale h input_path ;;
    o <- self ;;
    r <- on_engine
           (GmshManager.convert_to_stl (gmsh h) input_path output_path
              (_mesh_min o) (_mesh_max o) (mesh_algorithm o)
              (optimize_mesh o) (healing o)) ;;
    let '(success, message, part_names) := r in
    if negb success then
      logger_error ("Conversion failed for " +:+ path_str input_path
                    +:+ ": " +:+ message) ;;
      report "WARNING" ("Failed to convert " +:+ name input_path
                        +:+ ": " +:+ message) ;;
      ret "ERROR"
    else
      w <- world ;;
      if negb (bool_decide (output_path ∈ files (engine w))) then
        logger_error ("No output produced for " +:+ path_str input_path) ;;
        ret "ERROR"
      else import_phase h input_path output_path unit_scale part_names.

Definition _process_current_file (h : Host) : M St string :=
    o <- self ;;
    match _files_to_process o !! _current_index o with
    | None => fun s => (Raise "IndexError: list index out of range", s)
    | Some input_path =>
        announce (_current_index o) (name input_path) "converting" ;;
        created <- try_except
                     (p <- create_temp_file h ;; ret (Some p))
                     (fun e =>
                        logger_error ("Failed to create temp file: " +:+ e) ;;
                        ret None) ;;
        match created with
        | None => ret "ERROR"
        | Some output_path => convert_phase h input_path output_path
        end
    end.

  (** The clean-up loop over [_temp_files]: a failing deletion is passed
      over. *)
Fixpoint cleanup_temp_files (h : Host) (paths : list string) (e : Engine)
      : Engine :=
    match paths with
    | [] => e
    | temp_path :: rest =>
        let e :=
          if bool_decide (temp_path ∈ files e) then
            match unlink h (files e) temp_path with
            | Ok _ => set_files (files e ∖ {[temp_path]}) e
            | Raise _ => e
            end
          else e in
        cleanup_temp_files h rest e
    end.

Definition remove_collection (c : nat) (sc : Scene) : Scene :=
    set_collections (filter (fun c' => c' ≠ c) (collections sc)) sc.

  (** Selecting what was imported, at the end of a finished batch. *)
Definition select_imported (imported : list nat) (sc : Scene) : Scene :=
    let sc := run_op SelectAll_DESELECT sc in
    let sc :=
      fold_left
        (fun sc obj =>
           match find_obj obj sc with
           | Some ob =>
               if existsb (fun o' => String.eqb (obj_name o') (obj_name ob))
                          (objects sc)
               then run_op (SelectSet obj) sc else sc
           | None => sc
           end)
        imported sc in
    match imported with
    | first :: _ => run_op (SetActive first) sc
    | [] => sc
    end.

Definition _finish (h : Host) (cancelled : bool) : M St Status :=
    o <- self ;;
    (match _timer o with
     | Some _ => set_self (set_timer None)
     | None => ret tt
     end) ;;
    in_world (set_wm_progress None) ;;
    in_world (set_status_text None) ;;
    in_world (fun w => set_import_progress (Progress.stop (import_progress w)) w) ;;
    in_world (fun w =>
      set_engine (cleanup_temp_files h (_temp_files o) (engine w)) w) ;;
    set_self (set_temp_files []) ;;
    if cancelled then
      in_world (fun w =>
        set_import_progress (Progress.cancel (import_progress w)) w) ;;
      w <- world ;;
      (match _target_collection o with
       | Some c =>
           if Nat.eqb (length (collection_objects c (scene w))) 0
           then in_scene (remove_collection c) else ret tt
       | None => ret tt
       end) ;;
      report "INFO" "Import cancelled" ;;
      ret CANCELLED
    else
      in_scene (select_imported (_all_imported_objects o)) ;;
      (match can_frame_view h with
       | Ok true => in_scene (run_op ViewSelected)
       | _ => ret tt
       end) ;;
      let obj_count := Py.str (Z.of_nat (length (_all_imported_objects o))) in
      let file_count := length (_files_to_process o) in
      (if Nat.eqb file_count 1 then
         report "INFO" ("Imported " +:+ obj_count +:+ " object(s) in "
                        +:+ elapsed h +:+ "s")
       else
         report "INFO" ("Imported " +:+ obj_count +:+ " object(s) from "
                        +:+ Py.str (Z.of_nat file_count) +:+ " files in "
                        +:+ elapsed h +:+ "s")) ;;
      ret FINISHED.

Definition modal (h : Host) (event : Event) : M St Status :=
    match event with
    | ESC => _finish h true
    | TIMER =>
        o <- self ;;
        if (length (_files_to_process o) <=? _current_index o)%nat then
          _finish h false
        else
          result <- _process_current_file h ;;
          (* if result == 'ERROR': pass *)
          set_self (fun o => set_current_index (_current_index o + 1) o) ;;
          o <- self ;;
          let progress :=
            ((inject_Z (Z.of_nat (_current_index o))
              / inject_Z (Z.of_nat (length (_files_to_process o)))) * 100)%Q in
          in_world (set_wm_progress (Some progress)) ;;
          in_world (fun w =>
            set_status_text (Some (Progress.status_text (import_progress w))) w) ;;
          ret RUNNING_MODAL
    | OTHER_EVENT => ret RUNNING_MODAL
    end.

  (** The host's modal loop: events are handed to [modal] for as long as
      it answers [RUNNING_MODAL]; an exception ends the operator. *)
Fixpoint run_modal (h : Host) (events : list Event) (s : St)
      : result Status * St :=
    match events with
    | [] => (Ok RUNNING_MODAL, s)
    | ev :: rest =>
        match modal h ev s with
        | (Ok RUNNING_MODAL, s') => run_modal h rest s'
        | r => r
        end
    end.

End LADDER_OT_import_cad.

(** ** The specification's own words, for comparison *)

(** "Order of first appearance, deduplicated". *)
Fixpoint first_appearances (l : list string) : list string :=
  match l with
  | [] => []
  | x :: r => x :: filter (fun y => y ≠ x) (first_appearances r)
  end.

(** The "named entities" among the names the engine gives. *)
Definition named (l : list string) : list string :=
  filter (fun n => Py.truthy n = true) l.

(** The four engine options of geometry healing. *)
Definition healing_keys : list string :=
  ["Geometry.OCCFixDegenerated"; "Geometry.OCCFixSmallEdges";
   "Geometry.OCCFixSmallFaces"; "Geometry.OCCSewFaces"].

(** The call that sets an engine option [k] is in the history [h]. *)
Definition sets_option (k : string) (h : history) : Prop :=
  exists v, In (SetNumber k v) h.

(** The units that reading the bounding box can give. *)
Definition detectable_units : list string :=
  ["UNKNOWN"; "MILLIMETERS"; "CENTIMETERS"; "METERS"].

(** The largest dimension of a bounding box. *)
Definition largest_dimension (b : BoundingBox) : Q :=
  let '(sx, sy, sz) := bb_size b in GmshManager.max3 sx sy sz.

(** ** Concrete engines and hosts, to run the embedding on *)

Module Demo.

(** An engine that is installed and whose answers do not depend on the
    history. *)
Definition gmsh_with (load : result unit) (ents : result (list (Z * Z)))
    (box : result BBox) (names : Z -> Z -> result string)
    (generated : result unit) : Gmsh :=
  {| importable := true;
     on_initialize := fun _ => Ok tt;
     on_setNumber := fun _ _ _ => Ok tt;
     on_model_add := fun _ _ => Ok tt;
     on_importShapes := fun _ _ => load;
     on_synchronize := fun _ => Ok tt;
     on_merge := fun _ _ => load;
     on_getEntities := fun _ => ents;
     on_getBoundingBox := fun _ _ _ => box;
     on_getEntityName := fun _ dim tag => names dim tag;
     on_generate := fun _ _ => generated;
     on_write := fun _ _ => Ok tt;
     write_files := fun _ p fs => {[p]} ∪ fs;
     on_finalize := fun _ => Ok tt |}.

Definition fresh_engine : Engine :=
  {| _gmsh_available := None; calls := []; files := ∅ |}.

Definition path_of (dir stem' suffix' : string) : Path :=
  {| path_str := dir +:+ stem' +:+ suffix';
     name := stem' +:+ suffix';
     stem := stem';
     suffix := suffix' |}.

Definition bracket_step : Path := path_of "/cad/" "bracket" ".STEP".
Definition scan_stl : Path := path_of "/cad/" "scan" ".stl".

(** A unit cube of side 2, two of whose three entities carry the same
    name. *)
Definition cube_entities : list (Z * Z) := [(3, 1); (2, 1); (2, 2)].
Definition cube_box : BBox := (0, 0, 0, 2, 2, 2)%Q.
Definition cube_names (dim tag : Z) : result string :=
  if (dim =? 3)%Z then Ok "" else Ok "Panel".

Definition cube_gmsh : Gmsh :=
  gmsh_with (Ok tt) (Ok cube_entities) (Ok cube_box) cube_names (Ok tt).

(** The same file on an engine that loads it and then fails to list its
    entities. *)
Definition listing_fails_gmsh : Gmsh :=
  gmsh_with (Ok tt) (Raise "entities") (Ok cube_box) cube_names (Ok tt).

(** An engine that cannot load the file. *)
Definition unreadable_gmsh : Gmsh :=
  gmsh_with (Raise "cannot read") (Ok []) (Ok cube_box) cube_names (Ok tt).

(** A model that fills a cube of the given side. *)
Definition box_gmsh (side : Q) : Gmsh :=
  gmsh_with (Ok tt) (Ok cube_entities) (Ok (0, 0, 0, side, side, side)%Q)
            cube_names (Ok tt).

(** An engine that loads the file and finds it empty. *)
Definition empty_model_gmsh : Gmsh :=
  gmsh_with (Ok tt) (Ok []) (Ok cube_box) cube_names (Ok tt).

Definition mesh_object (id : nat) : Obj :=
  {| obj_id := id; obj_name := "Mesh"; obj_data := Some "Mesh";
     obj_type := "MESH"; users_collection := [0%nat] |}.

(** A host whose importer creates one mesh object per file, except for
    the intermediate file [silent], for which it creates nothing. *)
Definition host_with (g : Gmsh) (silent : string) : Host :=
  {| gmsh := g;
     mkstemp := fun fs => Ok ("/tmp/" +:+ Py.str (Z.of_nat (size fs)) +:+ ".stl");
     stl_import := fun sc filepath _ =>
       if String.eqb filepath silent then (Ok tt, [])
       else (Ok tt, [mesh_object (length (objects sc))]);
     unlink := fun _ _ => Ok tt;
     clean_name := fun s => s;
     elapsed := "0.10";
     can_frame_view := Ok false |}.

Definition empty_scene : Scene :=
  {| objects := []; collections := []; cursor_location := (0, 0, 0)%Q; ops := [] |}.

Definition quiet_world (n : Z) : World :=
  {| engine := fresh_engine; scene := empty_scene;
     import_progress := Progress.start n Progress.init;
     reports := []; logged := []; status_text := None; wm_progress := None |}.

(** The operator as [execute] leaves it for the files [fs]. *)
Definition operator_for (fs : list Path) (u : SourceUnit)
    (target : option nat) : Operator :=
  {| mesh_algorithm := 2; optimize_mesh := false; healing := false;
     source_unit := u; global_scale := x1; use_part_names := false;
     smooth_shading := false; recalc_normals := false; merge_distance := 0;
     apply_transform := false; set_origin := NONE;
     _timer := Some tt; _files_to_process := fs; _current_index := 0;
     _temp_files := []; _all_imported_objects := [];
     _mesh_min := 1 # 10; _mesh_max := 10; _target_collection := target |}.

Definition three_files : list Path :=
  [path_of "/cad/" "a" ".step"; path_of "/cad/" "b" ".step";
   path_of "/cad/" "c" ".step"].

(** A batch of three files; the importer creates nothing for the second. *)
Definition three_file_batch : LADDER_OT_import_cad.St :=
  (operator_for three_files MILLIMETERS None, quiet_world 3).

Definition silent_second_host : Host := host_with cube_gmsh "/tmp/1.stl".

(** The same batch with a target collection, one file done. *)
Definition collection_scene : Scene :=
  {| objects := []; collections := [7%nat]; cursor_location := (0, 0, 0)%Q;
     ops := [] |}.

Definition batch_with_collection : LADDER_OT_import_cad.St :=
  (operator_for three_files MILLIMETERS (Some 7%nat),
   set_scene collection_scene (quiet_world 3)).

Definition after_first_file : LADDER_OT_import_cad.St :=
  snd (LADDER_OT_import_cad.modal silent_second_host TIMER three_file_batch).

(** One file, with automatic unit detection, on an engine that finds the
    file empty. *)
Definition undetectable_host : Host := host_with empty_model_gmsh "".

Definition auto_batch : LADDER_OT_import_cad.St :=
  (operator_for [bracket_step] AUTO None, quiet_world 1).

(** An engine that loads the file and cannot mesh it. *)
Definition unmeshable_host : Host :=
  host_with (gmsh_with (Ok tt) (Ok cube_entities) (Ok cube_box) cube_names
               (Raise "no surface")) "".

Definition running_progress : ImportProgress :=
  Progress.update 1 "model.step" "converting" (Progress.start 3 Progress.init).

End Demo.

(** ** Predicates used in the proofs *)

(** [moves P m Q]: from a state in [P], the computation [m] ends in a
    state in [Q], whether it returns or raises. *)
Definition moves {S A} (P : S -> Prop) (m : M S A) (Q : S -> Prop) : Prop :=
  forall s, P s -> Q (snd (m s)).

Definition keeps {S A} (P : S -> Prop) (m : M S A) : Prop := moves P m P.

(** A computation that always returns. *)
Definition returns {S A} (m : M S A) : Prop :=
  forall s, exists a, fst (m s) = Ok a.

(** [yields P m Q]: from a state in [P], the computation [m] returns a
    value [a] and ends in a state in [Q a]. *)
Definition yields {S A} (P : S -> Prop) (m : M S A) (Q : A -> S -> Prop)
    : Prop :=
  forall s, P s -> exists a, fst (m s) = Ok a /\ Q a (snd (m s)).

(** An engine that loads every file and finds the entities [ents] in the
    box [b]; reading names and finalizing may still fail. *)
Definition measures (g : Gmsh) (ents : list (Z * Z)) (b : BBox) : Prop :=
  (forall h, on_initialize g h = Ok tt) /\
  (forall h k v, on_setNumber g h k v = Ok tt) /\
  (forall h n, on_model_add g h n = Ok tt) /\
  (forall h p, on_importShapes g h p = Ok tt) /\
  (forall h, on_synchronize g h = Ok tt) /\
  (forall h p, on_merge g h p = Ok tt) /\
  (forall h, on_getEntities g h = Ok ents) /\
  (forall h dim tag, on_getBoundingBox g h dim tag = Ok b).

(** The dictionary of a model that was loaded and measured with the
    entities [ents] in the box [b]. *)
Definition measured_as (ents : list (Z * Z)) (b : BBox) (i : ModelInfo) : Prop :=
  valid i = true /\ entities i = Z.of_nat (length ents) /\
  bounding_box i = Some (GmshManager.box_of b).

(** A property of the caller's local state, and one of the engine calls
    made so far. *)
Definition about_local {L} (Q : L -> Prop) : Engine * L -> Prop :=
  fun s => Q (snd s).

Definition about_calls {L} (R : history -> Prop) : Engine * L -> Prop :=
  fun s => R (calls (fst s)).

(** The dictionary is still the one the function starts from. *)
Definition blank (i : ModelInfo) : Prop := i = GmshManager.default_info.

(** The file was loaded; the unit is unknown without a bounding box and
    read off the bounding box otherwise. *)
Definition measured (i : ModelInfo) : Prop :=
  valid i = true /\
  ((bounding_box i = None /\ estimated_unit i = "UNKNOWN") \/
   exists b, bounding_box i = Some (GmshManager.box_of b) /\
             estimated_unit i
             = GmshManager.estimate_unit (GmshManager.max_dim_of b)).

Definition blank_or_measured (i : ModelInfo) : Prop := blank i \/ measured i.

(** The engine rejects every file. *)
Definition rejects_files (g : Gmsh) : Prop :=
  forall h p, (exists e, on_importShapes g h p = Raise e) /\
              (exists e, on_merge g h p = Raise e).

(** What the loop of [get_model_info] makes of the names, one by one. *)
Definition absorb (acc names : list string) : list string :=
  fold_left
    (fun acc n => if Py.truthy n && negb (Py.mem n acc) then acc ++ [n] else acc)
    names acc.

(** The conditions under which the healing options are set. *)
Definition healing_applies_to (healing : bool) (input_path : Path) : Prop :=
  healing = true /\
  GmshManager.is_brep_ext (Py.lower (suffix input_path)) = true.

(** The history [h] extends [h0], and if the option [k] is set by the
    calls added, healing applies. *)
Definition accounted_from (k : string) (h0 : history) (healing : bool)
    (input_path : Path) (h : history) : Prop :=
  exists added, h = added ++ h0 /\
                (sets_option k added -> healing_applies_to healing input_path).

(** A property of [self] alone. *)
Definition about_self (P : Operator -> Prop) : LADDER_OT_import_cad.St -> Prop :=
  fun s => P (fst s).

(** Unless it returns "OK", the computation keeps [P]. *)
Definition keeps_unless_ok (P : Operator -> Prop)
    (m : M LADDER_OT_import_cad.St string) : Prop :=
  forall s, about_self P s ->
            fst (m s) = Ok "OK" \/ about_self P (snd (m s)).

(** ** The entry points: installation, drag-and-drop and [execute] *)

(** *** Strings *)

Module Str.

  (** [s.split(sep)] for a separator of one character. *)
Fixpoint split (sep : ascii) (s : string) : list string :=
    match s with
    | EmptyString => [EmptyString]
    | String c r =>
        if Ascii.eqb c sep then EmptyString :: split sep r
        else
          match split sep r with
          | w :: ws => String c w :: ws
          | [] => [String c EmptyString]
          end
    end.

  (** [sep.join(l)] *)
Fixpoint join (sep : string) (l : list string) : string :=
    match l with
    | [] => EmptyString
    | x :: r =>
        match r with
        | [] => x
        | _ :: _ => x +:+ sep +:+ join sep r
        end
    end.

  (** The character [c] occurs in [s]. *)
Fixpoint has (c : ascii) (s : string) : bool :=
    match s with
    | EmptyString => false
    | String c' r => Ascii.eqb c' c || has c r
    end.

End Str.

(** *** Installing the engine *)

(** What [subprocess.run([python, "-m", "pip", "install", "gmsh"], ...)]
    comes to. *)
Inductive PipRun : Type :=
| Completed (returncode : Z) (stdout stderr : string)
| TimeoutExpired
| PipError (e : string).

Module GmshInstall.

  (** [GmshManager.install], with the outcome [pip] of the subprocess and
      the engine [g] as it is after the run. *)
Definition install (pip : PipRun) (g : Gmsh) (w : World)
      : (bool * string) * World :=
    let w := add_logged "INFO" "Installing gmsh via pip..." w in
    match pip with
    | Completed returncode stdout stderr =>
        if (returncode =? 0)%Z then
          let e := GmshManager.reset_cache (engine w) in
          let (available, e) := GmshManager.is_available g e in
          if available
          then ((true, "gmsh installed successfully"), set_engine e w)
          else ((false, "gmsh installed but cannot be imported"), set_engine e w)
        else
          let error_msg :=
            if Py.truthy stderr then stderr
            else if Py.truthy stdout then stdout else "Unknown error" in
          ((false, "pip install failed: " +:+ error_msg), w)
    | TimeoutExpired => ((false, "Installation timed out"), w)
    | PipError e => ((false, "Installation error: " +:+ e), w)
    end.

End GmshInstall.

Module LADDER_OT_install_gmsh.

  (** [execute]; the redraw tags it sets on the areas after a success are
      not followed. *)
Definition execute (pip : PipRun) (g : Gmsh) (w : World) : Status * World :=
    let w := add_report "INFO" "Installing gmsh... This may take a moment." w in
    let '((success, message), w) := GmshInstall.install pip g w in
    if success then (FINISHED, add_report "INFO" message w)
    else (CANCELLED, add_report "ERROR" message w).

End LADDER_OT_install_gmsh.

(** *** What the entry points read *)

(** Mesh quality presets: (min, max) element sizes. *)
Definition MESH_QUALITY_PRESETS : gmap string (Q * Q) :=
  list_to_map
    [ ("VERY_COARSE", (1 # 1, 50 # 1));
      ("COARSE", (1 # 2, 20 # 1));
      ("NORMAL", (1 # 10, 10 # 1));
      ("FINE", (5 # 100, 5 # 1));
      ("VERY_FINE", (1 # 100, 1 # 1)) ]%Q.

(** [pathlib], [os.path] and [bpy.data.collections.new], as the entry
    points use them. *)
Record Surroundings : Type := {
  to_path : string -> Path;                (* Path(p) *)
  join_path : string -> string -> Path;    (* Path(directory) / name *)
  path_exists : Path -> bool;              (* f.exists() *)
  dirname : string -> string;              (* os.path.dirname *)
  basename : string -> string;             (* os.path.basename *)
  collections_new : Scene -> string -> nat (* the collection created *)
}.

(** The add-on preferences that [execute] writes. *)
Record Preferences : Type := {
  last_import_directory : string
}.

(** The operator properties that only the entry points read. *)
Module Props.
Record t : Type := {
  directory : string;
  files : list string;        (* the [name] of each element of [self.files] *)
  filepath : string;
  drop_paths : string;
  mesh_quality : string;      (* the identifier of the enum item *)
  mesh_size_min : Q;
  mesh_size_max : Q;
  import_to_collection : bool;
  collection_name : string
}.
End Props.

Definition set_files_to_process (l : list Path) (o : Operator) : Operator :=
  {| mesh_algorithm := mesh_algorithm o; optimize_mesh := optimize_mesh o;
     healing := healing o; source_unit := source_unit o;
     global_scale := global_scale o; use_part_names := use_part_names o;
     smooth_shading := smooth_shading o; recalc_normals := recalc_normals o;
     merge_distance := merge_distance o; apply_transform := apply_transform o;
     set_origin := set_origin o;
     _timer := _timer o; _files_to_process := l;
     _current_index := _current_index o; _temp_files := _temp_files o;
     _all_imported_objects := _all_imported_objects o;
     _mesh_min := _mesh_min o; _mesh_max := _mesh_max o;
     _target_collection := _target_collection o |}.

Definition set_mesh_bounds (b : Q * Q) (o : Operator) : Operator :=
  {| mesh_algorithm := mesh_algorithm o; optimize_mesh := optimize_mesh o;
     healing := healing o; source_unit := source_unit o;
     global_scale := global_scale o; use_part_names := use_part_names o;
     smooth_shading := smooth_shading o; recalc_normals := recalc_normals o;
     merge_distance := merge_distance o; apply_transform := apply_transform o;
     set_origin := set_origin o;
     _timer := _timer o; _files_to_process := _files_to_process o;
     _current_index := _current_index o; _temp_files := _temp_files o;
     _all_imported_objects := _all_imported_objects o;
     _mesh_min := fst b; _mesh_max := snd b;
     _target_collection := _target_collection o |}.

Definition set_target_collection (c : option nat) (o : Operator) : Operator :=
  {| mesh_algorithm := mesh_algorithm o; optimize_mesh := optimize_mesh o;
     healing := healing o; source_unit := source_unit o;
     global_scale := global_scale o; use_part_names := use_part_names o;
     smooth_shading := smooth_shading o; recalc_normals := recalc_normals o;
     merge_distance := merge_distance o; apply_transform := apply_transform o;
     set_origin := set_origin o;
     _timer := _timer o; _files_to_process := _files_to_process o;
     _current_index := _current_index o; _temp_files := _temp_files o;
     _all_imported_objects := _all_imported_objects o;
     _mesh_min := _mesh_min o; _mesh_max := _mesh_max o;
     _target_collection := c |}.

(** *** Drag-and-drop *)

Module LADDER_FH_cad.

  (** [Path(p).suffix.lower() in SUPPORTED_EXTENSIONS] *)
Definition supported (p : Path) : bool :=
    Py.mem (Py.lower (suffix p)) SUPPORTED_EXTENSIONS.

  (** The keyword arguments with which [files_drop] invokes the import
      operator. *)
Record Invocation : Type := {
  inv_directory : string;
  inv_files : list string;
  inv_drop_paths : string
}.

  (** [files_drop]: [None] is the return of CANCELLED, [Some] the
      invocation of the import operator. *)
Definition files_drop (x : Surroundings) (paths : list string)
      : option Invocation :=
    match paths with
    | [] => None
    | _ :: _ =>
        let valid_paths :=
          List.filter (fun p => supported (to_path x p)) paths in
        match valid_paths with
        | [] => None
        | first :: _ =>
            Some {| inv_directory := dirname x first;
                    inv_files := map (basename x) valid_paths;
                    inv_drop_paths := Str.join ";" valid_paths |}
        end
    end.

End LADDER_FH_cad.

(** *** [LADDER_OT_import_cad.execute] *)

Module Execute.

Import LADDER_OT_import_cad.
Local Open Scope py_scope.

  (** The state [execute] works on: the preferences, [self] and the
      world. *)
Definition ESt : Type := (Preferences * St)%type.

Definition here {A} (m : M St A) : M ESt A :=
    fun s => let (r, s') := m (snd s) in (r, (fst s, s')).

Definition set_last_import_directory (d : string) : M ESt unit :=
    modify (fun s => ({| last_import_directory := d |}, snd s)).

  (** "Gather files": what [_files_to_process] is before the existence
      filter. *)
Definition gather_files (x : Surroundings) (props : Props.t) : list Path :=
    if Py.truthy (Props.drop_paths props) then
      map (to_path x)
          (List.filter
             (fun p => Py.truthy p && LADDER_FH_cad.supported (to_path x p))
             (Str.split ";" (Props.drop_paths props)))
    else if negb (Nat.eqb (length (Props.files props)) 0)
            && existsb Py.truthy (Props.files props) then
      map (join_path x (Props.directory props))
          (List.filter
             (fun n => Py.truthy n
                       && LADDER_FH_cad.supported
                            (join_path x (Props.directory props) n))
             (Props.files props))
    else if Py.truthy (Props.filepath props) then
      [to_path x (Props.filepath props)]
    else [].

  (** The name of the target collection. *)
Definition coll_name (props : Props.t) (files : list Path) (first : Path)
      : string :=
    let n :=
      if Py.truthy (Props.collection_name props)
      then Props.collection_name props else stem first in
    if (1 <? length files)%nat && negb (Py.truthy (Props.collection_name props))
    then "CAD Import" else n.

  (** [execute].  [_start_time] is not kept: the elapsed time of the
      summary is the host's. *)
Definition execute (h : Host) (x : Surroundings) (props : Props.t)
      : M ESt Status :=
    available <- here (on_engine (GmshManager.is_available (gmsh h))) ;;
    if negb available then
      here (report "ERROR"
              "gmsh is not installed. Click 'Install gmsh' in addon preferences.") ;;
      ret CANCELLED
    else
      (if Py.truthy (Props.directory props)
       then set_last_import_directory (Props.directory props) else ret tt) ;;
      here (set_self (set_files_to_process (gather_files x props))) ;;
      here (set_self (fun o =>
        set_files_to_process
          (List.filter (path_exists x) (_files_to_process o)) o)) ;;
      o <- here self ;;
      match _files_to_process o with
      | [] =>
          here (report "ERROR" "No valid CAD files selected") ;;
          ret CANCELLED
      | first :: _ =>
          (if String.eqb (Props.mesh_quality props) "CUSTOM" then
             here (set_self (set_mesh_bounds
                               (Props.mesh_size_min props,
                                Props.mesh_size_max props)))
           else
             match MESH_QUALITY_PRESETS !! "NORMAL" with
             | None => fun s => (Raise "KeyError: 'NORMAL'", s)
             | Some normal =>
                 here (set_self (set_mesh_bounds
                   (default normal
                      (MESH_QUALITY_PRESETS !! Props.mesh_quality props))))
             end) ;;
          here (set_self (set_target_collection None)) ;;
          (if Props.import_to_collection props then
             w <- here world ;;
             let c := collections_new x (scene w)
                        (coll_name props (_files_to_process o) first) in
             here (in_scene (fun sc =>
               set_collections (collections sc ++ [c]) sc)) ;;
             here (set_self (set_target_collection (Some c)))
           else ret tt) ;;
          here (set_self (set_current_index 0)) ;;
          here (set_self (set_temp_files [])) ;;
          here (set_self (set_all_imported_objects [])) ;;
          here (in_world (fun w =>
            set_import_progress
              (Progress.start (Z.of_nat (length (_files_to_process o)))
                 (import_progress w)) w)) ;;
          (* wm.progress_begin(0, 100): the indicator is shown at its
             minimum *)
          here (in_world (set_wm_progress (Some 0%Q))) ;;
          (* wm.event_timer_add and wm.modal_handler_add *)
          here (set_self (set_timer (Some tt))) ;;
          ret RUNNING_MODAL
      end.


End Execute.

(** *** Sample surroundings *)

Module Samples.

  (** The part of a name from its last dot on, when there is one. *)
Fixpoint suffix_of (s : string) : string :=
    match s with
    | EmptyString => EmptyString
    | String c r =>
        if Str.has "." r then suffix_of r
        else if Ascii.eqb c "." then s else EmptyString
    end.

Definition plain_path (p : string) : Path :=
    {| path_str := p; name := p; stem := p; suffix := suffix_of p |}.

  (** Every path but [missing] exists. *)
Definition surroundings (missing : string) : Surroundings :=
    {| to_path := plain_path;
       join_path := fun d n => plain_path (d +:+ "/" +:+ n);
       path_exists := fun p => negb (String.eqb (path_str p) missing);
       dirname := fun p => p;
       basename := fun p => p;
       collections_new := fun sc _ => length (collections sc) |}.

Definition props_for (dropped picked : string) (quality : string) : Props.t :=
    {| Props.directory := "/cad";
       Props.files := [];
       Props.filepath := picked;
       Props.drop_paths := dropped;
       Props.mesh_quality := quality;
       Props.mesh_size_min := 1 # 10;
       Props.mesh_size_max := 10;
       Props.import_to_collection := true;
       Props.collection_name := "" |}.

Definition idle_operator : Operator :=
    {| mesh_algorithm := 2; optimize_mesh := false; healing := false;
       source_unit := MILLIMETERS; global_scale := x1; use_part_names := false;
       smooth_shading := false; recalc_normals := false; merge_distance := 0;
       apply_transform := false; set_origin := NONE;
       _timer := None; _files_to_process := []; _current_index := 0;
       _temp_files := []; _all_imported_objects := [];
       _mesh_min := 1 # 10; _mesh_max := 10; _target_collection := None |}.

Definition idle_world : World :=
    {| engine := Demo.fresh_engine; scene := Demo.empty_scene;
       import_progress := Progress.init;
       reports := []; logged := []; status_text := None; wm_progress := None |}.

Definition idle : Execute.ESt :=
    ({| last_import_directory := "" |}, (idle_operator, idle_world)).



End Samples.

(** ** Further predicates used in the proofs *)

(** [lands P m Q]: from a state in [P], if [m] returns [a] it does so in
    a state in [Q a]. *)
Definition lands {S A} (P : S -> Prop) (m : M S A) (Q : A -> S -> Prop)
    : Prop :=
  forall s, P s -> forall a, fst (m s) = Ok a -> Q a (snd (m s)).

(** A property of the engine state and the local state that no engine
    call, no change of the local state, no [gmsh.write] can undo. *)
Definition call_stable {L} (P : Engine * L -> Prop) : Prop :=
  forall c s, P s -> P (log_call c (fst s), snd s).

Definition local_stable {L} (P : Engine * L -> Prop) : Prop :=
  forall l s, P s -> P (fst s, l).

Definition write_stable {L} (P : Engine * L -> Prop) : Prop :=
  forall c fs s, P s -> P (set_files fs (log_call c (fst s)), snd s).

(** The most recent call of a history. *)
Definition last_call_is (c : GmshCall) (h : history) : Prop :=
  exists earlier, h = c :: earlier.

(** The history [h] is [h0] followed by new calls, the first of which is
    [gmsh.initialize()]. *)
Definition opened_from (h0 h : history) : Prop :=
  exists added, h = added ++ Initialize :: h0.

(** The history [h] is [h0] followed by new calls, among them [c]. *)
Definition called_since (h0 : history) (c : GmshCall) (h : history) : Prop :=
  exists added, h = added ++ h0 /\ In c added.

(** The messages with which [convert_to_stl] fails start in one of these
    ways, the engine's own text following. *)
Definition failure_prefixes : list string :=
  ["Failed to import CAD file: "; "Failed to generate mesh: ";
   "Failed to write STL: "; "Conversion error: "].

Definition failure_message (msg : string) : Prop :=
  msg = "gmsh is not installed" \/
  exists prefix err, In prefix failure_prefixes /\ msg = prefix +:+ err.

(** The two shapes of a conversion result. *)
Definition result_shape (r : GmshManager.ConversionResult) : Prop :=
  (r.1.1 = true /\ r.1.2 = "Conversion successful") \/
  (r.1.1 = false /\ r.2 = [] /\ failure_message r.1.2).

(** The number of entities of dimension [d]. *)
Definition entities_of_dim (d : Z) (ents : list (Z * Z)) : Z :=
  Z.of_nat (length (filter (fun dt => dt.1 = d) ents)).

(** What a conversion that returned has done since the history [h0]. *)
Definition converted (h0 : history) (output_path : string)
    (r : GmshManager.ConversionResult) (s : Engine * list string) : Prop :=
  last_call_is Finalize (calls (fst s)) /\
  result_shape r /\
  (r.1.1 = false \/
   (called_since h0 (Generate 2) (calls (fst s)) /\
    called_since h0 (WriteFile output_path) (calls (fst s)) /\
    r.2 = snd s)).

(** The counts of the dictionary are those of the entity list [ents]. *)
Definition tallied (ents : list (Z * Z)) (i : ModelInfo) : Prop :=
  entities i = Z.of_nat (length ents) /\
  points i = entities_of_dim 0 ents /\
  curves i = entities_of_dim 1 ents /\
  surfaces i = entities_of_dim 2 ents /\
  volumes i = entities_of_dim 3 ents.

(** The dictionary [i] with other part names. *)
Definition with_part_names (l : list string) (i : ModelInfo) : ModelInfo :=
  {| valid := valid i; entities := entities i; volumes := volumes i;
     surfaces := surfaces i; curves := curves i; points := points i;
     bounding_box := bounding_box i; estimated_unit := estimated_unit i;
     part_names := l |}.

(** The dictionary of a model with the entities [ents], the bounding box
    [b] and the names [names]. *)
Definition info_of (ents : list (Z * Z)) (b : BBox) (names : list string)
    : ModelInfo :=
  {| valid := true;
     entities := Z.of_nat (length ents);
     volumes := entities_of_dim 3 ents;
     surfaces := entities_of_dim 2 ents;
     curves := entities_of_dim 1 ents;
     points := entities_of_dim 0 ents;
     bounding_box :=
       match ents with [] => None | _ :: _ => Some (GmshManager.box_of b) end;
     estimated_unit :=
       match ents with
       | [] => "UNKNOWN"
       | _ :: _ => GmshManager.estimate_unit (GmshManager.max_dim_of b)
       end;
     part_names := first_appearances (named names) |}.

(** The call that loads the file [p]: a shape import for the six
    boundary-representation suffixes, a merge otherwise. *)
Definition load_call (p : Path) : GmshCall :=
  if GmshManager.is_brep_ext (Py.lower (suffix p))
  then ImportShapes (path_str p) else Merge (path_str p).

(** The engine starts a session without failing. *)
Definition opens (g : Gmsh) : Prop :=
  (forall h, on_initialize g h = Ok tt) /\
  (forall h k v, on_setNumber g h k v = Ok tt) /\
  (forall h n, on_model_add g h n = Ok tt).

(** The identities of the objects of a scene. *)
Definition ids (sc : Scene) : list nat := map obj_id (objects sc).

(** The scene [sc] is [sc0] with objects added at the end and operators
    run: the objects of [sc0] are as they were, and so are the
    collections and the 3D cursor. *)
Definition grown (sc0 sc : Scene) : Prop :=
  (exists added, objects sc = (objects sc0 ++ added)%list) /\
  collections sc = collections sc0 /\
  cursor_location sc = cursor_location sc0 /\
  (exists l, ops sc = (ops sc0 ++ l)%list).

(** Nothing has happened yet to the scene [sc0] and to the list [imp0] of
    imported objects. *)
Definition untouched (sc0 : Scene) (imp0 : list nat)
    (s : LADDER_OT_import_cad.St) : Prop :=
  scene (snd s) = sc0 /\ _all_imported_objects (fst s) = imp0.

(** The importer has added the objects [created] and nothing else. *)
Definition delivered (sc0 : Scene) (imp0 : list nat)
    (s : LADDER_OT_import_cad.St) : Prop :=
  _all_imported_objects (fst s) = imp0 /\
  exists created,
    scene (snd s) = set_objects (objects sc0 ++ created) sc0.

(** The scene has grown and the objects [new] were adopted: they are
    objects of the scene that were not in [sc0]. *)
Definition adopted (sc0 : Scene) (imp0 new : list nat)
    (s : LADDER_OT_import_cad.St) : Prop :=
  grown sc0 (scene (snd s)) /\
  _all_imported_objects (fst s) = (imp0 ++ new)%list /\
  forall x, In x new -> ~ In x (ids sc0) /\ In x (ids (scene (snd s))).

(** [ends P m Q]: from a state in [P], the outcome of [m], returned or
    raised, and the state it leaves are in [Q]. *)
Definition ends {S A} (P : S -> Prop) (m : M S A)
    (Q : result A -> S -> Prop) : Prop :=
  forall s, P s -> Q (fst (m s)) (snd (m s)).

(** The outcome of processing one file: the objects [new] were adopted,
    and the file is reported 'OK' exactly when there is one. *)
Definition file_outcome (sc0 : Scene) (imp0 : list nat)
    (r : result string) (s : LADDER_OT_import_cad.St) : Prop :=
  exists new, adopted sc0 imp0 new s /\ (r = Ok "OK" <-> new <> []).



(** The subprocess returned with code 0. *)
Definition pip_succeeded (pip : PipRun) : Prop :=
  exists stdout stderr, pip = Completed 0 stdout stderr.

(** The reports and the log are [r0] and [l0]. *)
Definition quiet (r0 l0 : list (string * string))
    (s : LADDER_OT_import_cad.St) : Prop :=
  reports (snd s) = r0 /\ logged (snd s) = l0.

(** One error was logged on top of [l0], and at most one report, a
    warning, was added to [r0]. *)
Definition complained (r0 l0 : list (string * string))
    (s : LADDER_OT_import_cad.St) : Prop :=
  (exists msg, logged (snd s) = (l0 ++ [("ERROR", msg)])%list) /\
  (reports (snd s) = r0 \/
   exists msg, reports (snd s) = (r0 ++ [("WARNING", msg)])%list).

(** What one file adds to the reports and to the log. *)
Definition told (r0 l0 : list (string * string)) (r : result string)
    (s : LADDER_OT_import_cad.St) : Prop :=
  quiet r0 l0 s \/ (r = Ok "ERROR" /\ complained r0 l0 s).

(** The engine state after the calls [l], the most recent first. *)
Definition logged_calls (l : list GmshCall) (e : Engine) : Engine :=
  {| _gmsh_available := _gmsh_available e; calls := (l ++ calls e)%list;
     files := files e |}.

(** An engine on which a conversion goes through: it loads the file,
    lists the entities [ents], names each entity [nm dim tag], meshes,
    writes and closes the session. *)
Definition converts (g : Gmsh) (ents : list (Z * Z)) (nm : Z -> Z -> string)
    : Prop :=
  (forall h, on_initialize g h = Ok tt) /\
  (forall h k v, on_setNumber g h k v = Ok tt) /\
  (forall h n, on_model_add g h n = Ok tt) /\
  (forall h p, on_importShapes g h p = Ok tt) /\
  (forall h, on_synchronize g h = Ok tt) /\
  (forall h p, on_merge g h p = Ok tt) /\
  (forall h, on_getEntities g h = Ok ents) /\
  (forall h dim tag, on_getEntityName g h dim tag = Ok (nm dim tag)) /\
  (forall h dim, on_generate g h dim = Ok tt) /\
  (forall h p, on_write g h p = Ok tt) /\
  (forall h, on_finalize g h = Ok tt).

(** The calls of a conversion, the most recent first: loading ... *)
Definition load_calls (healing : bool) (p : Path) : list GmshCall :=
  if GmshManager.is_brep_ext (Py.lower (suffix p)) then
    Synchronize :: ImportShapes (path_str p) ::
    (if healing
     then [SetNumber "Geometry.OCCSewFaces" 1;
           SetNumber "Geometry.OCCFixSmallFaces" 1;
           SetNumber "Geometry.OCCFixSmallEdges" 1;
           SetNumber "Geometry.OCCFixDegenerated" 1]
     else [])
  else [Merge (path_str p)].

(** ... reading the names ... *)
Definition name_calls (ents : list (Z * Z)) : list GmshCall :=
  rev (map (fun dt => GetEntityName dt.1 dt.2) ents).

(** ... and setting the mesh options. *)
Definition mesh_calls (mesh_size_min mesh_size_max : Q) (mesh_algorithm : Z)
    (optimize_mesh : bool) : list GmshCall :=
  ((if optimize_mesh
    then [SetNumber "Mesh.OptimizeNetgen" 1; SetNumber "Mesh.Optimize" 1]
    else []) ++
   [SetNumber "Mesh.Algorithm" (inject_Z mesh_algorithm);
    SetNumber "Mesh.CharacteristicLengthMax" mesh_size_max;
    SetNumber "Mesh.CharacteristicLengthMin" mesh_size_min])%list.

(** All the calls of a conversion up to the mesh generation. *)
Definition conversion_calls (input_path : Path)
    (mesh_size_min mesh_size_max : Q) (mesh_algorithm : Z)
    (optimize_mesh healing : bool) (ents : list (Z * Z)) : list GmshCall :=
  (Generate 2 ::
   mesh_calls mesh_size_min mesh_size_max mesh_algorithm optimize_mesh ++
   name_calls ents ++ GetEntities :: load_calls healing input_path ++
   [ModelAdd "cad_import"; SetNumber "General.Terminal" 0; Initialize])%list.

(** * Properties *)

(** ** ImportProgress *)

Lemma base_percent_mono (t i j : Z) :
  0 < t -> i <= j ->
  (inject_Z i / inject_Z t * 100 <= inject_Z j / inject_Z t * 100)%Q.
Proof.
  intros Ht Hij.
  apply Qmult_le_compat_r; [|discriminate].
  apply Qmult_le_compat_r.
  - rewrite <- Zle_Qle. exact Hij.
  - apply Qinv_le_0_compat. replace 0%Q with (inject_Z 0) by reflexivity.
    rewrite <- Zle_Qle. lia.
Qed.

Lemma progress_percent_le_100 (p : ImportProgress) :
  (Progress.progress_percent p <= 100)%Q.
Proof.
  unfold Progress.progress_percent.
  destruct (total_files p =? 0)%Z; [discriminate|].
  cbv zeta. apply Q.le_min_r.
Qed.

Lemma progress_percent_mono (p : ImportProgress) (i j : Z) :
  0 <= total_files p -> i <= j ->
  (Progress.progress_percent
     (Progress.update i (current_filename p) (phase p) p)
   <= Progress.progress_percent
        (Progress.update j (current_filename p) (phase p) p))%Q.
Proof.
  intros Ht Hij. unfold Progress.progress_percent. cbn [Progress.update total_files current_file phase].
  destruct (total_files p =? 0)%Z eqn:E; [apply Qle_refl|].
  apply Z.eqb_neq in E.
  assert (Hb := base_percent_mono (total_files p) i j ltac:(lia) Hij).
  cbv zeta. apply Q.min_le_compat_r.
  destruct (String.eqb (phase p) "converting"); [|exact Hb].
  apply Qplus_le_compat; [exact Hb|apply Qle_refl].
Qed.

(** C5: [progress_percent] is 0 when the total is 0; otherwise it is
    [(current_file / total_files) * 100], plus [(0.5 / total_files) * 100]
    exactly while the phase is "converting", capped at 100.  It never
    exceeds 100, it does not decrease when the index grows (the total, a
    count of files, and the phase being fixed), and with 2 files, index 0
    and the phase "converting" it lies strictly between 0 and 50. *)
Theorem progress_percent_correct (p : ImportProgress) :
  (total_files p = 0 -> Progress.progress_percent p = 0%Q) /\
  (total_files p <> 0 ->
   (Progress.progress_percent p == Progress.percent_spec p)%Q) /\
  (Progress.progress_percent p <= 100)%Q /\
  (forall i j, 0 <= total_files p -> i <= j ->
     (Progress.progress_percent
        (Progress.update i (current_filename p) (phase p) p)
      <= Progress.progress_percent
           (Progress.update j (current_filename p) (phase p) p))%Q) /\
  (total_files p = 2 -> current_file p = 0 -> phase p = "converting" ->
   (0 < Progress.progress_percent p)%Q /\ (Progress.progress_percent p < 50)%Q).
Proof.
  repeat split.
  - intros H. unfold Progress.progress_percent. rewrite H. reflexivity.
  - intros H. unfold Progress.progress_percent, Progress.percent_spec.
    apply Z.eqb_neq in H. rewrite H. cbv zeta.
    destruct (String.eqb (phase p) "converting"); [reflexivity|].
    rewrite Qplus_0_r. reflexivity.
  - apply progress_percent_le_100.
  - intros i j. apply progress_percent_mono.
  - unfold Progress.progress_percent. rewrite H, H0, H1. reflexivity.
  - unfold Progress.progress_percent. rewrite H, H0, H1. reflexivity.
Qed.

Lemma progress_percent_correct_witness :
  Progress.progress_percent (Progress.start 0 Progress.init) = 0%Q /\
  (Progress.progress_percent Demo.running_progress
   == Progress.percent_spec Demo.running_progress)%Q /\
  (Progress.progress_percent
     (Progress.update 1 "model.step" "converting" Demo.running_progress)
   <= Progress.progress_percent
        (Progress.update 2 "model.step" "converting" Demo.running_progress))%Q /\
  (0 < Progress.progress_percent
         (Progress.update 0 "test.step" "converting"
            (Progress.start 2 Progress.init)))%Q.
Proof.
  split; [|split; [|split]].
  - apply (progress_percent_correct (Progress.start 0 Progress.init)).
    reflexivity.
  - apply (progress_percent_correct Demo.running_progress). discriminate.
  - apply (proj1 (proj2 (proj2 (proj2
             (progress_percent_correct Demo.running_progress)))) 1 2).
    + vm_compute. discriminate.
    + lia.
  - apply (progress_percent_correct
             (Progress.update 0 "test.step" "converting"
                (Progress.start 2 Progress.init))); reflexivity.
Defined.

(** ** The status line *)

Lemma status_text_idle (p : ImportProgress) :
  is_running p = false -> Progress.status_text p = "".
Proof. intros H. unfold Progress.status_text. rewrite H. reflexivity. Qed.

Lemma status_text_prefix (p : ImportProgress) :
  is_running p = true ->
  Progress.status_text p = "Ladder: " +:+ Progress.status_text_spec p.
Proof.
  intros H. unfold Progress.status_text, Progress.status_text_spec.
  rewrite H. reflexivity.
Qed.

(** C7, as the specification has it, fails: the status line of a running
    import is not "{phase label} {name} ({index+1}/{total})"; after
    [start(3)] and [update(1, "model.step", "converting")] it reads
    "Ladder: Converting model.step (2/3)". *)
Lemma status_text_is_not_bare_label :
  is_running Demo.running_progress = true /\
  Progress.status_text Demo.running_progress
  = "Ladder: Converting model.step (2/3)" /\
  Progress.status_text Demo.running_progress
  <> Progress.status_text_spec Demo.running_progress.
Proof. repeat split. discriminate. Qed.

(** C7, amended: [status_text] is empty whenever the progress object is
    not running; when running it is "Ladder: " followed by
    "{phase label} {name} ({current_file+1}/{total_files})", the label
    being "Converting" for the phase "converting" and "Importing"
    otherwise; after [start(3)] and [update(1, "model.step",
    "converting")] it contains "Converting", "model.step" and "2/3". *)
Theorem status_text_correct (p : ImportProgress) :
  (is_running p = false -> Progress.status_text p = "") /\
  (is_running p = true ->
   Progress.status_text p =
   "Ladder: " +:+
   (if String.eqb (phase p) "converting" then "Converting" else "Importing")
   +:+ " " +:+ current_filename p +:+ " (" +:+ Py.str (current_file p + 1)
   +:+ "/" +:+ Py.str (total_files p) +:+ ")") /\
  (p = Demo.running_progress ->
   Py.contains "Converting" (Progress.status_text p) = true /\
   Py.contains "model.step" (Progress.status_text p) = true /\
   Py.contains "2/3" (Progress.status_text p) = true).
Proof.
  split; [apply status_text_idle|split].
  - intros H. unfold Progress.status_text. rewrite H. reflexivity.
  - intros ->. repeat split.
Qed.

Lemma status_text_correct_witness :
  Progress.status_text Progress.init = "" /\
  Progress.status_text Demo.running_progress
  = "Ladder: Converting model.step (2/3)" /\
  Py.contains "2/3" (Progress.status_text Demo.running_progress) = true.
Proof.
  split; [|split].
  - apply (status_text_correct Progress.init). reflexivity.
  - apply (proj1 (proj2 (status_text_correct Demo.running_progress))).
    reflexivity.
  - apply (proj2 (proj2 (status_text_correct Demo.running_progress))).
    reflexivity.
Defined.

(** ** Reasoning about the state monad *)

Section Moves.
Context {S : Type}.

Lemma moves_ret {A} (a : A) (P : S -> Prop) : moves P (ret a) P.
Proof. intros s H. exact H. Qed.

Lemma moves_bind {A B} (P R Q : S -> Prop) (m : M S A) (k : A -> M S B) :
  moves P m R -> (forall s, R s -> Q s) -> (forall a, moves R (k a) Q) ->
  moves P (bind m k) Q.
Proof.
  intros Hm HRQ Hk s HP. specialize (Hm s HP). unfold bind.
  destruct (m s) as [[a|e] s']; cbn in *.
  - apply Hk, Hm.
  - apply HRQ, Hm.
Qed.

Lemma moves_try_except {A} (P R Q : S -> Prop) (m : M S A)
    (handler : string -> M S A) :
  moves P m R -> (forall s, R s -> Q s) -> (forall e, moves R (handler e) Q) ->
  moves P (try_except m handler) Q.
Proof.
  intros Hm HRQ Hh s HP. specialize (Hm s HP). unfold try_except.
  destruct (m s) as [[a|e] s']; cbn in *.
  - apply HRQ, Hm.
  - apply Hh, Hm.
Qed.

Lemma moves_modify (P Q : S -> Prop) (f : S -> S) :
  (forall s, P s -> Q (f s)) -> moves P (modify f) Q.
Proof. intros H s HP. apply H, HP. Qed.

Lemma moves_weaken {A} (P P' Q Q' : S -> Prop) (m : M S A) :
  moves P m Q -> (forall s, P' s -> P s) -> (forall s, Q s -> Q' s) ->
  moves P' m Q'.
Proof. intros Hm HP HQ s H. apply HQ, Hm, HP, H. Qed.

Lemma keeps_bind {A B} (P : S -> Prop) (m : M S A) (k : A -> M S B) :
  keeps P m -> (forall a, keeps P (k a)) -> keeps P (bind m k).
Proof. intros Hm Hk. apply (moves_bind P P P); auto. Qed.

Lemma keeps_try_except {A} (P : S -> Prop) (m : M S A)
    (handler : string -> M S A) :
  keeps P m -> (forall e, keeps P (handler e)) -> keeps P (try_except m handler).
Proof. intros Hm Hh. apply (moves_try_except P P P); auto. Qed.

Lemma keeps_try_pass (P : S -> Prop) (m : M S unit) :
  keeps P m -> keeps P (try_pass m).
Proof. intros Hm. apply keeps_try_except; [exact Hm|]. intros e. apply moves_ret. Qed.

Lemma keeps_ret {A} (a : A) (P : S -> Prop) : keeps P (ret a).
Proof. apply moves_ret. Qed.

Lemma keeps_if {A} (P : S -> Prop) (b : bool) (m1 m2 : M S A) :
  keeps P m1 -> keeps P m2 -> keeps P (if b then m1 else m2).
Proof. destruct b; auto. Qed.

Lemma try_return_state {A} (P R Q : S -> Prop) (m : M S A)
    (handler : string -> S -> A * S) (s : S) :
  moves P m R -> (forall s, R s -> Q s) ->
  (forall e s, R s -> Q (snd (handler e s))) ->
  P s -> Q (snd (try_return m handler s)).
Proof.
  intros Hm HRQ Hh HP. specialize (Hm s HP). unfold try_return.
  destruct (m s) as [[a|e] s']; cbn in *; auto.
Qed.

End Moves.

(** Engine calls leave the caller's local state alone, and add one call
    to the history. *)

Section EngineFrames.
Context {L : Type}.

Lemma call_keeps_local {A} (Q : L -> Prop) (c : GmshCall)
    (answer : history -> result A) :
  keeps (about_local (L := L) Q) (GmshManager.call c answer).
Proof. intros s H. exact H. Qed.

Lemma write_keeps_local (Q : L -> Prop) (g : Gmsh) (p : string) :
  keeps (about_local (L := L) Q) (GmshManager.write g p).
Proof. intros s H. exact H. Qed.

Lemma local_moves (P Q : L -> Prop) (f : L -> L) :
  (forall l, P l -> Q (f l)) ->
  moves (about_local (L := L) P) (GmshManager.local f) (about_local (L := L) Q).
Proof. intros H s HP. apply H, HP. Qed.

Lemma read_local_keeps (P : Engine * L -> Prop) :
  keeps P GmshManager.read_local.
Proof. intros s H. exact H. Qed.

Lemma call_keeps_calls {A} (R : history -> Prop) (c : GmshCall)
    (answer : history -> result A) :
  (forall h, R h -> R (c :: h)) ->
  keeps (about_calls (L := L) R) (GmshManager.call c answer).
Proof. intros H s HR. apply H, HR. Qed.

Lemma write_keeps_calls (R : history -> Prop) (g : Gmsh) (p : string) :
  (forall h, R h -> R (WriteFile p :: h)) ->
  keeps (about_calls (L := L) R) (GmshManager.write g p).
Proof. intros H s HR. apply H, HR. Qed.

Lemma local_keeps_calls (R : history -> Prop) (f : L -> L) :
  keeps (about_calls (L := L) R) (GmshManager.local f).
Proof. intros s H. exact H. Qed.

End EngineFrames.

(** ** get_model_info *)

Lemma load_file_keeps_local {L} (Q : L -> Prop) (g : Gmsh) (p : Path)
    (before_import : M (Engine * L) unit) :
  keeps (about_local Q) before_import ->
  keeps (about_local Q) (GmshManager.load_file g p before_import).
Proof.
  intros Hb. unfold GmshManager.load_file.
  apply keeps_if.
  - apply keeps_bind; [exact Hb|intros _].
    apply keeps_bind; [apply call_keeps_local|intros _].
    apply call_keeps_local.
  - apply call_keeps_local.
Qed.

Lemma count_entities_frame (ents : list (Z * Z)) (i : ModelInfo) :
  let i' := fold_left GmshManager.count_entity ents i in
  valid i' = valid i /\ bounding_box i' = bounding_box i /\
  estimated_unit i' = estimated_unit i /\ part_names i' = part_names i /\
  entities i' = entities i.
Proof.
  revert i. induction ents as [|[dim tag] ents IH]; intros i; cbn.
  - repeat split.
  - destruct (IH (GmshManager.count_entity i (dim, tag))) as (H1 & H2 & H3 & H4 & H5).
    rewrite H1, H2, H3, H4, H5. unfold GmshManager.count_entity. cbn [fst].
    repeat destruct (_ =? _)%Z; repeat split.
Qed.

Lemma count_entities_measured (ents : list (Z * Z)) (i : ModelInfo) :
  measured i -> measured (fold_left GmshManager.count_entity ents i).
Proof.
  unfold measured.
  destruct (count_entities_frame ents i) as (H1 & H2 & H3 & _).
  rewrite H1, H2, H3. auto.
Qed.

Lemma info_part_names_keeps (Q : ModelInfo -> Prop) (g : Gmsh)
    (ents : list (Z * Z)) :
  (forall n i, Q i -> Q (GmshManager.append_part_name n i)) ->
  keeps (about_local Q) (GmshManager.info_part_names g ents).
Proof.
  intros HQ. induction ents as [|[dim tag] ents IH]; cbn [GmshManager.info_part_names].
  - apply keeps_ret.
  - apply keeps_bind; [apply call_keeps_local|intros n].
    apply keeps_bind; [apply read_local_keeps|intros i].
    apply keeps_bind; [|intros _; exact IH].
    apply keeps_if; [|apply keeps_ret].
    apply local_moves. apply HQ.
Qed.

Lemma measure_box_moves (g : Gmsh) (ents : list (Z * Z)) :
  keeps (about_local measured)
    (match ents with
     | [] => ret tt
     | _ :: _ =>
         bind (GmshManager.getBoundingBox g (-1) (-1)) (fun b =>
         bind (GmshManager.local (GmshManager.set_bounding_box (GmshManager.box_of b))) (fun _ =>
         GmshManager.local
           (GmshManager.set_estimated_unit
              (GmshManager.estimate_unit (GmshManager.max_dim_of b)))))
     end).
Proof.
  destruct ents as [|x ents]; [apply keeps_ret|].
  apply keeps_bind; [apply call_keeps_local|intros b].
  intros s [Hv _]. split; [exact Hv|]. right. exists b. split; reflexivity.
Qed.

Lemma get_model_info_try_moves (g : Gmsh) (p : Path) :
  moves (about_local blank) (GmshManager.get_model_info_try g p)
        (about_local blank_or_measured).
Proof.
  assert (Hleft : forall s : Engine * ModelInfo,
            about_local blank s -> about_local blank_or_measured s)
    by (intros s H; left; exact H).
  assert (Hright : forall s : Engine * ModelInfo,
            about_local measured s -> about_local blank_or_measured s)
    by (intros s H; right; exact H).
  unfold GmshManager.get_model_info_try.
  apply (moves_bind _ (about_local blank)); [apply call_keeps_local|exact Hleft|intros _].
  apply (moves_bind _ (about_local blank)); [apply call_keeps_local|exact Hleft|intros _].
  apply (moves_bind _ (about_local blank)); [apply call_keeps_local|exact Hleft|intros _].
  apply (moves_bind _ (about_local blank)); [|exact Hleft|intros loaded].
  { apply keeps_try_except.
    - apply keeps_bind; [|intros _; apply keeps_ret].
      apply load_file_keeps_local, keeps_ret.
    - intros e. apply keeps_bind; [apply call_keeps_local|intros _; apply keeps_ret]. }
  destruct loaded; cbn [negb].
  2: { eapply moves_weaken; [apply (moves_ret tt (about_local blank))|auto|exact Hleft]. }
  apply (moves_bind _ (about_local measured)); [|exact Hright|intros _].
  { apply local_moves. intros l ->. split; [reflexivity|]. left. split; reflexivity. }
  eapply moves_weaken; [|intros s H; exact H|exact Hright].
  apply keeps_bind; [apply call_keeps_local|intros ents].
  apply keeps_bind; [apply local_moves; intros l H; exact H|intros _].
  apply keeps_bind; [apply local_moves; intros l; apply count_entities_measured|intros _].
  apply keeps_bind; [apply keeps_try_pass, measure_box_moves|intros _].
  apply keeps_bind; [|intros _; apply call_keeps_local].
  apply keeps_try_pass, info_part_names_keeps. intros n i H. exact H.
Qed.

(** Whatever the engine does, the dictionary returned is either the one
    the function starts from or that of a loaded file. *)
Lemma get_model_info_shape (g : Gmsh) (p : Path) (e : Engine) :
  blank_or_measured (fst (GmshManager.get_model_info g p e)).
Proof.
  unfold GmshManager.get_model_info.
  destruct (GmshManager.is_available g e) as [available e'].
  destruct available; cbn [negb]; [|left; reflexivity].
  match goal with |- context [try_return ?m ?hd ?s] => set (r := try_return m hd s) end.
  assert (H : about_local blank_or_measured (snd r)).
  { apply (try_return_state (about_local blank) (about_local blank_or_measured)).
    - apply get_model_info_try_moves.
    - auto.
    - intros _ s Hs.
      apply (keeps_try_pass (about_local blank_or_measured)
               (GmshManager.finalize g)); [apply call_keeps_local|exact Hs].
    - reflexivity. }
  destruct r as [u [e'' info]]. exact H.
Qed.

Lemma Qgt_bool_true (x y : Q) : GmshManager.Qgt_bool x y = true <-> (y < x)%Q.
Proof.
  unfold GmshManager.Qgt_bool. rewrite negb_true_iff.
  split; intros H.
  - apply Qnot_le_lt. intros Hle. apply Qle_bool_iff in Hle. congruence.
  - destruct (Qle_bool x y) eqn:E; [|reflexivity].
    apply Qle_bool_iff in E. exfalso. exact (Qlt_not_le _ _ H E).
Qed.

Lemma Qgt_bool_false (x y : Q) : GmshManager.Qgt_bool x y = false <-> (x <= y)%Q.
Proof.
  unfold GmshManager.Qgt_bool. rewrite negb_false_iff. apply Qle_bool_iff.
Qed.

(** [max(a, b, c)] is the largest of the three. *)
Lemma max3_is_Qmax (a b c : Q) :
  (GmshManager.max3 a b c == Qmax (Qmax a b) c)%Q.
Proof.
  unfold GmshManager.max3.
  destruct (GmshManager.Qgt_bool b a) eqn:E1.
  - apply Qgt_bool_true in E1.
    assert (Hab : (Qmax a b == b)%Q) by (apply Q.max_r, Qlt_le_weak, E1).
    destruct (GmshManager.Qgt_bool c b) eqn:E2.
    + apply Qgt_bool_true in E2. symmetry. apply Q.max_r.
      rewrite Hab. apply Qlt_le_weak, E2.
    + apply Qgt_bool_false in E2. symmetry. rewrite Q.max_l; [exact Hab|].
      rewrite Hab. exact E2.
  - apply Qgt_bool_false in E1.
    assert (Hab : (Qmax a b == a)%Q) by (apply Q.max_l, E1).
    destruct (GmshManager.Qgt_bool c a) eqn:E2.
    + apply Qgt_bool_true in E2. symmetry. apply Q.max_r.
      rewrite Hab. apply Qlt_le_weak, E2.
    + apply Qgt_bool_false in E2. symmetry. rewrite Q.max_l; [exact Hab|].
      rewrite Hab. exact E2.
Qed.

Lemma largest_dimension_box_of (b : BBox) :
  largest_dimension (GmshManager.box_of b) = GmshManager.max_dim_of b.
Proof. destruct b as [[[[[xmin ymin] zmin] xmax] ymax] zmax]. reflexivity. Qed.

Lemma estimate_unit_thresholds (d : Q) :
  ((1000 < d)%Q -> GmshManager.estimate_unit d = "MILLIMETERS") /\
  ((10 < d)%Q -> (d <= 1000)%Q -> GmshManager.estimate_unit d = "CENTIMETERS") /\
  ((1 # 10 < d)%Q -> (d <= 10)%Q -> GmshManager.estimate_unit d = "METERS") /\
  ((d <= 1 # 10)%Q -> GmshManager.estimate_unit d = "MILLIMETERS").
Proof.
  unfold GmshManager.estimate_unit. repeat split.
  - intros H. apply Qgt_bool_true in H. rewrite H. reflexivity.
  - intros H1 H2. apply Qgt_bool_true in H1. apply Qgt_bool_false in H2.
    rewrite H2, H1. reflexivity.
  - intros H1 H2. apply Qgt_bool_true in H1. apply Qgt_bool_false in H2.
    assert (H3 : GmshManager.Qgt_bool d 1000 = false).
    { apply Qgt_bool_false. apply Qgt_bool_false in H2.
      eapply Qle_trans; [exact H2|discriminate]. }
    rewrite H3, H2, H1. reflexivity.
  - intros H.
    assert (H1 : GmshManager.Qgt_bool d (1 # 10) = false)
      by (apply Qgt_bool_false, H).
    assert (H2 : GmshManager.Qgt_bool d 10 = false)
      by (apply Qgt_bool_false; eapply Qle_trans; [exact H|discriminate]).
    assert (H3 : GmshManager.Qgt_bool d 1000 = false)
      by (apply Qgt_bool_false; eapply Qle_trans; [exact H|discriminate]).
    rewrite H3, H2, H1. reflexivity.
Qed.

(** *** A model with entities gets its bounding box *)

Lemma yields_ret {S A} (a : A) (P : S -> Prop) :
  yields P (ret a) (fun a' s => a' = a /\ P s).
Proof. intros s H. exists a. repeat split. exact H. Qed.

Lemma yields_bind {S A B} (P : S -> Prop) (R : A -> S -> Prop)
    (Q : B -> S -> Prop) (m : M S A) (k : A -> M S B) :
  yields P m R -> (forall a, yields (R a) (k a) Q) -> yields P (bind m k) Q.
Proof.
  intros Hm Hk s HP. destruct (Hm s HP) as (a & Ha & HR). unfold bind.
  destruct (m s) as [[a'|e] s']; cbn in Ha, HR; [|discriminate].
  inversion Ha; subst a'. apply Hk, HR.
Qed.

Lemma yields_then_moves {S A B} (P : S -> Prop) (R : A -> S -> Prop)
    (Q : S -> Prop) (m : M S A) (k : A -> M S B) :
  yields P m R -> (forall a, moves (R a) (k a) Q) -> moves P (bind m k) Q.
Proof.
  intros Hm Hk s HP. destruct (Hm s HP) as (a & Ha & HR). unfold bind.
  destruct (m s) as [[a'|e] s']; cbn in Ha, HR; [|discriminate].
  inversion Ha; subst a'. apply Hk, HR.
Qed.

Lemma yields_weaken {S A} (P P' : S -> Prop) (Q Q' : A -> S -> Prop)
    (m : M S A) :
  yields P m Q -> (forall s, P' s -> P s) -> (forall a s, Q a s -> Q' a s) ->
  yields P' m Q'.
Proof.
  intros Hm HP HQ s H. destruct (Hm s (HP s H)) as (a & Ha & Hq).
  exists a. split; [exact Ha|apply HQ, Hq].
Qed.

Lemma yields_try_except {S A} (P : S -> Prop) (Q : A -> S -> Prop)
    (m : M S A) (handler : string -> M S A) :
  yields P m Q -> yields P (try_except m handler) Q.
Proof.
  intros Hm s HP. destruct (Hm s HP) as (a & Ha & Hq). unfold try_except.
  destruct (m s) as [[a'|e] s']; cbn in Ha, Hq; [|discriminate].
  exists a'. split; [reflexivity|]. inversion Ha; subst. exact Hq.
Qed.

Lemma try_pass_yields {S} (P : S -> Prop) (m : M S unit) :
  keeps P m -> yields P (try_pass m) (fun _ => P).
Proof.
  intros Hm s HP. specialize (Hm s HP). unfold try_pass, try_except.
  destruct (m s) as [[[]|e] s']; exists tt; split; try reflexivity; exact Hm.
Qed.

Lemma call_yields {L A} (Q : L -> Prop) (c : GmshCall)
    (answer : history -> result A) (a : A) :
  (forall h, answer h = Ok a) ->
  yields (about_local (L := L) Q) (GmshManager.call c answer)
         (fun a' s => a' = a /\ about_local Q s).
Proof.
  intros Ha s HQ. exists a. unfold GmshManager.call. cbn [fst snd].
  rewrite Ha. repeat split. exact HQ.
Qed.

Lemma local_yields {L} (P Q : L -> Prop) (f : L -> L) :
  (forall l, P l -> Q (f l)) ->
  yields (about_local (L := L) P) (GmshManager.local f)
         (fun _ => about_local Q).
Proof. intros H s HP. exists tt. split; [reflexivity|]. apply H, HP. Qed.

Lemma load_file_yields (g : Gmsh) (p : Path) (ents : list (Z * Z)) (b : BBox)
    (Q : ModelInfo -> Prop) :
  measures g ents b ->
  yields (about_local Q) (GmshManager.load_file g p (ret tt))
         (fun _ => about_local Q).
Proof.
  intros (_ & _ & _ & Himp & Hsync & Hmerge & _).
  unfold GmshManager.load_file.
  destruct (GmshManager.is_brep_ext _).
  - eapply yields_bind; [apply yields_ret|intros a].
    eapply yields_bind.
    { eapply yields_weaken; [apply (call_yields Q) with (a := tt)| |].
      - intros h. apply Himp.
      - intros s [_ H]. exact H.
      - intros a' s H. exact H. }
    intros a'.
    eapply yields_weaken; [apply (call_yields Q) with (a := tt)| |].
    + exact Hsync.
    + intros s [_ H]. exact H.
    + intros a'' s [_ H]. exact H.
  - eapply yields_weaken; [apply (call_yields Q) with (a := tt)| |].
    + intros h. apply Hmerge.
    + intros s H. exact H.
    + intros a s [_ H]. exact H.
Qed.

Lemma moves_given {S A} (V : Prop) (P Q : S -> Prop) (m : M S A) :
  (V -> moves P m Q) -> moves (fun s => V /\ P s) m Q.
Proof. intros H s [HV HP]. apply H; assumption. Qed.

Lemma yields_given {S A} (V : Prop) (P : S -> Prop) (Q : A -> S -> Prop)
    (m : M S A) :
  (V -> yields P m Q) -> yields (fun s => V /\ P s) m Q.
Proof. intros H s [HV HP]. apply H; assumption. Qed.

Lemma get_model_info_try_measures (g : Gmsh) (p : Path) (ents : list (Z * Z))
    (b : BBox) :
  measures g ents b -> ents <> [] ->
  moves (about_local blank) (GmshManager.get_model_info_try g p)
        (about_local (measured_as ents b)).
Proof.
  intros Hg Hents.
  pose proof Hg as (Hinit & Hset & Hadd & _ & _ & _ & Hents' & Hbox).
  set (loaded := fun i : ModelInfo => valid i = true).
  set (counted := fun i : ModelInfo =>
                    valid i = true /\ entities i = Z.of_nat (length ents)).
  unfold GmshManager.get_model_info_try.
  eapply yields_then_moves;
    [apply (call_yields blank) with (a := tt); exact Hinit|].
  intros ?. apply moves_given. intros _.
  eapply yields_then_moves;
    [apply (call_yields blank) with (a := tt); intros h; apply Hset|].
  intros ?. apply moves_given. intros _.
  eapply yields_then_moves;
    [apply (call_yields blank) with (a := tt); intros h; apply Hadd|].
  intros ?. apply moves_given. intros _.
  eapply yields_then_moves.
  { apply yields_try_except.
    eapply yields_bind; [apply (load_file_yields g p ents b blank Hg)|].
    intros ?. apply yields_ret. }
  intros ok. apply moves_given. intros ->. cbn [negb].
  eapply yields_then_moves;
    [apply (local_yields blank loaded); intros l ->; reflexivity|].
  intros ?.
  eapply yields_then_moves;
    [apply (call_yields loaded) with (a := ents); exact Hents'|].
  intros ents0. apply moves_given. intros ->.
  eapply yields_then_moves;
    [apply (local_yields loaded counted);
     intros l Hl; split; [exact Hl|reflexivity]|].
  intros ?.
  eapply yields_then_moves.
  { apply (local_yields counted counted). intros l [Hl1 Hl2].
    destruct (count_entities_frame ents l) as (H1 & _ & _ & _ & H5).
    split; congruence. }
  intros ?.
  eapply yields_then_moves with (R := fun _ => about_local (measured_as ents b)).
  { destruct ents as [|x ents']; [congruence|].
    apply yields_try_except.
    eapply yields_bind;
      [apply (call_yields counted) with (a := b); intros h; apply Hbox|].
    intros b0. apply yields_given. intros ->.
    eapply yields_bind;
      [apply (local_yields counted (measured_as (x :: ents') b));
       intros l [Hl1 Hl2]; repeat split; assumption|].
    intros ?. apply local_yields. intros l H. exact H. }
  intros ?.
  apply keeps_bind; [|intros _; apply call_keeps_local].
  apply keeps_try_pass, info_part_names_keeps. intros n i H. exact H.
Qed.

(** On an installed engine that loads the file and finds entities in it,
    the dictionary returned is valid and has the bounding box of the
    model. *)
Lemma model_with_entities_is_measured (g : Gmsh) (p : Path) (e : Engine)
    (ents : list (Z * Z)) (b : BBox) :
  fst (GmshManager.is_available g e) = true ->
  measures g ents b -> ents <> [] ->
  measured_as ents b (fst (GmshManager.get_model_info g p e)).
Proof.
  intros Hav Hg Hents. unfold GmshManager.get_model_info.
  destruct (GmshManager.is_available g e) as [available e']. cbn in Hav.
  subst available. cbn [negb].
  match goal with |- context [try_return ?m ?hd ?s] => set (r := try_return m hd s) end.
  assert (H : about_local (measured_as ents b) (snd r)).
  { apply (try_return_state (about_local blank) (about_local (measured_as ents b))).
    - apply get_model_info_try_measures; assumption.
    - auto.
    - intros _ s Hs.
      apply (keeps_try_pass (about_local (measured_as ents b))
               (GmshManager.finalize g)); [apply call_keeps_local|exact Hs].
    - reflexivity. }
  destruct r as [u [e'' info]]. exact H.
Qed.

(** C8: on an installed engine that loads the file and finds at least
    one entity in it, [get_model_info] returns the bounding box of the
    model; and whenever it returns a bounding box, the estimated unit
    follows from the largest dimension [d] of the box: millimeters if
    [d > 1000], centimeters if [10 < d <= 1000], meters if
    [0.1 < d <= 10], and millimeters if [d <= 0.1]. *)
Theorem estimated_unit_by_thresholds (g : Gmsh) (p : Path) (e : Engine) :
  let info := fst (GmshManager.get_model_info g p e) in
  (forall ents b,
     fst (GmshManager.is_available g e) = true -> measures g ents b ->
     ents <> [] ->
     bounding_box info = Some (GmshManager.box_of b)) /\
  (forall bb,
     bounding_box info = Some bb ->
     let d := largest_dimension bb in
     (d == Qmax (Qmax (bb_size bb).1.1 (bb_size bb).1.2) (bb_size bb).2)%Q /\
     ((1000 < d)%Q -> estimated_unit info = "MILLIMETERS") /\
     ((10 < d)%Q -> (d <= 1000)%Q -> estimated_unit info = "CENTIMETERS") /\
     ((1 # 10 < d)%Q -> (d <= 10)%Q -> estimated_unit info = "METERS") /\
     ((d <= 1 # 10)%Q -> estimated_unit info = "MILLIMETERS")).
Proof.
  intros info. split.
  { intros ents b Hav Hg Hents.
    apply (model_with_entities_is_measured g p e ents b Hav Hg Hents). }
  intros bb Hbb d.
  split.
  { unfold d, largest_dimension. destruct (bb_size bb) as [[sx sy] sz].
    apply max3_is_Qmax. }
  destruct (get_model_info_shape g p e) as [Hblank|[_ [[Hnone _]|(b & Hb & Hu)]]];
    fold info in Hblank || fold info in Hnone || fold info in Hb, Hu.
  - rewrite Hblank in Hbb. discriminate.
  - congruence.
  - assert (bb = GmshManager.box_of b) by congruence. subst bb.
    unfold d. rewrite largest_dimension_box_of, Hu.
    apply estimate_unit_thresholds.
Qed.

Lemma estimated_unit_by_thresholds_witness :
  let info := fst (GmshManager.get_model_info Demo.cube_gmsh Demo.bracket_step
                     Demo.fresh_engine) in
  entities info = 3 /\
  bounding_box info = Some (GmshManager.box_of Demo.cube_box) /\
  estimated_unit info = "METERS".
Proof.
  pose proof (estimated_unit_by_thresholds Demo.cube_gmsh Demo.bracket_step
                Demo.fresh_engine) as [Hbox Hunit].
  assert (Hb : bounding_box
                 (fst (GmshManager.get_model_info Demo.cube_gmsh
                         Demo.bracket_step Demo.fresh_engine))
               = Some (GmshManager.box_of Demo.cube_box)).
  { apply (Hbox Demo.cube_entities Demo.cube_box).
    - reflexivity.
    - repeat split.
    - discriminate. }
  split; [reflexivity|]. split; [exact Hb|].
  destruct (Hunit _ Hb) as (_ & _ & _ & Hmeters & _).
  apply Hmeters.
  - reflexivity.
  - discriminate.
Defined.

(** The estimated unit is one of UNKNOWN, MILLIMETERS, CENTIMETERS and
    METERS, whatever the engine does. *)
Lemma estimated_unit_detectable (g : Gmsh) (p : Path) (e : Engine) :
  In (estimated_unit (fst (GmshManager.get_model_info g p e))) detectable_units.
Proof.
  destruct (get_model_info_shape g p e) as [->|[_ [[_ ->]|(b & _ & ->)]]].
  - left. reflexivity.
  - left. reflexivity.
  - unfold GmshManager.estimate_unit, detectable_units.
    repeat destruct (GmshManager.Qgt_bool _ _); cbn; auto.
Qed.

(** An invalid dictionary is the initial one: all counts are zero, there
    is no bounding box, no unit and no part name. *)
Lemma invalid_info_is_blank (g : Gmsh) (p : Path) (e : Engine) :
  let info := fst (GmshManager.get_model_info g p e) in
  valid info = false -> info = GmshManager.default_info.
Proof.
  intros info H. destruct (get_model_info_shape g p e) as [Hb|[Hv _]].
  - exact Hb.
  - fold info in Hv. congruence.
Qed.

Lemma get_model_info_unavailable (g : Gmsh) (p : Path) (e : Engine) :
  fst (GmshManager.is_available g e) = false ->
  fst (GmshManager.get_model_info g p e) = GmshManager.default_info.
Proof.
  intros H. unfold GmshManager.get_model_info.
  destruct (GmshManager.is_available g e) as [a e']. cbn in H. subst a.
  reflexivity.
Qed.

Lemma moves_bind_value {S A B} (P R Q : S -> Prop) (V : A -> Prop)
    (m : M S A) (k : A -> M S B) :
  moves P m R -> (forall s a, fst (m s) = Ok a -> V a) ->
  (forall s, R s -> Q s) -> (forall a, V a -> moves R (k a) Q) ->
  moves P (bind m k) Q.
Proof.
  intros Hm HV HRQ Hk s HP. specialize (Hm s HP). specialize (HV s).
  unfold bind. destruct (m s) as [[a|e] s']; cbn in *.
  - apply Hk; [apply HV; reflexivity|exact Hm].
  - apply HRQ, Hm.
Qed.

Lemma rejected_load_answers_false (g : Gmsh) (p : Path)
    (s : Engine * ModelInfo) (loaded : bool) :
  rejects_files g ->
  fst (try_except
         (bind (GmshManager.load_file g p (ret tt)) (fun _ => ret true))
         (fun _ => bind (GmshManager.finalize g) (fun _ => ret false)) s)
  = Ok loaded ->
  loaded = false.
Proof.
  intros Hrej. unfold try_except, bind, GmshManager.load_file.
  destruct (GmshManager.is_brep_ext _).
  - cbn. destruct (Hrej (calls (fst s)) (path_str p)) as [[e He] _].
    rewrite He. cbn. destruct (on_finalize g _); cbn; congruence.
  - cbn. destruct (Hrej (calls (fst s)) (path_str p)) as [_ [e He]].
    rewrite He. cbn. destruct (on_finalize g _); cbn; congruence.
Qed.

(** A file the engine cannot load gives the invalid dictionary. *)
Lemma get_model_info_load_failure (g : Gmsh) (p : Path) (e : Engine) :
  rejects_files g ->
  fst (GmshManager.get_model_info g p e) = GmshManager.default_info.
Proof.
  intros Hrej. unfold GmshManager.get_model_info.
  destruct (GmshManager.is_available g e) as [available e'].
  destruct available; cbn [negb]; [|reflexivity].
  match goal with |- context [try_return ?m ?hd ?s] => set (r := try_return m hd s) end.
  assert (H : about_local blank (snd r)).
  { apply (try_return_state (about_local blank) (about_local blank)).
    - unfold GmshManager.get_model_info_try.
      apply keeps_bind; [apply call_keeps_local|intros _].
      apply keeps_bind; [apply call_keeps_local|intros _].
      apply keeps_bind; [apply call_keeps_local|intros _].
      apply (moves_bind_value _ (about_local blank) _ (fun b => b = false)).
      + apply keeps_try_except.
        * apply keeps_bind; [|intros _; apply keeps_ret].
          apply load_file_keeps_local, keeps_ret.
        * intros err. apply keeps_bind; [apply call_keeps_local|intros _; apply keeps_ret].
      + intros s a. apply rejected_load_answers_false, Hrej.
      + auto.
      + intros a ->. apply keeps_ret.
    - auto.
    - intros _ s Hs.
      apply (keeps_try_pass (about_local blank) (GmshManager.finalize g));
        [apply call_keeps_local|exact Hs].
    - reflexivity. }
  destruct r as [u [e'' info]]. exact H.
Qed.

(** C3: the specification wants an invalid dictionary after any
    exception.  On an installed engine that loads the file and then
    raises when asked for the entities, [get_model_info] returns without
    raising, but the dictionary it returns has [valid] true: the flag was
    set before the exception and the handler returns the same
    dictionary. *)
Theorem get_model_info_valid_after_exception :
  let g := Demo.listing_fails_gmsh in
  let info := fst (GmshManager.get_model_info g Demo.bracket_step Demo.fresh_engine) in
  (forall h, on_getEntities g h = Raise "entities") /\
  valid info = true /\
  info = GmshManager.set_valid true GmshManager.default_info.
Proof. repeat split. Qed.

(** ** Part names *)

Lemma mem_true_iff (x : string) (l : list string) :
  Py.mem x l = true <-> x ∈ l.
Proof.
  unfold Py.mem. rewrite existsb_exists. split.
  - intros (y & Hy & E). apply String.eqb_eq in E. subst. apply list_elem_of_In, Hy.
  - intros H. exists x. split; [apply list_elem_of_In, H|apply String.eqb_refl].
Qed.

Lemma first_appearances_filter (P : string -> Prop) `{!forall x, Decision (P x)}
    (l : list string) :
  first_appearances (filter P l) = filter P (first_appearances l).
Proof.
  induction l as [|x r IH]; [reflexivity|].
  cbn [first_appearances]. rewrite !filter_cons.
  destruct (decide (P x)) as [Hx|Hx].
  - cbn [first_appearances]. rewrite IH. f_equal.
    rewrite !list_filter_filter. apply list_filter_iff. intros y. tauto.
  - rewrite IH, list_filter_filter. apply list_filter_iff.
    intros y. split; [|tauto]. intros Hy. split; [exact Hy|]. congruence.
Qed.

Lemma absorb_spec (names acc : list string) :
  absorb acc names
  = acc ++ first_appearances (filter (fun n => n ∉ acc) (named names)).
Proof.
  revert acc. induction names as [|x r IH]; intros acc.
  - cbn. rewrite app_nil_r. reflexivity.
  - unfold absorb. cbn [fold_left]. fold (absorb (if Py.truthy x && negb (Py.mem x acc) then acc ++ [x] else acc) r).
    rewrite IH. unfold named. rewrite filter_cons.
    destruct (Py.truthy x) eqn:Ht; cbn [andb].
    2: { destruct (decide (false = true)); [discriminate|]. reflexivity. }
    destruct (decide (true = true)) as [_|]; [|congruence].
    rewrite filter_cons.
    destruct (Py.mem x acc) eqn:Hm; cbn [negb].
    + apply mem_true_iff in Hm. destruct (decide (x ∉ acc)); [tauto|reflexivity].
    + assert (Hx : x ∉ acc) by (rewrite <- mem_true_iff; congruence).
      destruct (decide (x ∉ acc)); [|tauto].
      cbn [first_appearances]. rewrite <- app_assoc. cbn [app]. do 2 f_equal.
      rewrite <- first_appearances_filter. f_equal. unfold named.
      rewrite !list_filter_filter. apply list_filter_iff. intros y.
      rewrite not_elem_of_app, list_elem_of_singleton. tauto.
Qed.

Lemma info_part_names_cons (g : Gmsh) (dim tag : Z) (ents : list (Z * Z))
    (s : Engine * ModelInfo) (n : string) :
  on_getEntityName g (calls (fst s)) dim tag = Ok n ->
  GmshManager.info_part_names g ((dim, tag) :: ents) s
  = GmshManager.info_part_names g ents
      (log_call (GetEntityName dim tag) (fst s),
       if Py.truthy n && negb (Py.mem n (part_names (snd s)))
       then GmshManager.append_part_name n (snd s) else snd s).
Proof.
  intros H. cbn [GmshManager.info_part_names].
  unfold bind, GmshManager.getEntityName, GmshManager.call, GmshManager.read_local.
  rewrite H. cbn [fst snd].
  destruct (Py.truthy n && negb (Py.mem n (part_names (snd s)))); reflexivity.
Qed.

(** With an engine that gives each entity its name [nm], the loop of
    [get_model_info] leaves the named entities in order of first
    appearance, without duplicates. *)
Lemma info_part_names_spec (g : Gmsh) (nm : Z -> Z -> string)
    (ents : list (Z * Z)) (s : Engine * ModelInfo) :
  (forall h dim tag, on_getEntityName g h dim tag = Ok (nm dim tag)) ->
  fst (GmshManager.info_part_names g ents s) = Ok tt /\
  part_names (snd (snd (GmshManager.info_part_names g ents s)))
  = absorb (part_names (snd s)) (map (fun dt => nm dt.1 dt.2) ents).
Proof.
  intros Hnm. revert s. induction ents as [|[dim tag] ents IH]; intros s.
  - split; reflexivity.
  - rewrite (info_part_names_cons g dim tag ents s (nm dim tag)) by apply Hnm.
    destruct (IH (log_call (GetEntityName dim tag) (fst s),
                  if Py.truthy (nm dim tag)
                     && negb (Py.mem (nm dim tag) (part_names (snd s)))
                  then GmshManager.append_part_name (nm dim tag) (snd s)
                  else snd s)) as [H1 H2].
    split; [exact H1|]. rewrite H2. cbn [snd map fst]. unfold absorb at 2.
    cbn [fold_left].
    destruct (Py.truthy (nm dim tag)
              && negb (Py.mem (nm dim tag) (part_names (snd s)))); reflexivity.
Qed.

Lemma filter_everything (P : string -> Prop) `{!forall x, Decision (P x)}
    (l : list string) :
  (forall x, P x) -> filter P l = l.
Proof.
  intros Hall. induction l as [|x r IH]; [reflexivity|].
  rewrite filter_cons_True by apply Hall. rewrite IH. reflexivity.
Qed.

Lemma info_part_names_from_empty (g : Gmsh) (nm : Z -> Z -> string)
    (ents : list (Z * Z)) (e : Engine) (i : ModelInfo) :
  (forall h dim tag, on_getEntityName g h dim tag = Ok (nm dim tag)) ->
  part_names i = [] ->
  part_names (snd (snd (GmshManager.info_part_names g ents (e, i))))
  = first_appearances (named (map (fun dt => nm dt.1 dt.2) ents)).
Proof.
  intros Hnm Hi.
  destruct (info_part_names_spec g nm ents (e, i) Hnm) as [_ H].
  rewrite H. cbn [snd]. rewrite Hi, absorb_spec. cbn [app]. f_equal.
  apply filter_everything. intros x. apply not_elem_of_nil.
Qed.

(** The loop of [convert_to_stl] keeps every named entity, duplicates
    included. *)
Lemma convert_part_names_cons (g : Gmsh) (dim tag : Z) (ents : list (Z * Z))
    (s : Engine * list string) (n : string) :
  on_getEntityName g (calls (fst s)) dim tag = Ok n ->
  GmshManager.convert_part_names g ((dim, tag) :: ents) s
  = GmshManager.convert_part_names g ents
      (log_call (GetEntityName dim tag) (fst s),
       if Py.truthy n then snd s ++ [n] else snd s).
Proof.
  intros H. cbn [GmshManager.convert_part_names].
  unfold bind, GmshManager.getEntityName, GmshManager.call.
  rewrite H. cbn [fst snd].
  destruct (Py.truthy n); reflexivity.
Qed.

Lemma convert_part_names_spec (g : Gmsh) (nm : Z -> Z -> string)
    (ents : list (Z * Z)) (s : Engine * list string) :
  (forall h dim tag, on_getEntityName g h dim tag = Ok (nm dim tag)) ->
  fst (GmshManager.convert_part_names g ents s) = Ok tt /\
  snd (snd (GmshManager.convert_part_names g ents s))
  = snd s ++ named (map (fun dt => nm dt.1 dt.2) ents).
Proof.
  intros Hnm. revert s. induction ents as [|[dim tag] ents IH]; intros s.
  - split; [reflexivity|]. cbn. rewrite app_nil_r. reflexivity.
  - rewrite (convert_part_names_cons g dim tag ents s (nm dim tag)) by apply Hnm.
    destruct (IH (log_call (GetEntityName dim tag) (fst s),
                  if Py.truthy (nm dim tag) then snd s ++ [nm dim tag] else snd s))
      as [H1 H2].
    split; [exact H1|]. rewrite H2. cbn [snd map fst]. unfold named.
    rewrite filter_cons.
    destruct (Py.truthy (nm dim tag)) eqn:E.
    + destruct (decide (true = true)); [|congruence].
      rewrite <- app_assoc. reflexivity.
    + destruct (decide (false = true)); [discriminate|]. reflexivity.
Qed.

(** A failure to read a name neither fails the loop nor loses the names
    read before it. *)
Lemma part_names_failure_ignored (g : Gmsh) (ents : list (Z * Z))
    (s : Engine * ModelInfo) :
  fst (try_pass (GmshManager.info_part_names g ents) s) = Ok tt.
Proof.
  unfold try_pass, try_except.
  destruct (GmshManager.info_part_names g ents s) as [[[]|e] s']; reflexivity.
Qed.

Lemma first_appearances_elem (l : list string) (x : string) :
  x ∈ first_appearances l <-> x ∈ l.
Proof.
  induction l as [|y r IH]; [reflexivity|].
  cbn [first_appearances]. rewrite !elem_of_cons, list_elem_of_filter, IH.
  destruct (decide (x = y)); tauto.
Qed.

Lemma first_appearances_NoDup (l : list string) : NoDup (first_appearances l).
Proof.
  induction l as [|y r IH]; [constructor|].
  cbn [first_appearances]. constructor.
  - rewrite list_elem_of_filter. tauto.
  - apply NoDup_filter, IH.
Qed.

(** C6: the specification wants the part names of both functions
    deduplicated.  On a model whose two surfaces are both named "Panel",
    [get_model_info] returns the name once, and [convert_to_stl] returns
    it twice: its loop appends every non-empty name. *)
Theorem convert_to_stl_keeps_duplicate_names :
  let g := Demo.cube_gmsh in
  let info := fst (GmshManager.get_model_info g Demo.bracket_step Demo.fresh_engine) in
  let converted :=
    fst (GmshManager.convert_to_stl g Demo.bracket_step "/tmp/out.stl"
           (1 # 10) 10 2 false false Demo.fresh_engine) in
  part_names info = ["Panel"] /\
  converted = (true, "Conversion successful", ["Panel"; "Panel"]) /\
  first_appearances (named ["" ; "Panel"; "Panel"]) = ["Panel"].
Proof. repeat split. Qed.

(** ** Geometry healing *)

Lemma is_available_calls (g : Gmsh) (e : Engine) :
  calls (snd (GmshManager.is_available g e)) = calls e.
Proof.
  unfold GmshManager.is_available.
  destruct (_gmsh_available e); [reflexivity|].
  destruct (importable g); reflexivity.
Qed.

Section Healing.
Variables (g : Gmsh) (input_path : Path) (output_path : string).
Variables (mesh_size_min mesh_size_max : Q) (mesh_algorithm : Z).
Variables (optimize_mesh healing : bool).
Variables (k : string) (h0 : history).
Hypothesis Hk : In k healing_keys.

Local Abbreviation healing_applies := (healing_applies_to healing input_path).
Local Abbreviation accounted := (accounted_from k h0 healing input_path).

Lemma accounted_step (c : GmshCall) (h : history) :
  (forall v, c = SetNumber k v -> healing_applies) ->
  accounted h -> accounted (c :: h).
Proof.
  intros Hc (added & -> & Hadded). exists (c :: added).
  split; [reflexivity|]. intros [v [Hv|Hv]].
  - apply (Hc v), Hv.
  - apply Hadded. exists v. exact Hv.
Qed.

Ltac other_call :=
  let v := fresh "v" in
  let Hc := fresh "Hc" in
  intros v Hc; exfalso; inversion Hc; subst;
  cbn in Hk; intuition discriminate.

Ltac engine_call :=
  first [ apply call_keeps_calls | apply write_keeps_calls ];
  intros ?; apply accounted_step; other_call.

Lemma healing_options_accounted :
  healing_applies ->
  keeps (about_calls accounted) (GmshManager.healing_options g).
Proof.
  intros Happ. unfold GmshManager.healing_options.
  repeat (apply keeps_bind; [|intros _]);
    apply call_keeps_calls; intros h; apply accounted_step; intros v _; exact Happ.
Qed.

Lemma load_file_accounted :
  keeps (about_calls accounted)
    (GmshManager.load_file g input_path
       (if healing then GmshManager.healing_options g else ret tt)).
Proof.
  unfold GmshManager.load_file.
  destruct (GmshManager.is_brep_ext (Py.lower (suffix input_path))) eqn:E.
  - apply keeps_bind; [|intros _].
    + destruct (Bool.bool_dec healing true) as [Eh|Eh].
      * apply keeps_if; [|apply keeps_ret].
        apply healing_options_accounted. split; [exact Eh|exact E].
      * apply not_true_is_false in Eh. rewrite Eh. apply keeps_ret.
    + apply keeps_bind; [|intros _]; engine_call.
  - engine_call.
Qed.

Lemma convert_part_names_accounted (ents : list (Z * Z)) :
  keeps (about_calls accounted) (GmshManager.convert_part_names g ents).
Proof.
  induction ents as [|[dim tag] ents IH]; cbn [GmshManager.convert_part_names].
  - apply keeps_ret.
  - apply keeps_bind; [engine_call|intros n].
    apply keeps_bind; [|intros _; exact IH].
    apply keeps_if; [apply local_keeps_calls|apply keeps_ret].
Qed.

Lemma or_fail_accounted (m : M (Engine * list string) unit) (msg : string)
    (rest : M (Engine * list string) GmshManager.ConversionResult) :
  keeps (about_calls accounted) m -> keeps (about_calls accounted) rest ->
  keeps (about_calls accounted) (GmshManager.or_fail g m msg rest).
Proof.
  intros Hm Hrest. unfold GmshManager.or_fail.
  apply keeps_bind.
  - apply keeps_try_except.
    + apply keeps_bind; [exact Hm|intros _; apply keeps_ret].
    + intros e. apply keeps_bind; [engine_call|intros _; apply keeps_ret].
  - intros [r|]; [apply keeps_ret|exact Hrest].
Qed.

Lemma convert_to_stl_try_accounted :
  keeps (about_calls accounted)
    (GmshManager.convert_to_stl_try g input_path output_path mesh_size_min
       mesh_size_max mesh_algorithm optimize_mesh healing).
Proof.
  unfold GmshManager.convert_to_stl_try.
  apply keeps_bind; [engine_call|intros _].
  apply keeps_bind; [engine_call|intros _].
  apply keeps_bind; [engine_call|intros _].
  apply or_fail_accounted; [apply load_file_accounted|].
  apply keeps_bind; [|intros _].
  { apply keeps_try_pass. apply keeps_bind; [engine_call|intros ents].
    apply convert_part_names_accounted. }
  apply keeps_bind; [engine_call|intros _].
  apply keeps_bind; [engine_call|intros _].
  apply keeps_bind; [engine_call|intros _].
  apply keeps_bind; [|intros _].
  { apply keeps_if; [|apply keeps_ret].
    apply keeps_bind; [engine_call|intros _]. engine_call. }
  apply or_fail_accounted; [engine_call|].
  apply or_fail_accounted; [engine_call|].
  apply keeps_bind; [engine_call|intros _].
  apply keeps_bind; [apply read_local_keeps|intros names].
  apply keeps_ret.
Qed.

Lemma convert_to_stl_accounted (e : Engine) :
  h0 = calls e ->
  accounted
    (calls (snd (GmshManager.convert_to_stl g input_path output_path
                   mesh_size_min mesh_size_max mesh_algorithm optimize_mesh
                   healing e))).
Proof.
  intros Hh0. unfold GmshManager.convert_to_stl.
  pose proof (is_available_calls g e) as Hav.
  destruct (GmshManager.is_available g e) as [available e']. cbn [snd] in Hav.
  assert (Hstart : accounted (calls e')).
  { rewrite Hav, <- Hh0. exists []. split; [reflexivity|]. intros [v []]. }
  destruct available; cbn [negb]; [|exact Hstart].
  match goal with |- context [try_return ?m ?hd ?s] => set (r := try_return m hd s) end.
  assert (H : about_calls accounted (snd r)).
  { apply (try_return_state (about_calls accounted) (about_calls accounted)).
    - apply convert_to_stl_try_accounted.
    - auto.
    - intros err s Hs. cbn [snd].
      apply (keeps_try_pass (about_calls accounted) (GmshManager.finalize g));
        [engine_call|exact Hs].
    - exact Hstart. }
  destruct r as [res [e'' names]]. exact H.
Qed.

End Healing.

Lemma is_brep_ext_supported (ext : string) :
  GmshManager.is_brep_ext ext = true <-> In ext SUPPORTED_EXTENSIONS.
Proof.
  unfold GmshManager.is_brep_ext. rewrite mem_true_iff, list_elem_of_In.
  reflexivity.
Qed.

Lemma healing_without_effect (g : Gmsh) (input_path : Path)
    (output_path : string) (mesh_size_min mesh_size_max : Q)
    (mesh_algorithm : Z) (optimize_mesh : bool) (e : Engine) :
  GmshManager.is_brep_ext (Py.lower (suffix input_path)) = false ->
  GmshManager.convert_to_stl g input_path output_path mesh_size_min
    mesh_size_max mesh_algorithm optimize_mesh true e
  = GmshManager.convert_to_stl g input_path output_path mesh_size_min
      mesh_size_max mesh_algorithm optimize_mesh false e.
Proof.
  intros H.
  unfold GmshManager.convert_to_stl, GmshManager.convert_to_stl_try,
    GmshManager.load_file.
  rewrite H. reflexivity.
Qed.

(** C10: the four healing options are among the engine calls made by
    [convert_to_stl] only if healing is requested and the lower-cased
    suffix of the input file is one of the six boundary-representation
    extensions; for any other suffix, which goes through [gmsh.merge],
    the conversion with healing is the conversion without it: same
    result, same engine calls, same files. *)
Theorem healing_only_for_brep_files (g : Gmsh) (input_path : Path)
    (output_path : string) (mesh_size_min mesh_size_max : Q)
    (mesh_algorithm : Z) (optimize_mesh healing : bool) (e : Engine) :
  let convert := GmshManager.convert_to_stl g input_path output_path
                   mesh_size_min mesh_size_max mesh_algorithm optimize_mesh in
  let ext := Py.lower (suffix input_path) in
  (forall k added, In k healing_keys ->
     calls (snd (convert healing e)) = added ++ calls e ->
     sets_option k added ->
     healing = true /\ In ext SUPPORTED_EXTENSIONS) /\
  (~ In ext SUPPORTED_EXTENSIONS -> convert true e = convert false e).
Proof.
  intros convert ext. split.
  - intros k added Hk Hcalls Hset.
    destruct (convert_to_stl_accounted g input_path output_path mesh_size_min
                mesh_size_max mesh_algorithm optimize_mesh healing k (calls e) Hk
                e eq_refl) as (added' & Hadded & Happlies).
    fold (convert healing e) in Hadded. rewrite Hadded in Hcalls.
    apply app_inv_tail in Hcalls. subst added'.
    destruct (Happlies Hset) as [Hh Hext].
    split; [exact Hh|]. apply is_brep_ext_supported, Hext.
  - intros Hext. apply healing_without_effect.
    destruct (GmshManager.is_brep_ext (Py.lower (suffix input_path))) eqn:E;
      [|reflexivity].
    exfalso. apply Hext, is_brep_ext_supported, E.
Qed.

Lemma healing_only_for_brep_files_witness :
  (let after := calls (snd (GmshManager.convert_to_stl Demo.cube_gmsh
                              Demo.bracket_step "/tmp/out.stl" (1 # 10) 10 2
                              false true Demo.fresh_engine)) in
   In (SetNumber "Geometry.OCCSewFaces" 1) after /\
   In (Py.lower (suffix Demo.bracket_step)) SUPPORTED_EXTENSIONS) /\
  GmshManager.convert_to_stl Demo.cube_gmsh Demo.scan_stl "/tmp/out.stl"
    (1 # 10) 10 2 false true Demo.fresh_engine
  = GmshManager.convert_to_stl Demo.cube_gmsh Demo.scan_stl "/tmp/out.stl"
      (1 # 10) 10 2 false false Demo.fresh_engine.
Proof.
  pose proof (healing_only_for_brep_files Demo.cube_gmsh Demo.bracket_step
                "/tmp/out.stl" (1 # 10) 10 2 false true Demo.fresh_engine) as Hstep.
  pose proof (healing_only_for_brep_files Demo.cube_gmsh Demo.scan_stl
                "/tmp/out.stl" (1 # 10) 10 2 false true Demo.fresh_engine) as Hstl.
  cbv zeta in Hstep, Hstl. destruct Hstep as [Hstep _]. destruct Hstl as [_ Hstl].
  split; [split|].
  - vm_compute. tauto.
  - refine (proj2 (Hstep "Geometry.OCCSewFaces" _ _ _ _)).
    + cbn. tauto.
    + rewrite app_nil_r. reflexivity.
    + exists 1%Q. vm_compute. tauto.
  - apply Hstl. vm_compute. intuition discriminate.
Defined.

(** ** Temporary files and the end of a batch *)

Lemma cleanup_temp_files_spec (h : Host) (paths : list string) (e : Engine) :
  let e' := LADDER_OT_import_cad.cleanup_temp_files h paths e in
  calls e' = calls e /\
  _gmsh_available e' = _gmsh_available e /\
  files e' ⊆ files e /\
  (forall p, In p paths -> p ∈ files e' ->
             exists fs err, unlink h fs p = Raise err).
Proof.
  revert e. induction paths as [|p paths IH]; intros e.
  - cbn. repeat split; [reflexivity|]. intros p [].
  - cbn [LADDER_OT_import_cad.cleanup_temp_files].
    set (e1 := if bool_decide (p ∈ files e)
               then match unlink h (files e) p with
                    | Ok _ => set_files (files e ∖ {[p]}) e
                    | Raise _ => e
                    end
               else e).
    assert (H1 : calls e1 = calls e /\ _gmsh_available e1 = _gmsh_available e /\
                 files e1 ⊆ files e /\
                 (p ∈ files e1 -> exists fs err, unlink h fs p = Raise err)).
    { unfold e1. case_bool_decide as Hin.
      - destruct (unlink h (files e) p) as [[]|err] eqn:Eu.
        + cbn. repeat split.
          * apply subseteq_difference_l. reflexivity.
          * intros Hp. apply elem_of_difference in Hp as [_ Hp].
            exfalso. apply Hp, elem_of_singleton. reflexivity.
        + repeat split; [reflexivity|]. intros _. eauto.
      - repeat split; [reflexivity|]. tauto. }
    destruct H1 as (Hc1 & Ha1 & Hf1 & Hp1).
    destruct (IH e1) as (Hc & Ha & Hf & Hp).
    cbv zeta. repeat split.
    + congruence.
    + congruence.
    + transitivity (files e1); assumption.
    + intros q [<-|Hq] Hin.
      * apply Hp1, Hf, Hin.
      * apply Hp; assumption.
Qed.

Lemma remove_collection_gone (c : nat) (sc : Scene) :
  c ∉ collections (LADDER_OT_import_cad.remove_collection c sc).
Proof.
  unfold LADDER_OT_import_cad.remove_collection. cbn.
  rewrite list_elem_of_filter. tauto.
Qed.

(** Unfolding the primitives of the driver's monad. *)
Ltac run_driver_in E :=
  unfold bind, ret, try_except, try_pass, modify,
    LADDER_OT_import_cad.self, LADDER_OT_import_cad.world,
    LADDER_OT_import_cad.set_self, LADDER_OT_import_cad.in_scene,
    LADDER_OT_import_cad.in_world, LADDER_OT_import_cad.report,
    LADDER_OT_import_cad.logger_error in E;
  cbn [fst snd] in E.

(** What [_finish] returns and leaves behind. *)
Lemma finish_outcome (h : Host) (cancelled : bool) (o : Operator) (w : World) :
  let r := LADDER_OT_import_cad._finish h cancelled (o, w) in
  fst r = Ok (if cancelled then CANCELLED else FINISHED) /\
  _temp_files (fst (snd r)) = [] /\
  _current_index (fst (snd r)) = _current_index o /\
  _files_to_process (fst (snd r)) = _files_to_process o /\
  _all_imported_objects (fst (snd r)) = _all_imported_objects o /\
  engine (snd (snd r))
  = LADDER_OT_import_cad.cleanup_temp_files h (_temp_files o) (engine w) /\
  is_running (import_progress (snd (snd r))) = false /\
  (cancelled = true ->
   forall c, _target_collection o = Some c ->
             collection_objects c (scene w) = [] ->
             c ∉ collections (scene (snd (snd r)))).
Proof.
  intros r. subst r.
  destruct (LADDER_OT_import_cad._finish h cancelled (o, w)) as [res [o' w']] eqn:E.
  unfold LADDER_OT_import_cad._finish in E. run_driver_in E.
  destruct cancelled.
  - destruct (_timer o), (_target_collection o) as [c|] eqn:Ec;
      try destruct (Nat.eqb (length (collection_objects c (scene w))) 0) eqn:El;
      cbn in E; rewrite ?El in E; cbn in E;
      inversion E; subst; cbn; repeat split;
      intros _ c' Hc' Hempty; inversion Hc'; subst c';
      try apply remove_collection_gone; try discriminate.
    all: rewrite Hempty in El; discriminate.
  - destruct (_timer o), (can_frame_view h) as [[]|],
      (Nat.eqb (length (_files_to_process o)) 1);
      cbn in E; inversion E; subst; cbn; repeat split; discriminate.
Qed.

(** ** One file of the batch *)

Lemma returns_ret {S A} (a : A) : returns (S := S) (ret a).
Proof. intros s. exists a. reflexivity. Qed.

Lemma returns_modify {S} (f : S -> S) : returns (modify f).
Proof. intros s. exists tt. reflexivity. Qed.

Lemma returns_bind {S A B} (m : M S A) (k : A -> M S B) :
  returns m -> (forall a, returns (k a)) -> returns (bind m k).
Proof.
  intros Hm Hk s. destruct (Hm s) as [a Ha]. unfold bind.
  destruct (m s) as [[a'|e] s']; cbn in Ha; [|discriminate]. apply Hk.
Qed.

Lemma returns_try_except {S A} (m : M S A) (handler : string -> M S A) :
  (forall e, returns (handler e)) -> returns (try_except m handler).
Proof.
  intros Hh s. unfold try_except. destruct (m s) as [[a|e] s'].
  - exists a. reflexivity.
  - apply Hh.
Qed.

Lemma returns_if {S A} (b : bool) (m1 m2 : M S A) :
  returns m1 -> returns m2 -> returns (if b then m1 else m2).
Proof. destruct b; auto. Qed.

Lemma create_temp_file_keeps_stable (h : Host) (P : Operator -> Prop) :
  (forall l o, P o -> P (set_temp_files l o)) ->
  keeps (about_self P) (LADDER_OT_import_cad.create_temp_file h).
Proof.
  intros Hstable s H. unfold LADDER_OT_import_cad.create_temp_file.
  destruct (mkstemp h _); [|exact H]. apply Hstable, H.
Qed.

(** A registered temporary file stays registered when another one is
    created. *)
Lemma create_temp_file_keeps_registered (h : Host) (p : string) :
  keeps (about_self (fun o => In p (_temp_files o)))
        (LADDER_OT_import_cad.create_temp_file h).
Proof.
  intros s H. unfold LADDER_OT_import_cad.create_temp_file.
  destruct (mkstemp h _); [|exact H].
  unfold about_self in *. cbn. apply in_or_app. left. exact H.
Qed.

Section DriverFrames.
Import LADDER_OT_import_cad.
Variable h : Host.
Variable P : Operator -> Prop.

Lemma in_world_keeps (f : World -> World) : keeps (about_self P) (in_world f).
Proof. intros s H. exact H. Qed.

Lemma in_scene_keeps (f : Scene -> Scene) : keeps (about_self P) (in_scene f).
Proof. intros s H. exact H. Qed.

Lemma self_keeps : keeps (about_self P) self.
Proof. intros s H. exact H. Qed.

Lemma world_keeps : keeps (about_self P) world.
Proof. intros s H. exact H. Qed.

Lemma on_engine_keeps {A} (f : Engine -> A * Engine) :
  keeps (about_self P) (on_engine f).
Proof. intros s H. unfold on_engine. destruct (f _). exact H. Qed.

Lemma announce_keeps (i : nat) (n ph : string) :
  keeps (about_self P) (announce i n ph).
Proof. apply keeps_bind; [|intros _]; apply in_world_keeps. Qed.

Lemma call_stl_import_keeps (f : string) (q : Q) :
  keeps (about_self P) (call_stl_import h f q).
Proof. intros s H. unfold call_stl_import. destruct (stl_import _ _ _ _). exact H. Qed.

Lemma determine_unit_scale_keeps (p : Path) :
  keeps (about_self P) (determine_unit_scale h p).
Proof.
  unfold determine_unit_scale.
  apply keeps_bind; [apply self_keeps|intros o].
  apply keeps_if; [|apply keeps_ret].
  apply keeps_bind; [apply on_engine_keeps|intros i; apply keeps_ret].
Qed.

(** [P] survives the registration of a new temporary file. *)
Hypothesis create_temp_file_keeps : keeps (about_self P) (create_temp_file h).

Local Abbreviation ok_or_keeps := (keeps_unless_ok P).

Lemma keeps_ok_or (m : M St string) : keeps (about_self P) m -> ok_or_keeps m.
Proof. intros Hm s H. right. apply Hm, H. Qed.

Lemma ok_or_bind {A} (m : M St A) (k : A -> M St string) :
  keeps (about_self P) m -> (forall a, ok_or_keeps (k a)) ->
  ok_or_keeps (bind m k).
Proof.
  intros Hm Hk s H. specialize (Hm s H). unfold bind.
  destruct (m s) as [[a|e] s']; cbn in *.
  - apply Hk, Hm.
  - right. exact Hm.
Qed.

Lemma adopt_returns_ok (p : Path) (names : list string) (objs : list nat)
    (s : St) :
  fst (adopt_new_objects h p names objs s) = Ok "OK".
Proof. reflexivity. Qed.

Lemma import_failure_logged_keeps (p : Path) (f : string) (q : Q) :
  keeps (about_self P)
    (try_except
       (bind (call_stl_import h f q) (fun _ => ret true))
       (fun e =>
          bind (logger_error ("Import failed for " +:+ path_str p +:+ ": " +:+ e))
               (fun _ => ret false))).
Proof.
  apply keeps_try_except.
  - apply keeps_bind; [apply call_stl_import_keeps|intros _; apply keeps_ret].
  - intros e. apply keeps_bind; [apply in_world_keeps|intros _; apply keeps_ret].
Qed.

Lemma import_phase_ok_or (p : Path) (out : string) (q : Q) (names : list string) :
  ok_or_keeps (import_phase h p out q names).
Proof.
  unfold import_phase.
  apply ok_or_bind; [apply self_keeps|intros o].
  apply ok_or_bind; [apply announce_keeps|intros _].
  apply ok_or_bind; [apply world_keeps|intros w].
  apply ok_or_bind; [apply import_failure_logged_keeps|intros imported].
  destruct imported; cbn [negb]; [|apply keeps_ok_or, keeps_ret].
  apply ok_or_bind; [apply world_keeps|intros w'].
  destruct (filter _ _); [apply keeps_ok_or, keeps_ret|].
  intros s _. left. apply adopt_returns_ok.
Qed.

Lemma convert_phase_ok_or (p : Path) (out : string) :
  ok_or_keeps (convert_phase h p out).
Proof.
  unfold convert_phase.
  apply ok_or_bind; [apply determine_unit_scale_keeps|intros q].
  apply ok_or_bind; [apply self_keeps|intros o].
  apply ok_or_bind; [apply on_engine_keeps|intros [[success message] names]].
  destruct success; cbn [negb].
  - apply ok_or_bind; [apply world_keeps|intros w].
    destruct (negb _).
    + apply keeps_ok_or.
      apply keeps_bind; [apply in_world_keeps|intros _; apply keeps_ret].
    + apply import_phase_ok_or.
  - apply keeps_ok_or.
    apply keeps_bind; [apply in_world_keeps|intros _].
    apply keeps_bind; [apply in_world_keeps|intros _; apply keeps_ret].
Qed.

Lemma temp_file_failure_logged_keeps :
  keeps (about_self P)
    (try_except
       (bind (create_temp_file h) (fun p => ret (Some p)))
       (fun e =>
          bind (logger_error ("Failed to create temp file: " +:+ e))
               (fun _ => ret None))).
Proof.
  apply keeps_try_except.
  - apply keeps_bind; [apply create_temp_file_keeps|intros p; apply keeps_ret].
  - intros e. apply keeps_bind; [apply in_world_keeps|intros _; apply keeps_ret].
Qed.

Lemma process_ok_or : ok_or_keeps (_process_current_file h).
Proof.
  unfold _process_current_file.
  apply ok_or_bind; [apply self_keeps|intros o].
  destruct (_ !! _) as [p|]; [|intros s H; right; exact H].
  apply ok_or_bind; [apply announce_keeps|intros _].
  apply ok_or_bind; [apply temp_file_failure_logged_keeps|intros [out|]].
  - apply convert_phase_ok_or.
  - apply keeps_ok_or, keeps_ret.
Qed.

Hypothesis imported_irrelevant :
  forall l o, P o -> P (set_all_imported_objects l o).

Lemma adopt_keeps (p : Path) (names : list string) (objs : list nat) :
  keeps (about_self P) (adopt_new_objects h p names objs).
Proof.
  unfold adopt_new_objects.
  apply keeps_bind; [apply self_keeps|intros o].
  apply keeps_bind; [apply in_scene_keeps|intros _].
  apply keeps_bind; [apply in_scene_keeps|intros _].
  apply keeps_bind; [apply in_scene_keeps|intros _].
  apply keeps_bind; [|intros _; apply keeps_ret].
  intros s H. apply imported_irrelevant, H.
Qed.

Lemma import_phase_keeps (p : Path) (out : string) (q : Q) (names : list string) :
  keeps (about_self P) (import_phase h p out q names).
Proof.
  unfold import_phase.
  apply keeps_bind; [apply self_keeps|intros o].
  apply keeps_bind; [apply announce_keeps|intros _].
  apply keeps_bind; [apply world_keeps|intros w].
  apply keeps_bind; [apply import_failure_logged_keeps|intros imported].
  apply keeps_if; [apply keeps_ret|].
  apply keeps_bind; [apply world_keeps|intros w'].
  destruct (filter _ _); [apply keeps_ret|apply adopt_keeps].
Qed.

Lemma convert_phase_keeps (p : Path) (out : string) :
  keeps (about_self P) (convert_phase h p out).
Proof.
  unfold convert_phase.
  apply keeps_bind; [apply determine_unit_scale_keeps|intros q].
  apply keeps_bind; [apply self_keeps|intros o].
  apply keeps_bind; [apply on_engine_keeps|intros [[success message] names]].
  apply keeps_if.
  - apply keeps_bind; [apply in_world_keeps|intros _].
    apply keeps_bind; [apply in_world_keeps|intros _; apply keeps_ret].
  - apply keeps_bind; [apply world_keeps|intros w].
    apply keeps_if; [|apply import_phase_keeps].
    apply keeps_bind; [apply in_world_keeps|intros _; apply keeps_ret].
Qed.

Lemma process_keeps : keeps (about_self P) (_process_current_file h).
Proof.
  unfold _process_current_file.
  apply keeps_bind; [apply self_keeps|intros o].
  destruct (_ !! _) as [p|]; [|intros s H; exact H].
  apply keeps_bind; [apply announce_keeps|intros _].
  apply keeps_bind; [apply temp_file_failure_logged_keeps|intros [out|]].
  - apply convert_phase_keeps.
  - apply keeps_ret.
Qed.

End DriverFrames.

Section DriverReturns.
Import LADDER_OT_import_cad.
Variable h : Host.

Lemma in_world_returns (f : World -> World) : returns (in_world f).
Proof. apply returns_modify. Qed.

Lemma in_scene_returns (f : Scene -> Scene) : returns (in_scene f).
Proof. apply returns_modify. Qed.

Lemma self_returns : returns self.
Proof. intros s. eexists. reflexivity. Qed.

Lemma world_returns : returns world.
Proof. intros s. eexists. reflexivity. Qed.

Lemma on_engine_returns {A} (f : Engine -> A * Engine) : returns (on_engine f).
Proof. intros s. unfold on_engine. destruct (f _). eexists. reflexivity. Qed.

Lemma announce_returns (i : nat) (n ph : string) : returns (announce i n ph).
Proof. apply returns_bind; [|intros _]; apply in_world_returns. Qed.

Lemma determine_unit_scale_returns (p : Path) :
  returns (determine_unit_scale h p).
Proof.
  unfold determine_unit_scale.
  apply returns_bind; [apply self_returns|intros o].
  apply returns_if; [|apply returns_ret].
  apply returns_bind; [apply on_engine_returns|intros i; apply returns_ret].
Qed.

Lemma adopt_returns (p : Path) (names : list string) (objs : list nat) :
  returns (adopt_new_objects h p names objs).
Proof. intros s. eexists. reflexivity. Qed.

Lemma import_phase_returns (p : Path) (out : string) (q : Q)
    (names : list string) :
  returns (import_phase h p out q names).
Proof.
  unfold import_phase.
  apply returns_bind; [apply self_returns|intros o].
  apply returns_bind; [apply announce_returns|intros _].
  apply returns_bind; [apply world_returns|intros w].
  apply returns_bind; [|intros imported].
  { apply returns_try_except. intros e.
    apply returns_bind; [apply in_world_returns|intros _; apply returns_ret]. }
  apply returns_if; [apply returns_ret|].
  apply returns_bind; [apply world_returns|intros w'].
  destruct (filter _ _); [apply returns_ret|apply adopt_returns].
Qed.

Lemma convert_phase_returns (p : Path) (out : string) :
  returns (convert_phase h p out).
Proof.
  unfold convert_phase.
  apply returns_bind; [apply determine_unit_scale_returns|intros q].
  apply returns_bind; [apply self_returns|intros o].
  apply returns_bind; [apply on_engine_returns|intros [[success message] names]].
  apply returns_if.
  - apply returns_bind; [apply in_world_returns|intros _].
    apply returns_bind; [apply in_world_returns|intros _; apply returns_ret].
  - apply returns_bind; [apply world_returns|intros w].
    apply returns_if; [|apply import_phase_returns].
    apply returns_bind; [apply in_world_returns|intros _; apply returns_ret].
Qed.

(** With a file at the current index, [_process_current_file] returns
    'OK' or 'ERROR' and does not raise. *)
Lemma process_returns (s : St) (p : Path) :
  _files_to_process (fst s) !! _current_index (fst s) = Some p ->
  exists r, fst (_process_current_file h s) = Ok r.
Proof.
  intros Hp. unfold _process_current_file. unfold bind at 1. unfold self at 1.
  cbn [fst snd]. rewrite Hp.
  apply returns_bind; [apply announce_returns|intros _].
  apply returns_bind; [|intros [out|]].
  - apply returns_try_except. intros e.
    apply returns_bind; [apply in_world_returns|intros _; apply returns_ret].
  - apply convert_phase_returns.
  - apply returns_ret.
Qed.

End DriverReturns.

(** ** The modal loop *)

Lemma modal_ESC (h : Host) (s : LADDER_OT_import_cad.St) :
  LADDER_OT_import_cad.modal h ESC s = LADDER_OT_import_cad._finish h true s.
Proof. reflexivity. Qed.

Lemma modal_TIMER_done (h : Host) (s : LADDER_OT_import_cad.St) :
  (length (_files_to_process (fst s)) <= _current_index (fst s))%nat ->
  LADDER_OT_import_cad.modal h TIMER s = LADDER_OT_import_cad._finish h false s.
Proof.
  intros H. cbn [LADDER_OT_import_cad.modal].
  unfold bind at 1. unfold LADDER_OT_import_cad.self at 1. cbn [fst snd].
  apply Nat.leb_le in H. rewrite H. reflexivity.
Qed.

Lemma modal_TIMER_step (h : Host) (s : LADDER_OT_import_cad.St) :
  (_current_index (fst s) < length (_files_to_process (fst s)))%nat ->
  LADDER_OT_import_cad.modal h TIMER s
  = match LADDER_OT_import_cad._process_current_file h s with
    | (Ok _, (o1, w1)) =>
        let o2 := set_current_index (_current_index o1 + 1) o1 in
        let progress :=
          ((inject_Z (Z.of_nat (_current_index o2))
            / inject_Z (Z.of_nat (length (_files_to_process o2)))) * 100)%Q in
        let w2 := set_wm_progress (Some progress) w1 in
        (Ok RUNNING_MODAL,
         (o2, set_status_text
                (Some (Progress.status_text (import_progress w2))) w2))
    | (Raise e, s1) => (Raise e, s1)
    end.
Proof.
  intros Hlt. cbn [LADDER_OT_import_cad.modal].
  unfold bind at 1. unfold LADDER_OT_import_cad.self at 1. cbn [fst snd].
  assert (Hleb : (length (_files_to_process (fst s)) <=? _current_index (fst s))%nat = false)
    by (apply Nat.leb_gt; exact Hlt).
  rewrite Hleb. unfold bind at 1.
  destruct (LADDER_OT_import_cad._process_current_file h s) as [[res|e] [o1 w1]];
    reflexivity.
Qed.

(** A timer tick with files left processes one file and moves on to the
    next, whatever became of the file; unless the file was imported, the
    list of imported objects is as before. *)
Lemma timer_tick (h : Host) (s : LADDER_OT_import_cad.St) :
  (_current_index (fst s) < length (_files_to_process (fst s)))%nat ->
  let r := LADDER_OT_import_cad.modal h TIMER s in
  fst r = Ok RUNNING_MODAL /\
  _current_index (fst (snd r)) = S (_current_index (fst s)) /\
  _files_to_process (fst (snd r)) = _files_to_process (fst s) /\
  (fst (LADDER_OT_import_cad._process_current_file h s) = Ok "OK" \/
   _all_imported_objects (fst (snd r)) = _all_imported_objects (fst s)).
Proof.
  intros Hlt r. unfold r. rewrite (modal_TIMER_step h s Hlt). clear r.
  destruct (lookup_lt_is_Some_2 _ _ Hlt) as [p Hp].
  destruct (process_returns h s p Hp) as [res Hres].
  set (P1 := fun o => _current_index o = _current_index (fst s) /\
                      _files_to_process o = _files_to_process (fst s)).
  set (P2 := fun o => _all_imported_objects o = _all_imported_objects (fst s)).
  assert (HP1 : keeps (about_self P1) (LADDER_OT_import_cad.create_temp_file h))
    by (apply create_temp_file_keeps_stable; intros l o H; exact H).
  assert (HP2 : keeps (about_self P2) (LADDER_OT_import_cad.create_temp_file h))
    by (apply create_temp_file_keeps_stable; intros l o H; exact H).
  pose proof (process_keeps h P1 HP1 ltac:(intros l o H; exact H)
                s (conj eq_refl eq_refl)) as [Hidx Hfiles].
  pose proof (process_ok_or h P2 HP2 s eq_refl) as Himp.
  unfold P2 in Himp. clear HP1 HP2. clearbody P1 P2.
  destruct (LADDER_OT_import_cad._process_current_file h s) as [[res'|e] [o1 w1]];
    cbn [fst snd] in *; [|discriminate].
  repeat split.
  - rewrite Hidx. apply Nat.add_1_r.
  - exact Hfiles.
  - destruct Himp as [Hok|Hsame]; [left; exact Hok|right; exact Hsame].
Qed.

(** Timer ticks alone bring every batch to FINISHED: one tick per file
    left and one more. *)
Lemma ticks_finish (h : Host) (n : nat) (s : LADDER_OT_import_cad.St) :
  (length (_files_to_process (fst s)) - _current_index (fst s))%nat = n ->
  fst (LADDER_OT_import_cad.run_modal h (repeat TIMER (S n)) s) = Ok FINISHED.
Proof.
  revert s. induction n as [|n IH]; intros s Hn.
  - cbn [repeat LADDER_OT_import_cad.run_modal].
    rewrite modal_TIMER_done by lia.
    destruct s as [o w].
    destruct (finish_outcome h false o w) as [Hr _].
    destruct (LADDER_OT_import_cad._finish h false (o, w)) as [[st|e] s'];
      cbn in Hr; inversion Hr; reflexivity.
  - change (repeat TIMER (S (S n))) with (TIMER :: repeat TIMER (S n)).
    cbn [LADDER_OT_import_cad.run_modal].
    destruct (timer_tick h s ltac:(lia)) as (Hr & Hidx & Hfiles & _).
    destruct (LADDER_OT_import_cad.modal h TIMER s) as [[st|e] s'];
      cbn [fst snd] in *; inversion Hr; subst st.
    apply IH. rewrite Hidx, Hfiles. lia.
Qed.

(** A file that fails leaves the imported objects as they were, the
    driver goes on to the next file, and the batch still finishes. *)
Lemma failed_file_is_isolated (h : Host) (s : LADDER_OT_import_cad.St) :
  (_current_index (fst s) < length (_files_to_process (fst s)))%nat ->
  fst (LADDER_OT_import_cad._process_current_file h s) = Ok "ERROR" ->
  let r := LADDER_OT_import_cad.modal h TIMER s in
  fst r = Ok RUNNING_MODAL /\
  _all_imported_objects (fst (snd r)) = _all_imported_objects (fst s) /\
  _current_index (fst (snd r)) = S (_current_index (fst s)) /\
  fst (LADDER_OT_import_cad.run_modal h
         (repeat TIMER
            (S (length (_files_to_process (fst s)) - _current_index (fst s))%nat))
         s) = Ok FINISHED.
Proof.
  intros Hlt Herr r.
  destruct (timer_tick h s Hlt) as (Hr & Hidx & Hfiles & Himp).
  fold r in Hr, Hidx, Hfiles, Himp.
  repeat split; try assumption.
  - destruct Himp as [Hok|Hsame]; [congruence|exact Hsame].
  - apply ticks_finish. reflexivity.
Qed.

(** When [modal] ends the batch, with FINISHED or with CANCELLED, the
    list of temporary files is empty afterwards and every file that was
    registered is gone unless its deletion raised; on CANCELLED the call
    processed no file, and a target collection without objects is
    removed. *)
Lemma modal_end_cleans_up (h : Host) (ev : Event)
    (s : LADDER_OT_import_cad.St) (status : Status) :
  let r := LADDER_OT_import_cad.modal h ev s in
  fst r = Ok status -> status <> RUNNING_MODAL ->
  _temp_files (fst (snd r)) = [] /\
  (forall p, In p (_temp_files (fst s)) -> p ∈ files (engine (snd (snd r))) ->
             exists fs err, unlink h fs p = Raise err) /\
  (forall events, LADDER_OT_import_cad.run_modal h (ev :: events) s = r) /\
  (status = CANCELLED ->
   ev = ESC /\
   _current_index (fst (snd r)) = _current_index (fst s) /\
   _all_imported_objects (fst (snd r)) = _all_imported_objects (fst s) /\
   calls (engine (snd (snd r))) = calls (engine (snd s)) /\
   forall c, _target_collection (fst s) = Some c ->
             collection_objects c (scene (snd s)) = [] ->
             c ∉ collections (scene (snd (snd r)))).
Proof.
  intros r Hr Hstatus.
  assert (Hfin : exists cancelled,
             r = LADDER_OT_import_cad._finish h cancelled s /\
             (cancelled = true -> ev = ESC) /\
             status = if cancelled then CANCELLED else FINISHED).
  { destruct ev.
    - exists true. split; [apply modal_ESC|]. split; [reflexivity|].
      destruct s as [o w].
      destruct (finish_outcome h true o w) as [H _].
      unfold r in Hr. rewrite modal_ESC in Hr. congruence.
    - destruct (le_lt_dec (length (_files_to_process (fst s))) (_current_index (fst s)))
        as [Hdone|Hleft].
      + exists false. split; [apply modal_TIMER_done, Hdone|].
        split; [discriminate|].
        destruct s as [o w].
        destruct (finish_outcome h false o w) as [H _].
        unfold r in Hr. rewrite modal_TIMER_done in Hr by exact Hdone. congruence.
      + destruct (timer_tick h s Hleft) as [H _]. fold r in H. congruence.
    - unfold r in Hr. cbn in Hr. congruence. }
  destruct Hfin as (cancelled & Hfin & Hesc & ->).
  destruct s as [o w].
  destruct (finish_outcome h cancelled o w)
    as (Hres & Htemp & Hidx & _ & Himp & Heng & _ & Hcoll).
  rewrite <- Hfin in Hres, Htemp, Hidx, Himp, Heng, Hcoll.
  destruct (cleanup_temp_files_spec h (_temp_files o) (engine w))
    as (Hcalls & _ & _ & Hgone).
  cbn [fst snd].
  split; [exact Htemp|]. split; [|split].
  - intros p Hp Hin. apply (Hgone p Hp). rewrite <- Heng. exact Hin.
  - intros events. cbn [LADDER_OT_import_cad.run_modal].
    fold r. destruct r as [[st|e] s']; cbn in Hres; [|discriminate].
    inversion Hres; subst st. destruct cancelled; reflexivity.
  - intros Hc. destruct cancelled; [|discriminate].
    split; [apply Hesc; reflexivity|].
    split; [exact Hidx|]. split; [exact Himp|]. split.
    + rewrite Heng. exact Hcalls.
    + apply Hcoll. reflexivity.
Qed.

(** As long as the batch runs, what is registered stays registered. *)
Lemma modal_keeps_registered (h : Host) (ev : Event)
    (s s' : LADDER_OT_import_cad.St) (p : string) :
  LADDER_OT_import_cad.modal h ev s = (Ok RUNNING_MODAL, s') ->
  In p (_temp_files (fst s)) -> In p (_temp_files (fst s')).
Proof.
  intros Hrun Hp. destruct ev.
  - rewrite modal_ESC in Hrun. destruct s as [o w].
    destruct (finish_outcome h true o w) as [H _].
    rewrite Hrun in H. discriminate H.
  - destruct (le_lt_dec (length (_files_to_process (fst s))) (_current_index (fst s)))
      as [Hdone|Hleft].
    + rewrite modal_TIMER_done in Hrun by exact Hdone. destruct s as [o w].
      destruct (finish_outcome h false o w) as [H _].
      rewrite Hrun in H. discriminate H.
    + rewrite (modal_TIMER_step h s Hleft) in Hrun.
      pose proof (process_keeps h (fun o => In p (_temp_files o))
                    (create_temp_file_keeps_registered h p)
                    ltac:(intros l o H; exact H) s Hp) as Hkept.
      destruct (LADDER_OT_import_cad._process_current_file h s)
        as [[res|e] [o1 w1]]; [|discriminate].
      inversion Hrun; subst s'. exact Hkept.
  - cbn in Hrun. inversion Hrun; subst s'. exact Hp.
Qed.

(** C4: whenever a run of the modal loop ends the batch, with FINISHED or
    with CANCELLED, the list of temporary files is empty afterwards and
    every file that was registered, at the start or at any point since, is
    gone from the disk unless its deletion raised (which stops nothing:
    the outcome is still reported); the host hands no further event to
    the operator; and on CANCELLED the run ended at an ESC event whose
    handling processed no file (same index, same imported objects, no
    engine call) and removed the target collection if it had no
    objects. *)
Theorem batch_end_cleans_up (h : Host) (events : list Event)
    (s : LADDER_OT_import_cad.St) (status : Status) :
  let r := LADDER_OT_import_cad.run_modal h events s in
  fst r = Ok status -> status <> RUNNING_MODAL ->
  _temp_files (fst (snd r)) = [] /\
  (forall p, In p (_temp_files (fst s)) -> p ∈ files (engine (snd (snd r))) ->
             exists fs err, unlink h fs p = Raise err) /\
  (forall more, LADDER_OT_import_cad.run_modal h (events ++ more) s = r) /\
  (status = CANCELLED ->
   exists before after s1,
     events = before ++ ESC :: after /\
     LADDER_OT_import_cad.run_modal h before s = (Ok RUNNING_MODAL, s1) /\
     (forall p, In p (_temp_files (fst s)) -> In p (_temp_files (fst s1))) /\
     r = LADDER_OT_import_cad.modal h ESC s1 /\
     _current_index (fst (snd r)) = _current_index (fst s1) /\
     _all_imported_objects (fst (snd r)) = _all_imported_objects (fst s1) /\
     calls (engine (snd (snd r))) = calls (engine (snd s1)) /\
     forall c, _target_collection (fst s1) = Some c ->
               collection_objects c (scene (snd s1)) = [] ->
               c ∉ collections (scene (snd (snd r)))).
Proof.
  revert s. induction events as [|ev rest IH]; intros s r Hr Hstatus.
  - cbn in Hr. congruence.
  - unfold r in *. clear r. cbn [LADDER_OT_import_cad.run_modal app] in *.
    destruct (LADDER_OT_import_cad.modal h ev s) as [[st|e] s'] eqn:E;
      [|cbn in Hr; discriminate].
    destruct st.
    + destruct (IH s' Hr Hstatus) as (Htemp & Hgone & Hmore & Hc).
      split; [exact Htemp|]. split; [|split].
      * intros p Hp. apply Hgone. apply (modal_keeps_registered h ev s s' p E Hp).
      * exact Hmore.
      * intros Hcan.
        destruct (Hc Hcan) as (before & after & s1 & -> & Hrun & Hreg & Hrest).
        exists (ev :: before), after, s1. split; [reflexivity|]. split.
        { cbn [LADDER_OT_import_cad.run_modal]. rewrite E. exact Hrun. }
        split; [|exact Hrest].
        intros p Hp. apply Hreg. apply (modal_keeps_registered h ev s s' p E Hp).
    + cbn [fst snd] in *. inversion Hr; subst status.
      pose proof (modal_end_cleans_up h ev s FINISHED) as Hone.
      rewrite E in Hone. cbn [fst snd] in Hone.
      destruct (Hone eq_refl Hstatus) as (Htemp & Hgone & _ & _).
      split; [exact Htemp|]. split; [exact Hgone|]. split; [reflexivity|].
      discriminate.
    + cbn [fst snd] in *. inversion Hr; subst status.
      pose proof (modal_end_cleans_up h ev s CANCELLED) as Hone.
      rewrite E in Hone. cbn [fst snd] in Hone.
      destruct (Hone eq_refl Hstatus) as (Htemp & Hgone & _ & Hc).
      split; [exact Htemp|]. split; [exact Hgone|]. split; [reflexivity|].
      intros _. destruct (Hc eq_refl) as (-> & Hrest).
      exists [], rest, s. split; [reflexivity|]. split; [reflexivity|].
      split; [auto|]. split; [symmetry; exact E|exact Hrest].
Qed.

Lemma batch_end_cleans_up_witness :
  _temp_files (fst Demo.after_first_file) = ["/tmp/0.stl"] /\
  ("/tmp/0.stl" ∈ files (engine (snd Demo.after_first_file))) /\
  (let r := LADDER_OT_import_cad.run_modal Demo.silent_second_host
              [OTHER_EVENT; ESC; TIMER] Demo.after_first_file in
   fst r = Ok CANCELLED /\
   _temp_files (fst (snd r)) = [] /\
   ("/tmp/0.stl" ∉ files (engine (snd (snd r))))) /\
  (let r := LADDER_OT_import_cad.run_modal Demo.silent_second_host
              [TIMER; TIMER; TIMER; TIMER] Demo.three_file_batch in
   fst r = Ok FINISHED /\ _temp_files (fst (snd r)) = []).
Proof.
  assert (Hreg : _temp_files (fst Demo.after_first_file) = ["/tmp/0.stl"])
    by (vm_compute; reflexivity).
  assert (Hr1 : fst (LADDER_OT_import_cad.run_modal Demo.silent_second_host
                       [OTHER_EVENT; ESC; TIMER] Demo.after_first_file)
                = Ok CANCELLED)
    by (vm_compute; reflexivity).
  assert (Hr2 : fst (LADDER_OT_import_cad.run_modal Demo.silent_second_host
                       [TIMER; TIMER; TIMER; TIMER] Demo.three_file_batch)
                = Ok FINISHED)
    by (vm_compute; reflexivity).
  split; [exact Hreg|]. split; [vm_compute; reflexivity|].
  pose proof (batch_end_cleans_up Demo.silent_second_host
                [OTHER_EVENT; ESC; TIMER] Demo.after_first_file CANCELLED Hr1
                ltac:(discriminate)) as (Htemp1 & Hgone & _).
  pose proof (batch_end_cleans_up Demo.silent_second_host
                [TIMER; TIMER; TIMER; TIMER] Demo.three_file_batch FINISHED Hr2
                ltac:(discriminate)) as (Htemp2 & _).
  split.
  - split; [exact Hr1|]. split; [exact Htemp1|].
    intros Hin. destruct (Hgone "/tmp/0.stl") as (fs & err & Hu).
    + rewrite Hreg. left. reflexivity.
    + exact Hin.
    + discriminate Hu.
  - split; [exact Hr2|exact Htemp2].
Defined.

(** ** Unit scale *)

Lemma unit_scales_table :
  UNIT_SCALES !! "MICROMETERS" = Some (1 # 1000000)%Q /\
  UNIT_SCALES !! "MILLIMETERS" = Some (1 # 1000)%Q /\
  UNIT_SCALES !! "CENTIMETERS" = Some (1 # 100)%Q /\
  UNIT_SCALES !! "METERS" = Some (1 # 1)%Q /\
  UNIT_SCALES !! "INCHES" = Some (254 # 10000)%Q /\
  UNIT_SCALES !! "FEET" = Some (3048 # 10000)%Q /\
  UNIT_SCALES !! "UNKNOWN" = None /\
  UNIT_SCALES !! "AUTO" = None.
Proof. vm_compute. repeat split. Qed.

(** With an explicit source unit the scale is the table's. *)
Lemma explicit_unit_scale (h : Host) (p : Path) (o : Operator) (w : World) :
  source_unit o <> AUTO ->
  exists v, UNIT_SCALES !! unit_id (source_unit o) = Some v /\
            LADDER_OT_import_cad.determine_unit_scale h p (o, w)
            = (Ok v, (o, w)).
Proof.
  intros Hu. unfold LADDER_OT_import_cad.determine_unit_scale.
  unfold bind at 1. unfold LADDER_OT_import_cad.self at 1. cbn [fst snd].
  destruct unit_scales_table as (H1 & H2 & H3 & H4 & H5 & H6 & _).
  unfold LADDER_OT_import_cad.scale_or.
  destruct (source_unit o); [congruence| | | | | |]; cbn [unit_id String.eqb];
    eexists; (split; [eassumption|]).
  - rewrite H1. reflexivity.
  - rewrite H2. reflexivity.
  - rewrite H3. reflexivity.
  - rewrite H4. reflexivity.
  - rewrite H5. reflexivity.
  - rewrite H6. reflexivity.
Qed.

(** With automatic detection the scale is the table's for the estimated
    unit, and stays at 1 when the table does not have it. *)
Lemma auto_unit_scale (h : Host) (p : Path) (o : Operator) (w : World) :
  source_unit o = AUTO ->
  fst (LADDER_OT_import_cad.determine_unit_scale h p (o, w))
  = Ok (LADDER_OT_import_cad.scale_or 1
          (estimated_unit (fst (GmshManager.get_model_info (gmsh h) p (engine w))))).
Proof.
  intros Hu. unfold LADDER_OT_import_cad.determine_unit_scale.
  unfold bind at 1. unfold LADDER_OT_import_cad.self at 1. cbn [fst snd].
  rewrite Hu. cbn [unit_id]. rewrite String.eqb_refl.
  unfold bind, LADDER_OT_import_cad.on_engine. cbn [fst snd].
  destruct (GmshManager.get_model_info (gmsh h) p (engine w)) as [info e'].
  reflexivity.
Qed.

(** C2: the specification wants the millimeter scale, 0.001, when the
    estimation is inconclusive.  With automatic detection on a file in
    which the engine finds no entity, the estimated unit is UNKNOWN, which
    is not in the table, and the scale stays at its initial 1.0: the
    millimeter default of [info.get] is never used, the key being always
    present. *)
Theorem inconclusive_detection_scale_is_one :
  let h := Demo.undetectable_host in
  let info := fst (GmshManager.get_model_info (gmsh h) Demo.bracket_step
                     (engine (snd Demo.auto_batch))) in
  source_unit (fst Demo.auto_batch) = AUTO /\
  estimated_unit info = "UNKNOWN" /\
  fst (LADDER_OT_import_cad.determine_unit_scale h Demo.bracket_step
         Demo.auto_batch) = Ok 1%Q /\
  UNIT_SCALES !! "MILLIMETERS" = Some (1 # 1000)%Q /\
  ~ (1 == 1 # 1000)%Q.
Proof.
  cbv zeta. split; [reflexivity|]. split; [reflexivity|].
  split; [vm_compute; reflexivity|]. split; [apply unit_scales_table|].
  intros H. discriminate H.
Qed.

(** C9: the unit estimated by [get_model_info] is one of UNKNOWN,
    MILLIMETERS, CENTIMETERS and METERS (each of which some model gives),
    never MICROMETERS, INCHES or FEET; so with automatic detection the
    unit scale is never the table's value for micrometers, inches or
    feet. *)
Theorem detection_never_small_or_imperial (h : Host) (p : Path)
    (o : Operator) (w : World) :
  let info := fst (GmshManager.get_model_info (gmsh h) p (engine w)) in
  In (estimated_unit info) detectable_units /\
  ~ In (estimated_unit info) ["MICROMETERS"; "INCHES"; "FEET"] /\
  (forall u, In u detectable_units ->
     exists g, estimated_unit
                 (fst (GmshManager.get_model_info g p Demo.fresh_engine)) = u) /\
  (source_unit o = AUTO ->
   exists v,
     fst (LADDER_OT_import_cad.determine_unit_scale h p (o, w)) = Ok v /\
     forall u s, In u ["MICROMETERS"; "INCHES"; "FEET"] ->
                 UNIT_SCALES !! u = Some s -> ~ (v == s)%Q).
Proof.
  intros info.
  pose proof (estimated_unit_detectable (gmsh h) p (engine w)) as Hin.
  fold info in Hin.
  split; [exact Hin|]. split; [|split].
  - unfold detectable_units in Hin. cbn in Hin |- *.
    intros Hbad.
    destruct Hin as [E|[E|[E|[E|[]]]]]; rewrite <- E in Hbad;
      intuition discriminate.
  - intros u Hu. cbn in Hu.
    destruct Hu as [ <- | [ <- | [ <- | [ <- | [] ] ] ] ].
    + exists Demo.empty_model_gmsh. unfold GmshManager.get_model_info,
        GmshManager.get_model_info_try, GmshManager.load_file.
      destruct (GmshManager.is_brep_ext _); reflexivity.
    + exists (Demo.box_gmsh 2000). unfold GmshManager.get_model_info,
        GmshManager.get_model_info_try, GmshManager.load_file.
      destruct (GmshManager.is_brep_ext _); reflexivity.
    + exists (Demo.box_gmsh 100). unfold GmshManager.get_model_info,
        GmshManager.get_model_info_try, GmshManager.load_file.
      destruct (GmshManager.is_brep_ext _); reflexivity.
    + exists (Demo.box_gmsh 2). unfold GmshManager.get_model_info,
        GmshManager.get_model_info_try, GmshManager.load_file.
      destruct (GmshManager.is_brep_ext _); reflexivity.
  - intros Hauto. eexists. split; [apply auto_unit_scale, Hauto|].
    fold info.
    destruct unit_scales_table as (H1 & H2 & H3 & H4 & H5 & H6 & H7 & _).
    intros u s Hu Hs Heq.
    unfold LADDER_OT_import_cad.scale_or in Heq.
    assert (Hs' : s = (1 # 1000000)%Q \/ s = (254 # 10000)%Q \/ s = (3048 # 10000)%Q).
    { cbn in Hu. destruct Hu as [ <- | [ <- | [ <- | [] ] ] ]; rewrite Hs in *.
      - left. congruence.
      - right. left. congruence.
      - right. right. congruence. }
    unfold detectable_units in Hin. cbn in Hin.
    destruct Hin as [E|[E|[E|[E|[]]]]]; rewrite <- E in Heq;
      rewrite ?H2, ?H3, ?H4, ?H7 in Heq;
      destruct Hs' as [ -> | [ -> | -> ] ]; discriminate Heq.
Qed.

Lemma detection_never_small_or_imperial_witness :
  exists v,
    fst (LADDER_OT_import_cad.determine_unit_scale
           (Demo.host_with Demo.cube_gmsh "") Demo.bracket_step
           (Demo.operator_for [Demo.bracket_step] AUTO None, Demo.quiet_world 1))
    = Ok v /\
    ~ (v == 1 # 1000000)%Q.
Proof.
  destruct (proj2 (proj2 (proj2
              (detection_never_small_or_imperial
                 (Demo.host_with Demo.cube_gmsh "") Demo.bracket_step
                 (Demo.operator_for [Demo.bracket_step] AUTO None)
                 (Demo.quiet_world 1)))) eq_refl) as (v & Hv & Hnot).
  exists v. split; [exact Hv|].
  apply (Hnot "MICROMETERS"); [left; reflexivity|apply unit_scales_table].
Defined.

(** ** Failures that leave no warning *)

(** C1: the specification wants one warning for every file that fails.
    In a batch of three files whose second import creates no object, the
    second file is reported to the driver as 'ERROR', contributes no
    object, and the batch goes on to FINISHED with the objects of the
    first and third file; but no warning is reported and nothing is
    logged for it.  A conversion that fails does get its warning. *)
Theorem silent_failure_without_warning :
  let h := Demo.silent_second_host in
  let r := LADDER_OT_import_cad.run_modal h [TIMER; TIMER; TIMER; TIMER]
             Demo.three_file_batch in
  let r' := LADDER_OT_import_cad.run_modal Demo.unmeshable_host [TIMER; TIMER]
              Demo.auto_batch in
  fst (LADDER_OT_import_cad._process_current_file h Demo.after_first_file)
  = Ok "ERROR" /\
  fst r = Ok FINISHED /\
  _all_imported_objects (fst (snd r)) = [0; 1]%nat /\
  reports (snd (snd r))
  = [("INFO", "Imported 2 object(s) from 3 files in 0.10s")] /\
  logged (snd (snd r)) = [] /\
  reports (snd (snd r'))
  = [("WARNING",
      "Failed to convert bracket.STEP: Failed to generate mesh: no surface");
     ("INFO", "Imported 0 object(s) in 0.10s")].
Proof. vm_compute. repeat split. Qed.

(** * Further properties *)

(** ** The availability probe *)

(** X1: the probe is memoized: once [is_available] has answered, it gives
    the same answer without probing again, whatever has become of the
    installation, until [reset_cache]; after [reset_cache] it probes
    again.  It makes no engine call and touches no file. *)
Theorem is_available_memoized (g g' : Gmsh) (e : Engine) :
  let r := GmshManager.is_available g e in
  _gmsh_available (snd r) = Some (fst r) /\
  GmshManager.is_available g' (snd r) = r /\
  fst (GmshManager.is_available g' (GmshManager.reset_cache (snd r)))
  = importable g' /\
  (_gmsh_available e = None -> fst r = importable g) /\
  calls (snd r) = calls e /\ files (snd r) = files e.
Proof.
  unfold GmshManager.is_available, GmshManager.reset_cache.
  destruct (_gmsh_available e) as [b|] eqn:E.
  - cbn. rewrite E. repeat split; try discriminate.
    destruct (importable g'); reflexivity.
  - destruct (importable g); cbn; repeat split;
      destruct (importable g'); reflexivity.
Qed.

(** ** Reasoning about what a computation returns *)

Lemma lands_ret {S A} (a : A) (P : S -> Prop) (Q : A -> S -> Prop) :
  (forall s, P s -> Q a s) -> lands P (ret a) Q.
Proof. intros H s HP a' Ha. inversion Ha; subst. apply H, HP. Qed.

Lemma lands_bind {S A B} (P : S -> Prop) (R : A -> S -> Prop)
    (Q : B -> S -> Prop) (m : M S A) (k : A -> M S B) :
  lands P m R -> (forall a, lands (R a) (k a) Q) -> lands P (bind m k) Q.
Proof.
  intros Hm Hk s HP b. specialize (Hm s HP). unfold bind.
  destruct (m s) as [[a|e] s']; cbn in *; [|discriminate].
  apply Hk, Hm. reflexivity.
Qed.

(** After a step whose state is known whether it returns or raises. *)
Lemma lands_after {S A B} (P R : S -> Prop) (Q : B -> S -> Prop)
    (m : M S A) (k : A -> M S B) :
  moves P m R -> (forall a, lands R (k a) Q) -> lands P (bind m k) Q.
Proof.
  intros Hm Hk s HP b. specialize (Hm s HP). unfold bind.
  destruct (m s) as [[a|e] s']; cbn in *; [|discriminate].
  apply Hk, Hm.
Qed.

Lemma lands_weaken {S A} (P P' : S -> Prop) (Q Q' : A -> S -> Prop)
    (m : M S A) :
  lands P m Q -> (forall s, P' s -> P s) -> (forall a s, Q a s -> Q' a s) ->
  lands P' m Q'.
Proof. intros Hm HP HQ s H a Ha. apply HQ, (Hm s (HP s H) a Ha). Qed.

Lemma lands_given {S A} (V : Prop) (P : S -> Prop) (Q : A -> S -> Prop)
    (m : M S A) :
  (V -> lands P m Q) -> lands (fun s => V /\ P s) m Q.
Proof. intros H s [HV HP]. apply H; assumption. Qed.

(** What [try_return] leaves, from what the body and the handler leave. *)
Lemma try_return_lands {S A} (P R : S -> Prop) (Q : A -> S -> Prop)
    (m : M S A) (handler : string -> S -> A * S) (s : S) :
  lands P m Q -> moves P m R ->
  (forall e s', R s' -> Q (fst (handler e s')) (snd (handler e s'))) ->
  P s ->
  Q (fst (try_return m handler s)) (snd (try_return m handler s)).
Proof.
  intros Hl Hm Hh HP. specialize (Hl s HP). specialize (Hm s HP).
  unfold try_return. destruct (m s) as [[a|e] s']; cbn in *.
  - apply Hl. reflexivity.
  - apply Hh, Hm.
Qed.

(** ** Walking through the engine-facing code *)

Section StableWalk.
Context {L : Type}.
Variable P : Engine * L -> Prop.
Hypothesis Pcall : call_stable P.
Hypothesis Plocal : local_stable P.

Lemma call_keeps_stable {A} (c : GmshCall) (answer : history -> result A) :
  keeps P (GmshManager.call c answer).
Proof. intros s H. apply Pcall, H. Qed.

Lemma local_keeps_stable (f : L -> L) : keeps P (GmshManager.local f).
Proof. intros s H. apply Plocal, H. Qed.

Lemma write_keeps_stable (g : Gmsh) (p : string) :
  write_stable P -> keeps P (GmshManager.write g p).
Proof. intros Pwrite s H. apply Pwrite, H. Qed.

Lemma load_file_keeps_stable (g : Gmsh) (p : Path)
    (before_import : M (Engine * L) unit) :
  keeps P before_import -> keeps P (GmshManager.load_file g p before_import).
Proof.
  intros Hb. unfold GmshManager.load_file. apply keeps_if.
  - apply keeps_bind; [exact Hb|intros _].
    apply keeps_bind; [apply call_keeps_stable|intros _].
    apply call_keeps_stable.
  - apply call_keeps_stable.
Qed.

Lemma or_fail_keeps_stable (g : Gmsh) (m : M (Engine * L) unit) (msg : string)
    (rest : M (Engine * L) GmshManager.ConversionResult) :
  keeps P m -> keeps P rest -> keeps P (GmshManager.or_fail g m msg rest).
Proof.
  intros Hm Hrest. unfold GmshManager.or_fail. apply keeps_bind.
  - apply keeps_try_except.
    + apply keeps_bind; [exact Hm|intros _; apply keeps_ret].
    + intros e. apply keeps_bind; [apply call_keeps_stable|intros _; apply keeps_ret].
  - intros [r|]; [apply keeps_ret|exact Hrest].
Qed.

End StableWalk.

Lemma info_part_names_keeps_stable (P : Engine * ModelInfo -> Prop) (g : Gmsh)
    (ents : list (Z * Z)) :
  call_stable P -> local_stable P ->
  keeps P (GmshManager.info_part_names g ents).
Proof.
  intros Pcall Plocal.
  induction ents as [|[dim tag] ents IH]; cbn [GmshManager.info_part_names].
  - apply keeps_ret.
  - apply keeps_bind; [apply call_keeps_stable, Pcall|intros n].
    apply keeps_bind; [apply read_local_keeps|intros i].
    apply keeps_bind; [|intros _; exact IH].
    apply keeps_if; [apply local_keeps_stable, Plocal|apply keeps_ret].
Qed.

Lemma convert_part_names_keeps_stable (P : Engine * list string -> Prop)
    (g : Gmsh) (ents : list (Z * Z)) :
  call_stable P -> local_stable P ->
  keeps P (GmshManager.convert_part_names g ents).
Proof.
  intros Pcall Plocal.
  induction ents as [|[dim tag] ents IH]; cbn [GmshManager.convert_part_names].
  - apply keeps_ret.
  - apply keeps_bind; [apply call_keeps_stable, Pcall|intros n].
    apply keeps_bind; [|intros _; exact IH].
    apply keeps_if; [apply local_keeps_stable, Plocal|apply keeps_ret].
Qed.

(** What follows the load in [get_model_info]. *)
Lemma get_model_info_rest_keeps_stable (P : Engine * ModelInfo -> Prop)
    (g : Gmsh) :
  call_stable P -> local_stable P ->
  keeps P
    (bind (GmshManager.local (GmshManager.set_valid true)) (fun _ =>
     bind (GmshManager.getEntities g) (fun ents =>
     bind (GmshManager.local
             (GmshManager.set_entities (Z.of_nat (length ents)))) (fun _ =>
     bind (GmshManager.local
             (fun i => fold_left GmshManager.count_entity ents i)) (fun _ =>
     bind (try_pass
             match ents with
             | [] => ret tt
             | _ :: _ =>
                 bind (GmshManager.getBoundingBox g (-1) (-1)) (fun b =>
                 bind (GmshManager.local
                         (GmshManager.set_bounding_box (GmshManager.box_of b)))
                      (fun _ =>
                 GmshManager.local
                   (GmshManager.set_estimated_unit
                      (GmshManager.estimate_unit (GmshManager.max_dim_of b)))))
             end) (fun _ =>
     bind (try_pass (GmshManager.info_part_names g ents)) (fun _ =>
     GmshManager.finalize g))))))).
Proof.
  intros Pcall Plocal.
  apply keeps_bind; [apply local_keeps_stable, Plocal|intros _].
  apply keeps_bind; [apply call_keeps_stable, Pcall|intros ents].
  apply keeps_bind; [apply local_keeps_stable, Plocal|intros _].
  apply keeps_bind; [apply local_keeps_stable, Plocal|intros _].
  apply keeps_bind; [|intros _].
  { apply keeps_try_pass. destruct ents; [apply keeps_ret|].
    apply keeps_bind; [apply call_keeps_stable, Pcall|intros b].
    apply keeps_bind; [apply local_keeps_stable, Plocal|intros _].
    apply local_keeps_stable, Plocal. }
  apply keeps_bind; [|intros _; apply call_keeps_stable, Pcall].
  apply keeps_try_pass, info_part_names_keeps_stable; assumption.
Qed.

(** What follows [gmsh.initialize()] in [get_model_info]. *)
Lemma get_model_info_opened_keeps_stable (P : Engine * ModelInfo -> Prop)
    (g : Gmsh) (p : Path) :
  call_stable P -> local_stable P ->
  keeps P
    (bind (GmshManager.setNumber g "General.Terminal" 0) (fun _ =>
     bind (GmshManager.model_add g "info") (fun _ =>
     bind (try_except
             (bind (GmshManager.load_file g p (ret tt)) (fun _ => ret true))
             (fun _ => bind (GmshManager.finalize g) (fun _ => ret false)))
          (fun loaded =>
     if negb loaded then ret tt
     else
       bind (GmshManager.local (GmshManager.set_valid true)) (fun _ =>
       bind (GmshManager.getEntities g) (fun ents =>
       bind (GmshManager.local
               (GmshManager.set_entities (Z.of_nat (length ents)))) (fun _ =>
       bind (GmshManager.local
               (fun i => fold_left GmshManager.count_entity ents i)) (fun _ =>
       bind (try_pass
               match ents with
               | [] => ret tt
               | _ :: _ =>
                   bind (GmshManager.getBoundingBox g (-1) (-1)) (fun b =>
                   bind (GmshManager.local
                           (GmshManager.set_bounding_box (GmshManager.box_of b)))
                        (fun _ =>
                   GmshManager.local
                     (GmshManager.set_estimated_unit
                        (GmshManager.estimate_unit (GmshManager.max_dim_of b)))))
               end) (fun _ =>
       bind (try_pass (GmshManager.info_part_names g ents)) (fun _ =>
       GmshManager.finalize g)))))))))).
Proof.
  intros Pcall Plocal.
  apply keeps_bind; [apply call_keeps_stable, Pcall|intros _].
  apply keeps_bind; [apply call_keeps_stable, Pcall|intros _].
  apply keeps_bind; [|intros loaded].
  { apply keeps_try_except.
    - apply keeps_bind; [|intros _; apply keeps_ret].
      apply load_file_keeps_stable; [exact Pcall|apply keeps_ret].
    - intros e.
      apply keeps_bind; [apply call_keeps_stable, Pcall|intros _; apply keeps_ret]. }
  apply keeps_if; [apply keeps_ret|].
  apply get_model_info_rest_keeps_stable; assumption.
Qed.

Lemma get_model_info_try_keeps_stable (P : Engine * ModelInfo -> Prop)
    (g : Gmsh) (p : Path) :
  call_stable P -> local_stable P ->
  keeps P (GmshManager.get_model_info_try g p).
Proof.
  intros Pcall Plocal. unfold GmshManager.get_model_info_try.
  apply keeps_bind; [apply call_keeps_stable, Pcall|intros _].
  apply get_model_info_opened_keeps_stable; assumption.
Qed.

(** What follows [gmsh.initialize()] in [convert_to_stl]. *)
Lemma convert_to_stl_opened_keeps_stable (P : Engine * list string -> Prop)
    (g : Gmsh) (input_path : Path) (output_path : string)
    (mesh_size_min mesh_size_max : Q) (mesh_algorithm : Z)
    (optimize_mesh healing : bool) :
  call_stable P -> local_stable P -> write_stable P ->
  keeps P
    (bind (GmshManager.setNumber g "General.Terminal" 0) (fun _ =>
     bind (GmshManager.model_add g "cad_import") (fun _ =>
     GmshManager.or_fail g
       (GmshManager.load_file g input_path
          (if healing then GmshManager.healing_options g else ret tt))
       "Failed to import CAD file: "
       (bind (try_pass (bind (GmshManager.getEntities g) (fun ents =>
                        GmshManager.convert_part_names g ents))) (fun _ =>
        bind (GmshManager.setNumber g "Mesh.CharacteristicLengthMin" mesh_size_min) (fun _ =>
        bind (GmshManager.setNumber g "Mesh.CharacteristicLengthMax" mesh_size_max) (fun _ =>
        bind (GmshManager.setNumber g "Mesh.Algorithm" (inject_Z mesh_algorithm)) (fun _ =>
        bind (if optimize_mesh
              then bind (GmshManager.setNumber g "Mesh.Optimize" 1) (fun _ =>
                   GmshManager.setNumber g "Mesh.OptimizeNetgen" 1)
              else ret tt) (fun _ =>
        GmshManager.or_fail g (GmshManager.generate g 2) "Failed to generate mesh: "
          (GmshManager.or_fail g (GmshManager.write g output_path) "Failed to write STL: "
             (bind (GmshManager.finalize g) (fun _ =>
              bind GmshManager.read_local (fun names =>
              ret (true, "Conversion successful", names)))))))))))))).
Proof.
  intros Pcall Plocal Pwrite.
  apply keeps_bind; [apply call_keeps_stable, Pcall|intros _].
  apply keeps_bind; [apply call_keeps_stable, Pcall|intros _].
  apply or_fail_keeps_stable; [exact Pcall| |].
  { apply load_file_keeps_stable; [exact Pcall|].
    apply keeps_if; [|apply keeps_ret].
    unfold GmshManager.healing_options.
    repeat (apply keeps_bind; [apply call_keeps_stable, Pcall|intros _]).
    apply call_keeps_stable, Pcall. }
  apply keeps_bind; [|intros _].
  { apply keeps_try_pass.
    apply keeps_bind; [apply call_keeps_stable, Pcall|intros ents].
    apply convert_part_names_keeps_stable; assumption. }
  apply keeps_bind; [apply call_keeps_stable, Pcall|intros _].
  apply keeps_bind; [apply call_keeps_stable, Pcall|intros _].
  apply keeps_bind; [apply call_keeps_stable, Pcall|intros _].
  apply keeps_bind; [|intros _].
  { apply keeps_if; [|apply keeps_ret].
    apply keeps_bind; [apply call_keeps_stable, Pcall|intros _].
    apply call_keeps_stable, Pcall. }
  apply or_fail_keeps_stable; [exact Pcall|apply call_keeps_stable, Pcall|].
  apply or_fail_keeps_stable; [exact Pcall|apply write_keeps_stable; assumption|].
  apply keeps_bind; [apply call_keeps_stable, Pcall|intros _].
  apply keeps_bind; [apply read_local_keeps|intros names].
  apply keeps_ret.
Qed.

Lemma lands_try_except {S A} (P : S -> Prop) (Q : A -> S -> Prop)
    (m : M S A) (handler : string -> M S A) :
  lands P m Q -> (forall e, lands (fun _ => True) (handler e) Q) ->
  lands P (try_except m handler) Q.
Proof.
  intros Hm Hh s HP a. specialize (Hm s HP). unfold try_except.
  destruct (m s) as [[a'|e] s']; cbn in *.
  - intros Ha. inversion Ha; subst. apply Hm. reflexivity.
  - apply Hh. exact I.
Qed.

Lemma moves_anywhere {S A} (P : S -> Prop) (m : M S A) :
  moves P m (fun _ => True).
Proof. intros s _. exact I. Qed.

Lemma call_lands_logged {L A} (c : GmshCall) (answer : history -> result A)
    (P : Engine * L -> Prop) (Q : Engine * L -> Prop) :
  (forall s, P s -> Q (log_call c (fst s), snd s)) ->
  lands P (GmshManager.call c answer) (fun _ => Q).
Proof. intros H s HP a _. apply H, HP. Qed.

Lemma call_moves_logged {L A} (c : GmshCall) (answer : history -> result A)
    (P : Engine * L -> Prop) (Q : Engine * L -> Prop) :
  (forall s, P s -> Q (log_call c (fst s), snd s)) ->
  moves P (GmshManager.call c answer) Q.
Proof. intros H s HP. apply H, HP. Qed.

Lemma opened_from_grows (h0 : history) (c : GmshCall) (h : history) :
  opened_from h0 h -> opened_from h0 (c :: h).
Proof. intros (added & ->). exists (c :: added). reflexivity. Qed.

Lemma called_since_grows (h0 : history) (x c : GmshCall) (h : history) :
  called_since h0 x h -> called_since h0 x (c :: h).
Proof.
  intros (added & -> & Hin). exists (c :: added).
  split; [reflexivity|right; exact Hin].
Qed.

(** A history that starts a session and ends one. *)
Lemma bracket_of (h0 h : history) :
  opened_from h0 h -> last_call_is Finalize h ->
  exists between, h = Finalize :: between ++ Initialize :: h0.
Proof.
  intros (added & ->) (earlier & Heq). destruct added as [|c added].
  - cbn in Heq. discriminate Heq.
  - cbn in Heq. inversion Heq; subst. exists added. reflexivity.
Qed.

Lemma is_available_files (g : Gmsh) (e : Engine) :
  files (snd (GmshManager.is_available g e)) = files e.
Proof.
  unfold GmshManager.is_available.
  destruct (_gmsh_available e); [reflexivity|].
  destruct (importable g); reflexivity.
Qed.

(** *** The session of get_model_info *)

Lemma get_model_info_try_opens (g : Gmsh) (p : Path) (h0 : history) :
  moves (fun s : Engine * ModelInfo => calls (fst s) = h0)
        (GmshManager.get_model_info_try g p)
        (about_calls (opened_from h0)).
Proof.
  unfold GmshManager.get_model_info_try.
  apply (moves_bind _ (about_calls (opened_from h0))).
  - apply call_moves_logged. intros s Hs. exists []. cbn. rewrite Hs. reflexivity.
  - auto.
  - intros _. apply get_model_info_opened_keeps_stable.
    + intros c s. apply opened_from_grows.
    + intros l s H. exact H.
Qed.

Lemma get_model_info_try_closes (g : Gmsh) (p : Path) :
  lands (fun _ => True) (GmshManager.get_model_info_try g p)
        (fun _ s => last_call_is Finalize (calls (fst s))).
Proof.
  unfold GmshManager.get_model_info_try.
  apply (lands_after _ (fun _ => True)); [apply moves_anywhere|intros _].
  apply (lands_after _ (fun _ => True)); [apply moves_anywhere|intros _].
  apply (lands_after _ (fun _ => True)); [apply moves_anywhere|intros _].
  apply (lands_bind _ (fun loaded s =>
                         loaded = true \/ last_call_is Finalize (calls (fst s)))).
  - apply lands_try_except.
    + intros s _ a Ha. left.
      unfold bind in Ha. destruct (GmshManager.load_file g p (ret tt) s) as [[u|e] s'];
        cbn in Ha; congruence.
    + intros e.
      apply (lands_bind _ (fun _ s => last_call_is Finalize (calls (fst s)))).
      * apply call_lands_logged. intros s _. eexists. reflexivity.
      * intros _. apply lands_ret. intros s H. right. exact H.
  - intros loaded. destruct loaded; cbn [negb].
    + repeat (apply (lands_after _ (fun _ => True)); [apply moves_anywhere|intros ?]).
      apply call_lands_logged. intros s _. eexists. reflexivity.
    + apply lands_ret. intros s [H|H]; [discriminate|exact H].
Qed.

(** X2: [get_model_info] brackets its work in one engine session: when
    the backend is available, the engine calls it adds start with
    [gmsh.initialize()] and end with [gmsh.finalize()], on every path,
    exceptions included; when the backend is not available it makes no
    engine call at all. *)
Theorem get_model_info_session (g : Gmsh) (p : Path) (e : Engine) :
  let after := calls (snd (GmshManager.get_model_info g p e)) in
  if fst (GmshManager.is_available g e)
  then exists between, after = Finalize :: between ++ Initialize :: calls e
  else after = calls e.
Proof.
  unfold GmshManager.get_model_info.
  pose proof (is_available_calls g e) as Hcalls.
  destruct (GmshManager.is_available g e) as [available e1].
  cbn [fst snd] in *. destruct available; cbn [negb]; [|exact Hcalls].
  match goal with |- context [try_return ?m ?hd ?s] => set (r := try_return m hd s) end.
  assert (Hopen : about_calls (opened_from (calls e)) (snd r)).
  { apply (try_return_state (fun s => calls (fst s) = calls e)
             (about_calls (opened_from (calls e)))).
    - apply get_model_info_try_opens.
    - auto.
    - intros _ s Hs.
      apply (keeps_try_pass (about_calls (opened_from (calls e)))
               (GmshManager.finalize g)); [|exact Hs].
      apply call_keeps_calls. intros h. apply opened_from_grows.
    - exact Hcalls. }
  assert (Hclose : last_call_is Finalize (calls (fst (snd r)))).
  { apply (try_return_lands (fun _ => True) (fun _ => True)
             (fun _ s => last_call_is Finalize (calls (fst s)))).
    - apply get_model_info_try_closes.
    - apply moves_anywhere.
    - intros err s _. cbn [fst snd].
      unfold try_pass, try_except, GmshManager.finalize, GmshManager.call.
      destruct (on_finalize g (calls (fst s))); eexists; reflexivity.
    - exact I. }
  destruct r as [u [e2 info]]. cbn [fst snd] in *.
  apply bracket_of; assumption.
Qed.

(** *** The session and the result of convert_to_stl *)

Lemma or_fail_lands {L} (P R : Engine * L -> Prop)
    (Q : GmshManager.ConversionResult -> Engine * L -> Prop) (g : Gmsh)
    (m : M (Engine * L) unit) (msg : string)
    (rest : M (Engine * L) GmshManager.ConversionResult) :
  moves P m R -> lands R rest Q ->
  (forall e s, Q (false, msg +:+ e, []) (log_call Finalize (fst s), snd s)) ->
  lands P (GmshManager.or_fail g m msg rest) Q.
Proof.
  intros Hm Hrest Hfail s HP r. specialize (Hm s HP).
  unfold GmshManager.or_fail, bind, try_except, ret, GmshManager.finalize,
    GmshManager.call.
  destruct (m s) as [[[]|e] s1]; cbn [fst snd] in *.
  - apply Hrest, Hm.
  - destruct (on_finalize g (calls (fst s1))) as [[]|e']; cbn [fst snd].
    + intros Hr. inversion Hr; subst. apply Hfail.
    + discriminate.
Qed.

Lemma failure_converted (h0 : history) (output_path msg e : string)
    (s : Engine * list string) :
  In msg failure_prefixes ->
  converted h0 output_path (false, msg +:+ e, [])
            (log_call Finalize (fst s), snd s).
Proof.
  intros Hmsg. split; [eexists; reflexivity|]. split; [|left; reflexivity].
  right. split; [reflexivity|]. split; [reflexivity|].
  right. exists msg, e. split; [exact Hmsg|reflexivity].
Qed.

Lemma convert_to_stl_try_lands (g : Gmsh) (input_path : Path)
    (output_path : string) (mesh_size_min mesh_size_max : Q)
    (mesh_algorithm : Z) (optimize_mesh healing : bool) (h0 : history) :
  lands (about_calls (fun h => exists added, h = added ++ h0))
        (GmshManager.convert_to_stl_try g input_path output_path mesh_size_min
           mesh_size_max mesh_algorithm optimize_mesh healing)
        (converted h0 output_path).
Proof.
  set (ext := fun h : history => exists added, h = added ++ h0).
  assert (Hext : forall (c : GmshCall) (h : history), ext h -> ext (c :: h)).
  { intros c h (added & ->). exists (c :: added). reflexivity. }
  assert (Hcall : call_stable (L := list string) (about_calls ext))
    by (intros c s; apply Hext).
  assert (Hlocal : local_stable (L := list string) (about_calls ext))
    by (intros l s H; exact H).
  unfold GmshManager.convert_to_stl_try.
  apply (lands_after _ (about_calls ext)); [apply call_keeps_stable, Hcall|intros _].
  apply (lands_after _ (about_calls ext)); [apply call_keeps_stable, Hcall|intros _].
  apply (lands_after _ (about_calls ext)); [apply call_keeps_stable, Hcall|intros _].
  apply (or_fail_lands _ (about_calls ext)).
  { apply load_file_keeps_stable; [exact Hcall|].
    apply keeps_if; [|apply keeps_ret].
    unfold GmshManager.healing_options.
    repeat (apply keeps_bind; [apply call_keeps_stable, Hcall|intros _]).
    apply call_keeps_stable, Hcall. }
  2: { intros e s. apply failure_converted. cbn. tauto. }
  apply (lands_after _ (about_calls ext)); [|intros _].
  { apply keeps_try_pass.
    apply keeps_bind; [apply call_keeps_stable, Hcall|intros ents].
    apply convert_part_names_keeps_stable; assumption. }
  apply (lands_after _ (about_calls ext)); [apply call_keeps_stable, Hcall|intros _].
  apply (lands_after _ (about_calls ext)); [apply call_keeps_stable, Hcall|intros _].
  apply (lands_after _ (about_calls ext)); [apply call_keeps_stable, Hcall|intros _].
  apply (lands_after _ (about_calls ext)); [|intros _].
  { apply keeps_if; [|apply keeps_ret].
    apply keeps_bind; [apply call_keeps_stable, Hcall|intros _].
    apply call_keeps_stable, Hcall. }
  apply (or_fail_lands _ (about_calls (called_since h0 (Generate 2)))).
  { apply call_moves_logged. intros s (added & Hs).
    exists (Generate 2 :: added). cbn. rewrite Hs. split; [reflexivity|left; reflexivity]. }
  2: { intros e s. apply failure_converted. cbn. tauto. }
  apply (or_fail_lands _
           (about_calls (fun h => called_since h0 (Generate 2) h /\
                                  called_since h0 (WriteFile output_path) h))).
  { intros s (added & Hs & Hin). unfold about_calls. cbn. split.
    - exists (WriteFile output_path :: added). rewrite Hs.
      split; [reflexivity|right; exact Hin].
    - exists (WriteFile output_path :: added). rewrite Hs.
      split; [reflexivity|left; reflexivity]. }
  2: { intros e s. apply failure_converted. cbn. tauto. }
  apply (lands_bind _
           (fun _ s => last_call_is Finalize (calls (fst s)) /\
                       called_since h0 (Generate 2) (calls (fst s)) /\
                       called_since h0 (WriteFile output_path) (calls (fst s)))).
  { apply call_lands_logged. intros s [Hg Hw]. split; [eexists; reflexivity|].
    split; apply called_since_grows; assumption. }
  intros _.
  apply (lands_bind _
           (fun names s => names = snd s /\
                           last_call_is Finalize (calls (fst s)) /\
                           called_since h0 (Generate 2) (calls (fst s)) /\
                           called_since h0 (WriteFile output_path) (calls (fst s)))).
  { intros s H names Hn. cbn in Hn. inversion Hn; subst. split; [reflexivity|exact H]. }
  intros names. apply lands_ret. intros s (-> & Hf & Hg & Hw).
  split; [exact Hf|]. split; [left; split; reflexivity|].
  right. repeat split; assumption.
Qed.

Lemma convert_to_stl_try_opens (g : Gmsh) (input_path : Path)
    (output_path : string) (mesh_size_min mesh_size_max : Q)
    (mesh_algorithm : Z) (optimize_mesh healing : bool) (h0 : history) :
  moves (fun s : Engine * list string => calls (fst s) = h0)
        (GmshManager.convert_to_stl_try g input_path output_path mesh_size_min
           mesh_size_max mesh_algorithm optimize_mesh healing)
        (about_calls (opened_from h0)).
Proof.
  unfold GmshManager.convert_to_stl_try.
  apply (moves_bind _ (about_calls (opened_from h0))).
  - apply call_moves_logged. intros s Hs. exists []. cbn. rewrite Hs. reflexivity.
  - auto.
  - intros _. apply convert_to_stl_opened_keeps_stable.
    + intros c s. apply opened_from_grows.
    + intros l s H. exact H.
    + intros c fs s. apply opened_from_grows.
Qed.

(** The state and the result of [convert_to_stl] on an available
    backend. *)
Lemma convert_to_stl_available (g : Gmsh) (input_path : Path)
    (output_path : string) (mesh_size_min mesh_size_max : Q)
    (mesh_algorithm : Z) (optimize_mesh healing : bool) (e e1 : Engine) :
  GmshManager.is_available g e = (true, e1) ->
  let r := GmshManager.convert_to_stl g input_path output_path mesh_size_min
             mesh_size_max mesh_algorithm optimize_mesh healing e in
  opened_from (calls e) (calls (snd r)) /\
  last_call_is Finalize (calls (snd r)) /\
  result_shape (fst r) /\
  ((fst r).1.1 = false \/
   (called_since (calls e) (Generate 2) (calls (snd r)) /\
    called_since (calls e) (WriteFile output_path) (calls (snd r)))).
Proof.
  intros Hav. pose proof (is_available_calls g e) as Hcalls.
  unfold GmshManager.convert_to_stl. rewrite Hav in *. cbn [fst snd negb] in *.
  match goal with |- context [try_return ?m ?hd ?s] => set (r := try_return m hd s) end.
  assert (Hopen : about_calls (opened_from (calls e)) (snd r)).
  { apply (try_return_state (fun s => calls (fst s) = calls e)
             (about_calls (opened_from (calls e)))).
    - apply convert_to_stl_try_opens.
    - auto.
    - intros err s Hs. cbn [snd].
      apply (keeps_try_pass (about_calls (opened_from (calls e)))
               (GmshManager.finalize g)); [|exact Hs].
      apply call_keeps_calls. intros h. apply opened_from_grows.
    - exact Hcalls. }
  assert (Hland : converted (calls e) output_path (fst r) (snd r)).
  { apply (try_return_lands
             (about_calls (fun h => exists added, h = added ++ calls e))
             (fun _ => True)).
    - apply convert_to_stl_try_lands.
    - apply moves_anywhere.
    - intros err s _. cbn [fst snd]. split; [|split].
      + unfold try_pass, try_except, GmshManager.finalize, GmshManager.call.
        destruct (on_finalize g (calls (fst s))); eexists; reflexivity.
      + right. split; [reflexivity|]. split; [reflexivity|].
        right. exists "Conversion error: ", err. split; [cbn; tauto|reflexivity].
      + left. reflexivity.
    - exists []. cbn. exact Hcalls. }
  destruct r as [res [e2 names]]. cbn [fst snd] in *.
  destruct Hland as (Hclose & Hshape & Hdone).
  split; [exact Hopen|]. split; [exact Hclose|]. split; [exact Hshape|].
  destruct Hdone as [Hf|(Hg & Hw & _)]; [left; exact Hf|right; split; assumption].
Qed.

(** X3: [convert_to_stl] brackets its work in one engine session: when
    the backend is available, the engine calls it adds start with
    [gmsh.initialize()] and end with [gmsh.finalize()], on every path,
    failures and exceptions included; when the backend is not available
    it makes no engine call, touches no file and answers
    "gmsh is not installed". *)
Theorem convert_to_stl_session (g : Gmsh) (input_path : Path)
    (output_path : string) (mesh_size_min mesh_size_max : Q)
    (mesh_algorithm : Z) (optimize_mesh healing : bool) (e : Engine) :
  let r := GmshManager.convert_to_stl g input_path output_path mesh_size_min
             mesh_size_max mesh_algorithm optimize_mesh healing e in
  if fst (GmshManager.is_available g e)
  then exists between,
         calls (snd r) = Finalize :: between ++ Initialize :: calls e
  else fst r = (false, "gmsh is not installed", []) /\
       calls (snd r) = calls e /\ files (snd r) = files e.
Proof.
  destruct (GmshManager.is_available g e) as [available e1] eqn:Hav.
  cbn [fst]. destruct available.
  - destruct (convert_to_stl_available g input_path output_path mesh_size_min
                mesh_size_max mesh_algorithm optimize_mesh healing e e1 Hav)
      as (Hopen & Hclose & _).
    cbv zeta. apply bracket_of; assumption.
  - pose proof (is_available_calls g e) as Hcalls.
    pose proof (is_available_files g e) as Hfiles.
    cbv zeta. unfold GmshManager.convert_to_stl. rewrite Hav in *.
    cbn [negb fst snd] in *. repeat split; assumption.
Qed.

(** X4: what [convert_to_stl] returns has one of two shapes, whatever the
    engine does: success with the message "Conversion successful", or
    failure with no part name and a message that is "gmsh is not
    installed" or starts with "Failed to import CAD file: ", "Failed to
    generate mesh: ", "Failed to write STL: " or "Conversion error: ".
    It reports success only after it has asked the engine to generate the
    surface mesh and to write the output path. *)
Theorem convert_to_stl_result (g : Gmsh) (input_path : Path)
    (output_path : string) (mesh_size_min mesh_size_max : Q)
    (mesh_algorithm : Z) (optimize_mesh healing : bool) (e : Engine) :
  let r := GmshManager.convert_to_stl g input_path output_path mesh_size_min
             mesh_size_max mesh_algorithm optimize_mesh healing e in
  result_shape (fst r) /\
  ((fst r).1.1 = false \/
   (called_since (calls e) (Generate 2) (calls (snd r)) /\
    called_since (calls e) (WriteFile output_path) (calls (snd r)))).
Proof.
  destruct (GmshManager.is_available g e) as [available e1] eqn:Hav.
  destruct available.
  - destruct (convert_to_stl_available g input_path output_path mesh_size_min
                mesh_size_max mesh_algorithm optimize_mesh healing e e1 Hav)
      as (_ & _ & Hshape & Hdone).
    split; assumption.
  - cbv zeta. unfold GmshManager.convert_to_stl. rewrite Hav. cbn [negb fst snd].
    split; [|left; reflexivity].
    right. split; [reflexivity|]. split; [reflexivity|]. left. reflexivity.
Qed.

(** ** What get_model_info counts and names *)

Lemma entities_of_dim_cons (d : Z) (dt : Z * Z) (ents : list (Z * Z)) :
  entities_of_dim d (dt :: ents)
  = (if (dt.1 =? d)%Z then 1 else 0) + entities_of_dim d ents.
Proof.
  unfold entities_of_dim. rewrite filter_cons.
  destruct (Z.eqb_spec dt.1 d) as [E|E].
  - destruct (decide (dt.1 = d)); [|contradiction].
    cbn [length]. lia.
  - destruct (decide (dt.1 = d)); [contradiction|]. lia.
Qed.

(** The counting loop adds, to each count, the entities of its dimension. *)
Lemma count_entities_tally (ents : list (Z * Z)) (i : ModelInfo) :
  let i' := fold_left GmshManager.count_entity ents i in
  points i' = points i + entities_of_dim 0 ents /\
  curves i' = curves i + entities_of_dim 1 ents /\
  surfaces i' = surfaces i + entities_of_dim 2 ents /\
  volumes i' = volumes i + entities_of_dim 3 ents.
Proof.
  revert i. induction ents as [|[dim tag] ents IH]; intros i.
  - cbn. unfold entities_of_dim. cbn. repeat split; lia.
  - cbn [fold_left]. destruct (IH (GmshManager.count_entity i (dim, tag)))
      as (H0 & H1 & H2 & H3).
    cbv zeta. rewrite H0, H1, H2, H3, !entities_of_dim_cons.
    unfold GmshManager.count_entity. cbn [fst].
    destruct (Z.eqb_spec dim 0) as [->|E0]; [cbn; repeat split; lia|].
    destruct (Z.eqb_spec dim 1) as [->|E1]; [cbn; repeat split; lia|].
    destruct (Z.eqb_spec dim 2) as [->|E2]; [cbn; repeat split; lia|].
    destruct (Z.eqb_spec dim 3) as [->|E3]; cbn; repeat split; lia.
Qed.

Lemma entities_of_dim_bounds (ents : list (Z * Z)) :
  0 <= entities_of_dim 0 ents /\ 0 <= entities_of_dim 1 ents /\
  0 <= entities_of_dim 2 ents /\ 0 <= entities_of_dim 3 ents /\
  entities_of_dim 0 ents + entities_of_dim 1 ents
  + entities_of_dim 2 ents + entities_of_dim 3 ents
  <= Z.of_nat (length ents).
Proof.
  induction ents as [|[dim tag] ents IH].
  - unfold entities_of_dim. cbn. lia.
  - rewrite !entities_of_dim_cons. cbn [fst length].
    destruct (Z.eqb_spec dim 0), (Z.eqb_spec dim 1), (Z.eqb_spec dim 2),
      (Z.eqb_spec dim 3); lia.
Qed.

(** A step that changes the local state and cannot raise. *)
Lemma moves_after_local {L B} (P : L -> Prop) (f : L -> L)
    (k : unit -> M (Engine * L) B) (Q : Engine * L -> Prop) :
  (forall u, moves (about_local (fun l => exists l0, P l0 /\ l = f l0)) (k u) Q) ->
  moves (about_local P) (bind (GmshManager.local f) k) Q.
Proof.
  intros Hk s HP. unfold bind, GmshManager.local, modify. cbn.
  apply (Hk tt). exists (snd s). split; [exact HP|reflexivity].
Qed.

(** The end of [get_model_info], from the bounding box on, keeps what the
    bounding box, the unit and the part names do not bear on. *)
Lemma info_tail_keeps (Q : ModelInfo -> Prop) (g : Gmsh) (ents : list (Z * Z)) :
  (forall b i, Q i -> Q (GmshManager.set_bounding_box b i)) ->
  (forall u i, Q i -> Q (GmshManager.set_estimated_unit u i)) ->
  (forall n i, Q i -> Q (GmshManager.append_part_name n i)) ->
  keeps (about_local Q)
    (bind (try_pass
             match ents with
             | [] => ret tt
             | _ :: _ =>
                 bind (GmshManager.getBoundingBox g (-1) (-1)) (fun b =>
                 bind (GmshManager.local
                         (GmshManager.set_bounding_box (GmshManager.box_of b)))
                      (fun _ =>
                 GmshManager.local
                   (GmshManager.set_estimated_unit
                      (GmshManager.estimate_unit (GmshManager.max_dim_of b)))))
             end) (fun _ =>
     bind (try_pass (GmshManager.info_part_names g ents)) (fun _ =>
     GmshManager.finalize g))).
Proof.
  intros Hb Hu Hn.
  apply keeps_bind; [|intros _].
  { apply keeps_try_pass. destruct ents; [apply keeps_ret|].
    apply keeps_bind; [apply call_keeps_local|intros b].
    apply keeps_bind; [apply local_moves; intros l; apply Hb|intros _].
    apply local_moves. intros l. apply Hu. }
  apply keeps_bind; [|intros _; apply call_keeps_local].
  apply keeps_try_pass, info_part_names_keeps. exact Hn.
Qed.

Lemma get_model_info_try_tallies (g : Gmsh) (p : Path) :
  moves (about_local blank) (GmshManager.get_model_info_try g p)
        (about_local (fun i => exists ents, tallied ents i)).
Proof.
  set (J := fun i : ModelInfo => exists ents, tallied ents i).
  assert (Hblank : forall i, blank i -> J i).
  { intros i ->. exists []. repeat split. }
  assert (Hstart : forall s : Engine * ModelInfo,
            about_local blank s -> about_local J s)
    by (intros s; apply Hblank).
  unfold GmshManager.get_model_info_try.
  apply (moves_bind _ (about_local blank)); [apply call_keeps_local|exact Hstart|intros _].
  apply (moves_bind _ (about_local blank)); [apply call_keeps_local|exact Hstart|intros _].
  apply (moves_bind _ (about_local blank)); [apply call_keeps_local|exact Hstart|intros _].
  apply (moves_bind _ (about_local blank)); [|exact Hstart|intros loaded].
  { apply keeps_try_except.
    - apply keeps_bind; [|intros _; apply keeps_ret].
      apply load_file_keeps_local, keeps_ret.
    - intros e. apply keeps_bind; [apply call_keeps_local|intros _; apply keeps_ret]. }
  destruct loaded; cbn [negb].
  2: { eapply moves_weaken; [apply (moves_ret tt (about_local blank))|auto|exact Hstart]. }
  apply moves_after_local. intros _.
  set (P1 := fun l : ModelInfo =>
               exists l0, blank l0 /\ l = GmshManager.set_valid true l0).
  apply (moves_bind _ (about_local P1)); [apply call_keeps_local| |intros ents].
  { intros s (l0 & -> & Hs). unfold about_local. rewrite Hs.
    exists []. repeat split. }
  apply moves_after_local. intros _.
  apply moves_after_local. intros _.
  eapply moves_weaken with (P := about_local (tallied ents));
    [|idtac|intros s H; exact H].
  2: { intros s (l1 & (l2 & (l0 & -> & ->) & ->) & Hs). unfold about_local.
       rewrite Hs.
       destruct (count_entities_tally ents
                   (GmshManager.set_entities (Z.of_nat (length ents))
                      (GmshManager.set_valid true GmshManager.default_info)))
         as (H0 & H1 & H2 & H3).
       destruct (count_entities_frame ents
                   (GmshManager.set_entities (Z.of_nat (length ents))
                      (GmshManager.set_valid true GmshManager.default_info)))
         as (_ & _ & _ & _ & H4).
       cbv zeta in *. split; [rewrite H4; reflexivity|].
       rewrite H0, H1, H2, H3. cbn. repeat split; lia. }
  eapply moves_weaken with (Q := about_local (tallied ents));
    [|intros s H; exact H|intros s H; exists ents; exact H].
  apply info_tail_keeps; intros ? i H; exact H.
Qed.

(** X5: whatever the engine does, the counts returned by
    [get_model_info] are those of one list of entities: [entities] is its
    length and [points], [curves], [surfaces] and [volumes] are the
    numbers of its entities of dimension 0, 1, 2 and 3.  So no count is
    negative and the four together never exceed [entities] (entities of
    another dimension are counted in [entities] alone). *)
Theorem get_model_info_counts (g : Gmsh) (p : Path) (e : Engine) :
  let info := fst (GmshManager.get_model_info g p e) in
  (exists ents, tallied ents info) /\
  0 <= points info /\ 0 <= curves info /\ 0 <= surfaces info /\
  0 <= volumes info /\
  points info + curves info + surfaces info + volumes info <= entities info.
Proof.
  intros info.
  assert (H : exists ents, tallied ents info).
  { unfold info, GmshManager.get_model_info.
    destruct (GmshManager.is_available g e) as [available e'].
    destruct available; cbn [negb]; [|exists []; repeat split].
    match goal with |- context [try_return ?m ?hd ?s] => set (r := try_return m hd s) end.
    assert (Hr : about_local (fun i => exists ents, tallied ents i) (snd r)).
    { apply (try_return_state (about_local blank)
               (about_local (fun i => exists ents, tallied ents i))).
      - apply get_model_info_try_tallies.
      - auto.
      - intros _ s Hs.
        apply (keeps_try_pass
                 (about_local (fun i => exists ents, tallied ents i))
                 (GmshManager.finalize g)); [apply call_keeps_local|exact Hs].
      - reflexivity. }
    destruct r as [u [e'' i]]. exact Hr. }
  split; [exact H|].
  destruct H as (ents & He & H0 & H1 & H2 & H3).
  rewrite He, H0, H1, H2, H3. apply entities_of_dim_bounds.
Qed.

(** A property of the dictionary that the body of [get_model_info]
    establishes from the initial dictionary, and that the initial
    dictionary has, holds of the dictionary returned. *)
Lemma get_model_info_lifts (Q : ModelInfo -> Prop) (g : Gmsh) (p : Path)
    (e : Engine) :
  moves (about_local blank) (GmshManager.get_model_info_try g p)
        (about_local Q) ->
  (fst (GmshManager.is_available g e) = false -> Q GmshManager.default_info) ->
  Q (fst (GmshManager.get_model_info g p e)).
Proof.
  intros Hbody Hnone. unfold GmshManager.get_model_info.
  destruct (GmshManager.is_available g e) as [available e'].
  destruct available; cbn [negb]; [|apply Hnone; reflexivity].
  match goal with |- context [try_return ?m ?hd ?s] => set (r := try_return m hd s) end.
  assert (Hr : about_local Q (snd r)).
  { apply (try_return_state (about_local blank) (about_local Q)).
    - exact Hbody.
    - auto.
    - intros _ s Hs.
      apply (keeps_try_pass (about_local Q) (GmshManager.finalize g));
        [apply call_keeps_local|exact Hs].
    - reflexivity. }
  destruct r as [u [e'' i]]. exact Hr.
Qed.

(** The name loop keeps what appending a new, non-empty name keeps. *)
Lemma info_part_names_guarded (Qn : list string -> Prop) (g : Gmsh)
    (ents : list (Z * Z)) :
  (forall n l, Qn l -> Py.truthy n = true -> n ∉ l -> Qn (l ++ [n])) ->
  keeps (about_local (fun i => Qn (part_names i)))
        (GmshManager.info_part_names g ents).
Proof.
  intros Hstep. induction ents as [|[dim tag] ents IH]; intros s HP.
  - exact HP.
  - destruct (on_getEntityName g (calls (fst s)) dim tag) as [n|err] eqn:E.
    + rewrite (info_part_names_cons g dim tag ents s n E). apply IH.
      unfold about_local in *. cbn [snd].
      destruct (Py.truthy n && negb (Py.mem n (part_names (snd s)))) eqn:C;
        [|exact HP].
      apply andb_true_iff in C. destruct C as [Ct Cm].
      apply negb_true_iff in Cm. cbn [GmshManager.append_part_name part_names].
      apply Hstep; [exact HP|exact Ct|].
      intros Hin. apply mem_true_iff in Hin. congruence.
    + cbn [GmshManager.info_part_names].
      unfold bind, GmshManager.getEntityName, GmshManager.call.
      rewrite E. exact HP.
Qed.

Lemma get_model_info_try_names (Qn : list string -> Prop) (g : Gmsh) (p : Path) :
  Qn [] ->
  (forall n l, Qn l -> Py.truthy n = true -> n ∉ l -> Qn (l ++ [n])) ->
  moves (about_local blank) (GmshManager.get_model_info_try g p)
        (about_local (fun i => Qn (part_names i))).
Proof.
  intros Hnil Hstep.
  set (Q := fun i : ModelInfo => Qn (part_names i)).
  eapply moves_weaken with (P := about_local Q) (Q := about_local Q);
    [|intros s Hs; unfold about_local, Q; rewrite Hs; exact Hnil
     |intros s H; exact H].
  unfold GmshManager.get_model_info_try.
  apply keeps_bind; [apply call_keeps_local|intros _].
  apply keeps_bind; [apply call_keeps_local|intros _].
  apply keeps_bind; [apply call_keeps_local|intros _].
  apply keeps_bind; [|intros loaded].
  { apply keeps_try_except.
    - apply keeps_bind; [|intros _; apply keeps_ret].
      apply load_file_keeps_local, keeps_ret.
    - intros e. apply keeps_bind; [apply call_keeps_local|intros _; apply keeps_ret]. }
  destruct loaded; cbn [negb]; [|apply keeps_ret].
  apply keeps_bind; [apply local_moves; intros l H; exact H|intros _].
  apply keeps_bind; [apply call_keeps_local|intros ents].
  apply keeps_bind; [apply local_moves; intros l H; exact H|intros _].
  apply keeps_bind; [|intros _].
  { apply local_moves. intros l H. unfold Q.
    destruct (count_entities_frame ents l) as (_ & _ & _ & Hn & _).
    cbv zeta in Hn. rewrite Hn. exact H. }
  apply keeps_bind; [|intros _].
  { apply keeps_try_pass. destruct ents; [apply keeps_ret|].
    apply keeps_bind; [apply call_keeps_local|intros b].
    apply keeps_bind; [apply local_moves; intros l H; exact H|intros _].
    apply local_moves. intros l H. exact H. }
  apply keeps_bind; [|intros _; apply call_keeps_local].
  apply keeps_try_pass, info_part_names_guarded. exact Hstep.
Qed.

(** X6: whatever the engine does, the part names returned by
    [get_model_info] are pairwise distinct and none of them is the empty
    string. *)
Theorem get_model_info_part_names_distinct (g : Gmsh) (p : Path) (e : Engine) :
  let info := fst (GmshManager.get_model_info g p e) in
  NoDup (part_names info) /\ "" ∉ part_names info.
Proof.
  apply (get_model_info_lifts
           (fun i => NoDup (part_names i) /\ "" ∉ part_names i)).
  - apply (get_model_info_try_names (fun l => NoDup l /\ "" ∉ l)).
    + split; [constructor|]. intros H. inversion H.
    + intros n l [Hnd Hne] Ht Hin. split.
      * apply NoDup_app. split; [exact Hnd|]. split.
        -- intros x Hx Hx'. apply list_elem_of_singleton in Hx'. subst x.
           contradiction.
        -- apply NoDup_singleton.
      * intros H. apply elem_of_app in H. destruct H as [H|H]; [contradiction|].
        apply list_elem_of_singleton in H. subst n. discriminate.
  - intros _. split; [constructor|]. intros H. inversion H.
Qed.

(** With an engine that names every entity, the name loop changes the
    part names alone. *)
Lemma info_part_names_frame (g : Gmsh) (ents : list (Z * Z)) (i0 : ModelInfo) :
  keeps (about_local (fun i => with_part_names [] i = with_part_names [] i0))
        (GmshManager.info_part_names g ents).
Proof. apply info_part_names_keeps. intros n i H. exact H. Qed.

Lemma with_part_names_eq (i j : ModelInfo) :
  with_part_names [] i = with_part_names [] j ->
  part_names i = part_names j -> i = j.
Proof.
  destruct i, j. unfold with_part_names. cbn. intros H Hn.
  inversion H. subst. reflexivity.
Qed.

Lemma first_appearances_as_absorb (names : list string) :
  absorb [] names = first_appearances (named names).
Proof.
  rewrite absorb_spec. cbn [app]. f_equal.
  apply filter_everything. intros x Hx. inversion Hx.
Qed.

Lemma get_model_info_try_answers (g : Gmsh) (p : Path) (ents : list (Z * Z))
    (b : BBox) (nm : Z -> Z -> string) :
  measures g ents b ->
  (forall h dim tag, on_getEntityName g h dim tag = Ok (nm dim tag)) ->
  moves (about_local blank) (GmshManager.get_model_info_try g p)
        (about_local
           (fun i => i = info_of ents b (map (fun dt => nm dt.1 dt.2) ents))).
Proof.
  intros Hg Hnm.
  pose proof Hg as (Hinit & Hset & Hadd & _ & _ & _ & Hents' & Hbox).
  set (i1 := GmshManager.set_valid true GmshManager.default_info).
  set (i2 := GmshManager.set_entities (Z.of_nat (length ents)) i1).
  set (i3 := fold_left GmshManager.count_entity ents i2).
  set (i4 := match ents with
             | [] => i3
             | _ :: _ =>
                 GmshManager.set_estimated_unit
                   (GmshManager.estimate_unit (GmshManager.max_dim_of b))
                   (GmshManager.set_bounding_box (GmshManager.box_of b) i3)
             end).
  unfold GmshManager.get_model_info_try.
  eapply yields_then_moves;
    [apply (call_yields blank) with (a := tt); exact Hinit|].
  intros ?. apply moves_given. intros _.
  eapply yields_then_moves;
    [apply (call_yields blank) with (a := tt); intros h; apply Hset|].
  intros ?. apply moves_given. intros _.
  eapply yields_then_moves;
    [apply (call_yields blank) with (a := tt); intros h; apply Hadd|].
  intros ?. apply moves_given. intros _.
  eapply yields_then_moves.
  { apply yields_try_except.
    eapply yields_bind; [apply (load_file_yields g p ents b blank Hg)|].
    intros ?. apply yields_ret. }
  intros ok. apply moves_given. intros ->. cbn [negb].
  eapply yields_then_moves;
    [apply (local_yields blank (eq i1)); intros l ->; reflexivity|].
  intros ?.
  eapply yields_then_moves;
    [apply (call_yields (eq i1)) with (a := ents); exact Hents'|].
  intros ents0. apply moves_given. intros ->.
  eapply yields_then_moves;
    [apply (local_yields (eq i1) (eq i2)); intros l <-; reflexivity|].
  intros ?.
  eapply yields_then_moves;
    [apply (local_yields (eq i2) (eq i3)); intros l <-; reflexivity|].
  intros ?.
  eapply yields_then_moves with (R := fun _ => about_local (eq i4)).
  { unfold i4. destruct ents as [|x ents'].
    - apply try_pass_yields, keeps_ret.
    - apply yields_try_except.
      eapply yields_bind;
        [apply (call_yields (eq i3)) with (a := b); intros h; apply Hbox|].
      intros b0. apply yields_given. intros ->.
      eapply yields_bind;
        [apply (local_yields (eq i3)
                  (eq (GmshManager.set_bounding_box (GmshManager.box_of b) i3)));
         intros l <-; reflexivity|].
      intros ?. apply local_yields. intros l <-. reflexivity. }
  intros ?.
  apply (moves_bind _ (about_local
           (fun i => i = info_of ents b (map (fun dt => nm dt.1 dt.2) ents))));
    [|intros s H; exact H|intros _; apply call_keeps_local].
  intros s Hs. unfold about_local in *.
  assert (Hstate : snd (try_pass (GmshManager.info_part_names g ents) s)
                   = snd (GmshManager.info_part_names g ents s)).
  { unfold try_pass, try_except.
    destruct (GmshManager.info_part_names g ents s) as [[[]|err] s']; reflexivity. }
  rewrite Hstate.
  destruct (info_part_names_spec g nm ents s Hnm) as [_ Hnames].
  pose proof (info_part_names_frame g ents (snd s) s eq_refl) as Hframe.
  unfold about_local in Hframe.
  apply with_part_names_eq.
  - rewrite Hframe, <- Hs. unfold i4.
    destruct (count_entities_frame ents i2) as (Hv & Hb & Hu & Hn & He).
    destruct (count_entities_tally ents i2) as (H0 & H1 & H2 & H3).
    fold i3 in Hv, Hb, Hu, Hn, He, H0, H1, H2, H3. cbv zeta in *.
    unfold with_part_names, info_of.
    destruct ents as [|x ents'];
      cbn [valid entities volumes surfaces curves points bounding_box
           estimated_unit part_names GmshManager.set_estimated_unit
           GmshManager.set_bounding_box];
      rewrite ?Hv, ?Hb, ?Hu, ?He, ?H0, ?H1, ?H2, ?H3; reflexivity.
  - rewrite Hnames, <- Hs.
    assert (Hn4 : part_names i4 = []).
    { unfold i4.
      destruct (count_entities_frame ents i2) as (_ & _ & _ & Hn & _).
      fold i3 in Hn. cbv zeta in Hn.
      destruct ents;
        cbn [part_names GmshManager.set_estimated_unit
             GmshManager.set_bounding_box];
        rewrite Hn; reflexivity. }
    rewrite Hn4. apply first_appearances_as_absorb.
Qed.

(** X7: on an installed engine that loads the file, lists the entities
    [ents], measures the bounding box [b] and names each entity
    [nm dim tag], [get_model_info] returns exactly this dictionary: valid;
    [entities] the length of [ents]; the four counts by dimension; the
    bounding box and the unit estimated from [b] when there is an entity,
    no bounding box and [UNKNOWN] when there is none; and as part names
    the non-empty names in order of first appearance.  A failure of
    [gmsh.finalize] changes nothing of it. *)
Theorem get_model_info_of_answering_engine (g : Gmsh) (p : Path) (e : Engine)
    (ents : list (Z * Z)) (b : BBox) (nm : Z -> Z -> string) :
  fst (GmshManager.is_available g e) = true ->
  measures g ents b ->
  (forall h dim tag, on_getEntityName g h dim tag = Ok (nm dim tag)) ->
  fst (GmshManager.get_model_info g p e)
  = info_of ents b (map (fun dt => nm dt.1 dt.2) ents).
Proof.
  intros Hav Hg Hnm.
  apply (get_model_info_lifts
           (fun i => i = info_of ents b (map (fun dt => nm dt.1 dt.2) ents))).
  - apply get_model_info_try_answers; assumption.
  - intros H. congruence.
Qed.

Lemma get_model_info_of_answering_engine_witness :
  fst (GmshManager.get_model_info Demo.cube_gmsh Demo.bracket_step
         Demo.fresh_engine)
  = info_of Demo.cube_entities Demo.cube_box [""; "Panel"; "Panel"].
Proof.
  apply (get_model_info_of_answering_engine Demo.cube_gmsh Demo.bracket_step
           Demo.fresh_engine Demo.cube_entities Demo.cube_box
           (fun dim _ => if (dim =? 3)%Z then "" else "Panel")).
  - reflexivity.
  - repeat split.
  - intros h dim tag. cbn. unfold Demo.cube_names.
    destruct (dim =? 3)%Z; reflexivity.
Defined.

(** ** A file that cannot be loaded *)

(** X8: a dictionary returned by [get_model_info] is invalid exactly when
    it is the initial one: no count, no bounding box, unit [UNKNOWN], no
    part name.  So nothing that was read from a model is ever returned
    under [valid = False]. *)
Theorem get_model_info_invalid_iff_untouched (g : Gmsh) (p : Path) (e : Engine) :
  let info := fst (GmshManager.get_model_info g p e) in
  valid info = false <-> info = GmshManager.default_info.
Proof.
  intros info. split.
  - apply invalid_info_is_blank.
  - intros ->. reflexivity.
Qed.

(** X9: on an installed engine that starts a session and rejects the
    file, [get_model_info] returns the initial dictionary after exactly
    these calls: initialize, the terminal option, the model, the loading
    call of the file's suffix, and finalize; finalize is attempted a
    second time if, and only if, the first attempt raises.  The model is
    never queried. *)
Theorem get_model_info_rejected_file (g : Gmsh) (p : Path) (e : Engine) :
  fst (GmshManager.is_available g e) = true ->
  opens g -> rejects_files g ->
  let r := GmshManager.get_model_info g p e in
  let opened :=
    load_call p :: ModelAdd "info" :: SetNumber "General.Terminal" 0
    :: Initialize :: calls e in
  fst r = GmshManager.default_info /\
  calls (snd r)
  = match on_finalize g opened with
    | Ok _ => Finalize :: opened
    | Raise _ => Finalize :: Finalize :: opened
    end.
Proof.
  intros Hav (Hinit & Hset & Hadd) Hrej r opened.
  split; [apply get_model_info_load_failure; exact Hrej|].
  pose proof (is_available_calls g e) as Hcalls.
  unfold r, opened, GmshManager.get_model_info.
  destruct (GmshManager.is_available g e) as [available e']. cbn in Hav, Hcalls.
  subst available. cbn [negb]. rewrite <- Hcalls.
  unfold try_return, GmshManager.get_model_info_try, bind, try_except,
    GmshManager.initialize, GmshManager.setNumber, GmshManager.model_add,
    GmshManager.call.
  cbn [fst snd]. rewrite Hinit. cbn [fst snd log_call calls].
  rewrite Hset. cbn [fst snd log_call calls].
  rewrite Hadd. cbn [fst snd log_call calls].
  unfold GmshManager.load_file, load_call, bind, ret, GmshManager.importShapes,
    GmshManager.merge, GmshManager.synchronize, GmshManager.finalize,
    GmshManager.call, try_pass, try_except.
  destruct (GmshManager.is_brep_ext (Py.lower (suffix p))); cbn [fst snd].
  - match goal with
    | |- context [on_importShapes g ?h ?q] =>
        destruct (Hrej h q) as [[err Herr] _]; rewrite Herr
    end.
    cbn.
    destruct (on_finalize g _) as [[]|err'] eqn:Ef; cbn; [reflexivity|].
    destruct (on_finalize g (Finalize :: _)) as [[]|err'']; reflexivity.
  - match goal with
    | |- context [on_merge g ?h ?q] =>
        destruct (Hrej h q) as [_ [err Herr]]; rewrite Herr
    end.
    cbn.
    destruct (on_finalize g _) as [[]|err'] eqn:Ef; cbn; [reflexivity|].
    destruct (on_finalize g (Finalize :: _)) as [[]|err'']; reflexivity.
Qed.

Lemma get_model_info_rejected_file_witness :
  calls (snd (GmshManager.get_model_info Demo.unreadable_gmsh Demo.scan_stl
                Demo.fresh_engine))
  = [Finalize; Merge "/cad/scan.stl"; ModelAdd "info";
     SetNumber "General.Terminal" 0; Initialize].
Proof.
  apply (get_model_info_rejected_file Demo.unreadable_gmsh Demo.scan_stl
           Demo.fresh_engine).
  - reflexivity.
  - repeat split.
  - intros h p. split; exists "cannot read"; reflexivity.
Defined.

(** ** The batch, tick by tick *)






(** ** The scale of an import *)

Lemma float_of_scale_positive (s : GlobalScale) : (0 < float_of_scale s)%Q.
Proof. destruct s; reflexivity. Qed.

Lemma scale_or_detectable_positive (u : string) :
  In u detectable_units -> (0 < LADDER_OT_import_cad.scale_or 1 u)%Q.
Proof.
  intros Hu. cbn in Hu.
  destruct Hu as [ <- | [ <- | [ <- | [ <- | [] ] ] ] ]; vm_compute; reflexivity.
Qed.

(** X12: [determine_unit_scale] never raises, leaves the operator as it
    is and returns a positive factor, so that the scale handed to the
    importer, [float(global_scale) * unit_scale], is positive too.  With
    an explicit source unit the factor is the table's entry for that unit
    and nothing at all is changed: the engine is not consulted. *)
Theorem unit_scale_is_positive (h : Host) (p : Path) (o : Operator) (w : World) :
  let r := LADDER_OT_import_cad.determine_unit_scale h p (o, w) in
  exists v,
    fst r = Ok v /\ (0 < v)%Q /\
    (0 < float_of_scale (global_scale o) * v)%Q /\
    fst (snd r) = o /\
    (source_unit o <> AUTO ->
     snd r = (o, w) /\ UNIT_SCALES !! unit_id (source_unit o) = Some v).
Proof.
  intros r.
  assert (Hself : fst (snd r) = o).
  { symmetry.
    apply (determine_unit_scale_keeps h (fun o' => o = o') p (o, w)).
    reflexivity. }
  assert (H : exists v, fst r = Ok v /\ (0 < v)%Q /\
                        (source_unit o <> AUTO ->
                         snd r = (o, w) /\
                         UNIT_SCALES !! unit_id (source_unit o) = Some v)).
  { assert (Hdec : source_unit o = AUTO \/ source_unit o <> AUTO)
      by (destruct (source_unit o); (left; reflexivity) || (right; discriminate)).
    destruct Hdec as [Ha|Hn].
    - exists (LADDER_OT_import_cad.scale_or 1
                (estimated_unit
                   (fst (GmshManager.get_model_info (gmsh h) p (engine w))))).
      split; [apply auto_unit_scale; exact Ha|].
      split; [|congruence].
      apply scale_or_detectable_positive, estimated_unit_detectable.
    - destruct (explicit_unit_scale h p o w Hn) as (v & Hv & Hr).
      exists v. unfold r. rewrite Hr. split; [reflexivity|].
      split; [|intros _; split; [reflexivity|exact Hv]].
      destruct unit_scales_table as (H1 & H2 & H3 & H4 & H5 & H6 & _).
      destruct (source_unit o); [congruence| | | | | |]; cbn [unit_id] in Hv;
        rewrite ?H1, ?H2, ?H3, ?H4, ?H5, ?H6 in Hv; inversion Hv; reflexivity. }
  destruct H as (v & Hr & Hpos & Hexp).
  exists v. repeat split; try assumption.
  - apply Qmult_lt_0_compat; [apply float_of_scale_positive|exact Hpos].
  - apply Hexp; assumption.
  - apply Hexp; assumption.
Qed.

(** ** One file: the temporary file *)

Lemma announce_run (i : nat) (n ph : string) (s : LADDER_OT_import_cad.St) :
  LADDER_OT_import_cad.announce i n ph s
  = (Ok tt,
     (fst s,
      let w1 := set_import_progress
                  (Progress.update (Z.of_nat i) n ph (import_progress (snd s)))
                  (snd s) in
      set_status_text (Some (Progress.status_text (import_progress w1))) w1)).
Proof. reflexivity. Qed.

(** [_process_current_file] up to the conversion. *)
Lemma process_current_file_run (h : Host) (s : LADDER_OT_import_cad.St)
    (p : Path) :
  _files_to_process (fst s) !! _current_index (fst s) = Some p ->
  let w1 := snd (snd (LADDER_OT_import_cad.announce (_current_index (fst s))
                        (name p) "converting" s)) in
  LADDER_OT_import_cad._process_current_file h s
  = match mkstemp h (files (engine (snd s))) with
    | Ok out =>
        LADDER_OT_import_cad.convert_phase h p out
          (set_temp_files (_temp_files (fst s) ++ [out]) (fst s),
           set_engine (set_files ({[out]} ∪ files (engine (snd s)))
                         (engine (snd s))) w1)
    | Raise e =>
        (Ok "ERROR",
         (fst s, add_logged "ERROR" ("Failed to create temp file: " +:+ e) w1))
    end.
Proof.
  intros Hp w1. unfold LADDER_OT_import_cad._process_current_file.
  unfold bind at 1. unfold LADDER_OT_import_cad.self at 1. cbn [fst snd].
  rewrite Hp. unfold bind at 1. subst w1. rewrite announce_run. cbn [fst snd].
  unfold bind at 1. unfold try_except at 1. unfold bind at 1.
  unfold LADDER_OT_import_cad.create_temp_file at 1.
  cbn [fst snd engine set_status_text set_import_progress].
  destruct (mkstemp h (files (engine (snd s)))) as [out|e]; reflexivity.
Qed.

(** X13: when [_process_current_file] has a file to work on, the
    intermediate file it creates is appended to [_temp_files] whatever
    becomes of the conversion and of the import, so that the clean-up at
    the end of the batch finds it; when the file cannot be created the
    call returns 'ERROR' with one logged error, and neither the operator,
    the engine nor the scene has changed. *)
Theorem temp_file_is_registered (h : Host) (s : LADDER_OT_import_cad.St)
    (p : Path) :
  _files_to_process (fst s) !! _current_index (fst s) = Some p ->
  let r := LADDER_OT_import_cad._process_current_file h s in
  match mkstemp h (files (engine (snd s))) with
  | Ok out => _temp_files (fst (snd r)) = (_temp_files (fst s) ++ [out])%list
  | Raise e =>
      fst r = Ok "ERROR" /\
      fst (snd r) = fst s /\
      engine (snd (snd r)) = engine (snd s) /\
      scene (snd (snd r)) = scene (snd s) /\
      logged (snd (snd r))
      = (logged (snd s) ++ [("ERROR", "Failed to create temp file: " +:+ e)])%list
  end.
Proof.
  intros Hp r. unfold r. rewrite (process_current_file_run h s p Hp). clear r.
  destruct (mkstemp h (files (engine (snd s)))) as [out|e].
  - match goal with
    | |- context [LADDER_OT_import_cad.convert_phase h p out ?s1] =>
        apply (convert_phase_keeps h
                 (fun o => _temp_files o = (_temp_files (fst s) ++ [out])%list)
                 ltac:(intros l o H; exact H) p out s1)
    end.
    reflexivity.
  - repeat split.
Qed.

Lemma temp_file_is_registered_witness :
  _temp_files
    (fst (snd (LADDER_OT_import_cad._process_current_file
                 Demo.silent_second_host Demo.three_file_batch)))
  = ["/tmp/0.stl"].
Proof.
  assert (Hp : _files_to_process (fst Demo.three_file_batch)
               !! _current_index (fst Demo.three_file_batch)
               = Some (Demo.path_of "/cad/" "a" ".step"))
    by reflexivity.
  pose proof (temp_file_is_registered Demo.silent_second_host
                Demo.three_file_batch _ Hp) as H.
  cbv zeta in H.
  assert (Hm : mkstemp Demo.silent_second_host
                 (files (engine (snd Demo.three_file_batch)))
               = Ok "/tmp/0.stl")
    by (vm_compute; reflexivity).
  rewrite Hm in H. exact H.
Defined.

(** ** One file: the scene and the imported objects *)

Lemma grown_refl (sc : Scene) : grown sc sc.
Proof.
  repeat split; [exists []|exists []]; rewrite app_nil_r; reflexivity.
Qed.

Lemma update_obj_ids (x : nat) (f : Obj -> Obj) (sc : Scene) :
  (forall o, obj_id (f o) = obj_id o) ->
  ids (update_obj x f sc) = ids sc.
Proof.
  intros Hf. unfold ids, update_obj. cbn [objects set_objects].
  rewrite map_map. apply map_ext. intros o.
  destruct (Nat.eqb (obj_id o) x); [apply Hf|reflexivity].
Qed.

Lemma update_obj_grown (sc0 sc : Scene) (x : nat) (f : Obj -> Obj) :
  ~ In x (ids sc0) -> grown sc0 sc -> grown sc0 (update_obj x f sc).
Proof.
  intros Hx ([added Ho] & Hc & Hcur & Hops).
  unfold update_obj. repeat split; cbn [objects collections cursor_location ops set_objects];
    try assumption.
  exists (map (fun o => if Nat.eqb (obj_id o) x then f o else o) added).
  rewrite Ho, map_app. f_equal.
  rewrite <- (map_id (objects sc0)) at 2. apply map_ext_in.
  intros o Ho'. destruct (Nat.eqb_spec (obj_id o) x) as [E|E]; [|reflexivity].
  exfalso. apply Hx. unfold ids. rewrite <- E. apply in_map, Ho'.
Qed.

Lemma run_op_grown (sc0 sc : Scene) (op : HostOp) :
  grown sc0 sc -> grown sc0 (run_op op sc).
Proof.
  intros (Ho & Hc & Hcur & [l Hl]). repeat split; try assumption.
  exists (l ++ [op])%list. cbn. rewrite Hl, app_assoc. reflexivity.
Qed.

Lemma run_ops_grown (sc0 sc : Scene) (l : list HostOp) :
  grown sc0 sc -> grown sc0 (LADDER_OT_import_cad.run_ops l sc).
Proof.
  unfold LADDER_OT_import_cad.run_ops. revert sc.
  induction l as [|op l IH]; intros sc H; [exact H|].
  cbn [fold_left]. apply IH, run_op_grown, H.
Qed.

Lemma run_ops_ids (sc : Scene) (l : list HostOp) :
  objects (LADDER_OT_import_cad.run_ops l sc) = objects sc.
Proof.
  unfold LADDER_OT_import_cad.run_ops. revert sc.
  induction l as [|op l IH]; intros sc; [reflexivity|].
  cbn [fold_left]. rewrite IH. reflexivity.
Qed.

(** Post-processing one object runs operators and nothing else: the
    objects and the collections are as before, and so is the 3D cursor,
    which is put back after an origin set to the world origin. *)
Lemma post_process_keeps_scene (o : Operator) (x : nat) (sc : Scene) :
  let sc' := LADDER_OT_import_cad.post_process o x sc in
  objects sc' = objects sc /\ collections sc' = collections sc /\
  cursor_location sc' = cursor_location sc /\
  exists l, ops sc' = (ops sc ++ l)%list.
Proof.
  assert (Hgrown : grown sc (LADDER_OT_import_cad.post_process o x sc) /\
                   objects (LADDER_OT_import_cad.post_process o x sc)
                   = objects sc).
  { unfold LADDER_OT_import_cad.post_process.
    destruct (find_obj x sc) as [ob|]; [|split; [apply grown_refl|reflexivity]].
    destruct (negb (String.eqb (obj_type ob) "MESH"));
      [split; [apply grown_refl|reflexivity]|].
    set (sc1 := LADDER_OT_import_cad.run_ops
                  [SelectAll_DESELECT; SelectSet x; SetActive x] sc).
    assert (H1 : grown sc sc1 /\ objects sc1 = objects sc)
      by (split; [apply run_ops_grown, grown_refl|apply run_ops_ids]).
    set (sc2 := if smooth_shading o then run_op ShadeSmooth sc1 else sc1).
    assert (H2 : grown sc sc2 /\ objects sc2 = objects sc).
    { unfold sc2. destruct (smooth_shading o); [|exact H1].
      split; [apply run_op_grown, H1|apply H1]. }
    set (sc3 := if GmshManager.Qgt_bool (merge_distance o) 0
                then LADDER_OT_import_cad.run_ops
                       [ModeSet "EDIT"; MeshSelectAll;
                        RemoveDoubles (merge_distance o); ModeSet "OBJECT"] sc2
                else sc2).
    assert (H3 : grown sc sc3 /\ objects sc3 = objects sc).
    { unfold sc3. destruct (GmshManager.Qgt_bool _ _); [|exact H2].
      split; [apply run_ops_grown, H2|rewrite run_ops_ids; apply H2]. }
    set (sc4 := if recalc_normals o
                then LADDER_OT_import_cad.run_ops
                       [ModeSet "EDIT"; MeshSelectAll;
                        NormalsMakeConsistent; ModeSet "OBJECT"] sc3
                else sc3).
    assert (H4 : grown sc sc4 /\ objects sc4 = objects sc).
    { unfold sc4. destruct (recalc_normals o); [|exact H3].
      split; [apply run_ops_grown, H3|rewrite run_ops_ids; apply H3]. }
    set (sc5 := if apply_transform o then run_op TransformApply sc4 else sc4).
    assert (H5 : grown sc sc5 /\ objects sc5 = objects sc).
    { unfold sc5. destruct (apply_transform o); [|exact H4].
      split; [apply run_op_grown, H4|apply H4]. }
    clearbody sc5. clear - H5.
    destruct (set_origin o).
    - exact H5.
    - split; [apply run_op_grown, H5|apply H5].
    - split; [apply run_op_grown, H5|apply H5].
    - split; [apply run_op_grown, H5|apply H5].
    - destruct H5 as [(Ho & Hc & Hcur & [l Hl]) Hobj].
      split; [|exact Hobj].
      repeat split; try assumption.
      exists (l ++ [OriginSet "ORIGIN_CURSOR" ""])%list.
      cbn. rewrite Hl, app_assoc. reflexivity. }
  destruct Hgrown as [(_ & Hc & Hcur & Hops) Hobj].
  cbv zeta. repeat split; assumption.
Qed.

Lemma post_process_grown (sc0 sc : Scene) (o : Operator) (x : nat) :
  grown sc0 sc -> grown sc0 (LADDER_OT_import_cad.post_process o x sc).
Proof.
  intros ([added Ho] & Hc & Hcur & [l Hl]).
  destruct (post_process_keeps_scene o x sc) as (Ho' & Hc' & Hcur' & [l' Hl']).
  repeat split; try congruence.
  - exists added. congruence.
  - exists (l ++ l')%list. rewrite Hl', Hl, app_assoc. reflexivity.
Qed.

Lemma post_process_all_grown (sc0 : Scene) (o : Operator) (objs : list nat)
    (sc : Scene) :
  grown sc0 sc ->
  grown sc0 (fold_left (fun sc obj => LADDER_OT_import_cad.post_process o obj sc)
               objs sc) /\
  ids (fold_left (fun sc obj => LADDER_OT_import_cad.post_process o obj sc)
         objs sc) = ids sc.
Proof.
  revert sc. induction objs as [|x objs IH]; intros sc H; [split; [exact H|reflexivity]|].
  cbn [fold_left].
  destruct (IH _ (post_process_grown sc0 sc o x H)) as [H1 H2].
  split; [exact H1|]. rewrite H2. unfold ids.
  destruct (post_process_keeps_scene o x sc) as (Ho & _). cbv zeta in Ho.
  rewrite Ho. reflexivity.
Qed.

Lemma rename_obj_id (n : string) (o : Obj) : obj_id (rename_obj n o) = obj_id o.
Proof. reflexivity. Qed.

Lemma relink_obj_id (c : nat) (o : Obj) : obj_id (relink_obj c o) = obj_id o.
Proof. reflexivity. Qed.

(** Writing to objects that were not in [sc0], one after the other. *)
Lemma updates_grown (sc0 : Scene) (step : Scene -> nat -> Scene)
    (objs : list nat) (sc : Scene) :
  (forall sc x, exists f, (forall o, obj_id (f o) = obj_id o) /\
                          step sc x = update_obj x f sc) ->
  (forall x, In x objs -> ~ In x (ids sc0)) ->
  grown sc0 sc ->
  grown sc0 (fold_left step objs sc) /\ ids (fold_left step objs sc) = ids sc.
Proof.
  intros Hstep. revert sc.
  induction objs as [|x objs IH]; intros sc Hnew H; [split; [exact H|reflexivity]|].
  cbn [fold_left]. destruct (Hstep sc x) as (f & Hf & ->).
  destruct (IH (update_obj x f sc)) as [H1 H2].
  - intros y Hy. apply Hnew. right. exact Hy.
  - apply update_obj_grown; [apply Hnew; left; reflexivity|exact H].
  - split; [exact H1|]. rewrite H2. apply update_obj_ids, Hf.
Qed.

Lemma rename_with_part_names_grown (sc0 : Scene) (h : Host) (base : string)
    (names : list string) (objs : list nat) (i : nat) (sc : Scene) :
  (forall x, In x objs -> ~ In x (ids sc0)) ->
  grown sc0 sc ->
  grown sc0 (LADDER_OT_import_cad.rename_with_part_names h base names i objs sc) /\
  ids (LADDER_OT_import_cad.rename_with_part_names h base names i objs sc)
  = ids sc.
Proof.
  revert i sc. induction objs as [|x objs IH]; intros i sc Hnew H;
    [split; [exact H|reflexivity]|].
  cbn [LADDER_OT_import_cad.rename_with_part_names].
  destruct (IH (S i) (update_obj x
                        (rename_obj
                           match names !! i with
                           | Some pn => clean_name h pn
                           | None => LADDER_OT_import_cad.numbered base i
                           end) sc)) as [H1 H2].
  - intros y Hy. apply Hnew. right. exact Hy.
  - apply update_obj_grown; [apply Hnew; left; reflexivity|exact H].
  - split; [exact H1|]. rewrite H2. apply update_obj_ids, rename_obj_id.
Qed.

Lemma rename_numbered_grown (sc0 : Scene) (base : string) (objs : list nat)
    (i : nat) (sc : Scene) :
  (forall x, In x objs -> ~ In x (ids sc0)) ->
  grown sc0 sc ->
  grown sc0 (LADDER_OT_import_cad.rename_numbered base i objs sc) /\
  ids (LADDER_OT_import_cad.rename_numbered base i objs sc) = ids sc.
Proof.
  revert i sc. induction objs as [|x objs IH]; intros i sc Hnew H;
    [split; [exact H|reflexivity]|].
  cbn [LADDER_OT_import_cad.rename_numbered].
  destruct (IH (S i) (update_obj x
                        (rename_obj (LADDER_OT_import_cad.numbered base i)) sc))
    as [H1 H2].
  - intros y Hy. apply Hnew. right. exact Hy.
  - apply update_obj_grown; [apply Hnew; left; reflexivity|exact H].
  - split; [exact H1|]. rewrite H2. apply update_obj_ids, rename_obj_id.
Qed.

Lemma rename_objects_grown (sc0 : Scene) (h : Host) (o : Operator)
    (base : string) (names : list string) (objs : list nat) (sc : Scene) :
  (forall x, In x objs -> ~ In x (ids sc0)) ->
  grown sc0 sc ->
  grown sc0 (LADDER_OT_import_cad.rename_objects h o base names objs sc) /\
  ids (LADDER_OT_import_cad.rename_objects h o base names objs sc) = ids sc.
Proof.
  intros Hnew H. unfold LADDER_OT_import_cad.rename_objects.
  destruct (use_part_names o && negb (Nat.eqb (length names) 0)).
  - apply rename_with_part_names_grown; assumption.
  - destruct objs as [|x [|y objs]].
    + apply rename_numbered_grown; assumption.
    + split; [|apply update_obj_ids, rename_obj_id].
      apply update_obj_grown; [apply Hnew; left; reflexivity|exact H].
    + apply rename_numbered_grown; assumption.
Qed.

Lemma move_to_collection_grown (sc0 : Scene) (o : Operator) (objs : list nat)
    (sc : Scene) :
  (forall x, In x objs -> ~ In x (ids sc0)) ->
  grown sc0 sc ->
  grown sc0 (LADDER_OT_import_cad.move_to_collection o objs sc) /\
  ids (LADDER_OT_import_cad.move_to_collection o objs sc) = ids sc.
Proof.
  intros Hnew H. unfold LADDER_OT_import_cad.move_to_collection.
  destruct (_target_collection o) as [c|]; [|split; [exact H|reflexivity]].
  apply updates_grown; try assumption.
  intros sc1 x. exists (relink_obj c). split; [apply relink_obj_id|reflexivity].
Qed.

(** What [adopt_new_objects] leaves. *)
Lemma adopt_new_objects_run (h : Host) (p : Path) (names : list string)
    (new : list nat) (s : LADDER_OT_import_cad.St) :
  let o := fst s in
  let r := LADDER_OT_import_cad.adopt_new_objects h p names new s in
  fst r = Ok "OK" /\
  fst (snd r)
  = set_all_imported_objects (_all_imported_objects o ++ new) o /\
  scene (snd (snd r))
  = fold_left (fun sc obj => LADDER_OT_import_cad.post_process o obj sc) new
      (LADDER_OT_import_cad.move_to_collection o new
         (LADDER_OT_import_cad.rename_objects h o (stem p) names new
            (scene (snd s)))).
Proof. repeat split. Qed.

Lemma adopt_new_objects_adopts (sc0 : Scene) (imp0 : list nat) (h : Host)
    (p : Path) (names : list string) (new : list nat)
    (s : LADDER_OT_import_cad.St) :
  _all_imported_objects (fst s) = imp0 ->
  grown sc0 (scene (snd s)) ->
  (forall x, In x new -> ~ In x (ids sc0) /\ In x (ids (scene (snd s)))) ->
  adopted sc0 imp0 new
    (snd (LADDER_OT_import_cad.adopt_new_objects h p names new s)).
Proof.
  intros Himp Hg Hnew.
  destruct (adopt_new_objects_run h p names new s) as (_ & Hself & Hscene).
  cbv zeta in Hself, Hscene.
  assert (Hfresh : forall x, In x new -> ~ In x (ids sc0))
    by (intros x Hx; apply Hnew, Hx).
  destruct (rename_objects_grown sc0 h (fst s) (stem p) names new
              (scene (snd s)) Hfresh Hg) as [G1 I1].
  destruct (move_to_collection_grown sc0 (fst s) new _ Hfresh G1) as [G2 I2].
  destruct (post_process_all_grown sc0 (fst s) new _ G2) as [G3 I3].
  unfold adopted. rewrite Hscene, Hself. split; [exact G3|].
  split; [cbn; rewrite Himp; reflexivity|].
  intros x Hx. split; [apply Hfresh, Hx|].
  rewrite I3, I2, I1. apply Hnew, Hx.
Qed.

Lemma ends_bind {S A B} (P R : S -> Prop) (Q : result B -> S -> Prop)
    (m : M S A) (k : A -> M S B) :
  moves P m R -> (forall a, ends R (k a) Q) ->
  (forall e s, R s -> Q (Raise e) s) ->
  ends P (bind m k) Q.
Proof.
  intros Hm Hk Hraise s HP. specialize (Hm s HP). unfold bind.
  destruct (m s) as [[a|e] s']; cbn [fst snd] in *.
  - apply Hk, Hm.
  - apply Hraise, Hm.
Qed.

Lemma ends_ret {S A} (P : S -> Prop) (Q : result A -> S -> Prop) (a : A) :
  (forall s, P s -> Q (Ok a) s) -> ends P (ret a) Q.
Proof. intros H s HP. apply H, HP. Qed.

Lemma ends_given {S A} (V : Prop) (P : S -> Prop) (m : M S A)
    (Q : result A -> S -> Prop) :
  (V -> ends P m Q) -> ends (fun s => V /\ P s) m Q.
Proof. intros H s [HV HP]. apply H; assumption. Qed.

Lemma ends_weaken_pre {S A} (P P' : S -> Prop) (m : M S A)
    (Q : result A -> S -> Prop) :
  (forall s, P' s -> P s) -> ends P m Q -> ends P' m Q.
Proof. intros HP Hm s H. apply Hm, HP, H. Qed.

Lemma ends_read_world {A} (P : LADDER_OT_import_cad.St -> Prop)
    (k : World -> M LADDER_OT_import_cad.St A)
    (Q : result A -> LADDER_OT_import_cad.St -> Prop) :
  (forall w, ends (fun s => snd s = w /\ P s) (k w) Q) ->
  ends P (bind LADDER_OT_import_cad.world k) Q.
Proof. intros H s HP. apply (H (snd s) s). split; [reflexivity|exact HP]. Qed.

Lemma ends_if {S A} (P : S -> Prop) (Q : result A -> S -> Prop) (b : bool)
    (m1 m2 : M S A) :
  ends P m1 Q -> ends P m2 Q -> ends P (if b then m1 else m2) Q.
Proof. destruct b; auto. Qed.

Section SceneWalk.
Import LADDER_OT_import_cad.
Variable h : Host.
Variable sc0 : Scene.
Variable imp0 : list nat.

Local Abbreviation P0 := (untouched sc0 imp0).
Local Abbreviation Q0 := (file_outcome sc0 imp0).

Lemma untouched_not_ok (r : result string) (s : St) :
  r <> Ok "OK" -> P0 s -> Q0 r s.
Proof.
  intros Hr [Hsc Himp]. exists []. split.
  - split; [rewrite Hsc; apply grown_refl|]. split.
    + rewrite app_nil_r. exact Himp.
    + intros x [].
  - split; [intros H; contradiction|intros H; contradiction].
Qed.

Lemma delivered_not_ok (r : result string) (s : St) :
  r <> Ok "OK" -> delivered sc0 imp0 s -> Q0 r s.
Proof.
  intros Hr [Himp [created Hsc]]. exists []. split.
  - split.
    + rewrite Hsc. repeat split; cbn; [exists created|exists []];
        rewrite ?app_nil_r; reflexivity.
    + split; [rewrite app_nil_r; exact Himp|intros x []].
  - split; [intros H; contradiction|intros H; contradiction].
Qed.

Lemma in_world_untouched (f : World -> World) :
  (forall w, scene (f w) = scene w) -> keeps P0 (in_world f).
Proof. intros Hf s [Hsc Himp]. split; [cbn; rewrite Hf; exact Hsc|exact Himp]. Qed.

Lemma self_untouched : keeps P0 self.
Proof. intros s H. exact H. Qed.

Lemma world_untouched : keeps P0 world.
Proof. intros s H. exact H. Qed.

Lemma logger_error_untouched (msg : string) : keeps P0 (logger_error msg).
Proof. apply in_world_untouched. reflexivity. Qed.

Lemma report_untouched (level msg : string) : keeps P0 (report level msg).
Proof. apply in_world_untouched. reflexivity. Qed.

Lemma announce_untouched (i : nat) (n ph : string) : keeps P0 (announce i n ph).
Proof.
  apply keeps_bind; [|intros _]; apply in_world_untouched; reflexivity.
Qed.

Lemma on_engine_untouched {A} (f : Engine -> A * Engine) :
  keeps P0 (on_engine f).
Proof. intros s H. unfold on_engine. destruct (f _). exact H. Qed.

Lemma create_temp_file_untouched : keeps P0 (create_temp_file h).
Proof.
  intros s H. unfold create_temp_file. destruct (mkstemp h _); exact H.
Qed.

Lemma determine_unit_scale_untouched (p : Path) :
  keeps P0 (determine_unit_scale h p).
Proof.
  unfold determine_unit_scale.
  apply keeps_bind; [apply self_untouched|intros o].
  apply keeps_if; [|apply keeps_ret].
  apply keeps_bind; [apply on_engine_untouched|intros i; apply keeps_ret].
Qed.

Lemma logger_error_delivered (msg : string) :
  keeps (delivered sc0 imp0) (logger_error msg).
Proof. intros s H. exact H. Qed.

Lemma call_stl_import_delivers (f : string) (q : Q) :
  moves P0 (call_stl_import h f q) (delivered sc0 imp0).
Proof.
  intros s [Hsc Himp]. unfold call_stl_import. rewrite Hsc.
  destruct (stl_import h sc0 f q) as [r created].
  split; [exact Himp|]. exists created. reflexivity.
Qed.

Lemma import_phase_ends (p : Path) (out : string) (q : Q) (names : list string) :
  ends P0 (import_phase h p out q names) Q0.
Proof.
  unfold import_phase.
  apply (ends_bind P0 P0); [apply self_untouched| |intros e s; apply untouched_not_ok; discriminate].
  intros o.
  apply (ends_bind P0 P0); [apply announce_untouched| |intros e s; apply untouched_not_ok; discriminate].
  intros _.
  apply ends_read_world. intros w.
  apply (ends_weaken_pre (fun s => scene w = sc0 /\ P0 s));
    [intros s [<- Hs]; split; [apply Hs|exact Hs]|].
  apply ends_given. intros Hw. rewrite Hw.
  apply (ends_bind P0 (delivered sc0 imp0)).
  - apply moves_try_except with (R := delivered sc0 imp0).
    + apply (moves_bind _ (delivered sc0 imp0));
        [apply call_stl_import_delivers|auto|intros _; apply moves_ret].
    + auto.
    + intros e. apply keeps_bind; [apply logger_error_delivered|intros _; apply keeps_ret].
  - intros imported. destruct imported; cbn [negb];
      [|apply ends_ret; intros s; apply delivered_not_ok; discriminate].
    apply ends_read_world. intros w'. intros s [<- Hs].
    destruct Hs as [Himp [created Hsc]].
    destruct (filter _ _) as [|x new] eqn:Enew.
    + apply delivered_not_ok; [discriminate|].
      split; [exact Himp|exists created; exact Hsc].
    + exists (x :: new). split; [|split; [discriminate|reflexivity]].
      apply adopt_new_objects_adopts; [exact Himp| |].
      * rewrite Hsc. repeat split; cbn; [exists created|exists []];
          rewrite ?app_nil_r; reflexivity.
      * intros y Hy. rewrite <- Enew in Hy.
        apply list_elem_of_In, list_elem_of_filter in Hy.
        destruct Hy as [Hfresh Hin]. split.
        -- intros Hold. apply Hfresh, elem_of_list_to_set, list_elem_of_In.
           exact Hold.
        -- apply list_elem_of_In. exact Hin.
  - intros e s. apply delivered_not_ok. discriminate.
Qed.

Lemma convert_phase_ends (p : Path) (out : string) :
  ends P0 (convert_phase h p out) Q0.
Proof.
  unfold convert_phase.
  apply (ends_bind P0 P0); [apply determine_unit_scale_untouched|
                            |intros e s; apply untouched_not_ok; discriminate].
  intros q.
  apply (ends_bind P0 P0); [apply self_untouched|
                            |intros e s; apply untouched_not_ok; discriminate].
  intros o.
  apply (ends_bind P0 P0); [apply on_engine_untouched|
                            |intros e s; apply untouched_not_ok; discriminate].
  intros [[success message] names]. destruct success; cbn [negb].
  - apply (ends_bind P0 P0); [apply world_untouched|
                              |intros e s; apply untouched_not_ok; discriminate].
    intros w. apply ends_if; [|apply import_phase_ends].
    apply (ends_bind P0 P0); [apply logger_error_untouched|
                              |intros e s; apply untouched_not_ok; discriminate].
    intros _. apply ends_ret. intros s. apply untouched_not_ok. discriminate.
  - apply (ends_bind P0 P0); [apply logger_error_untouched|
                              |intros e s; apply untouched_not_ok; discriminate].
    intros _.
    apply (ends_bind P0 P0); [apply report_untouched|
                              |intros e s; apply untouched_not_ok; discriminate].
    intros _. apply ends_ret. intros s. apply untouched_not_ok. discriminate.
Qed.

Lemma process_current_file_ends : ends P0 (_process_current_file h) Q0.
Proof.
  unfold _process_current_file.
  apply (ends_bind P0 P0); [apply self_untouched|
                            |intros e s; apply untouched_not_ok; discriminate].
  intros o. destruct (_ !! _) as [p|];
    [|intros s; apply untouched_not_ok; discriminate].
  apply (ends_bind P0 P0); [apply announce_untouched|
                            |intros e s; apply untouched_not_ok; discriminate].
  intros _.
  apply (ends_bind P0 P0); [|
                            |intros e s; apply untouched_not_ok; discriminate].
  - apply keeps_try_except.
    + apply keeps_bind; [apply create_temp_file_untouched|intros x; apply keeps_ret].
    + intros e. apply keeps_bind; [apply logger_error_untouched|intros _; apply keeps_ret].
  - intros [out|]; [apply convert_phase_ends|].
    apply ends_ret. intros s. apply untouched_not_ok. discriminate.
Qed.

End SceneWalk.

(** X14: whatever the engine and the importer do, processing one file
    leaves every object that was in the scene as it was, in its place,
    with the collections and the 3D cursor unchanged: the scene only
    grows by objects at the end and by operators run.  The list of
    imported objects is extended by the objects adopted, each of which is
    an object of the scene now and was none before; and the file is
    reported 'OK' exactly when at least one object was adopted.  (The
    operators of the post-processing are taken to return.) *)
Theorem process_file_adopts_new_objects (h : Host)
    (s : LADDER_OT_import_cad.St) :
  let r := LADDER_OT_import_cad._process_current_file h s in
  exists new,
    grown (scene (snd s)) (scene (snd (snd r))) /\
    _all_imported_objects (fst (snd r))
    = (_all_imported_objects (fst s) ++ new)%list /\
    (forall x, In x new ->
       ~ In x (ids (scene (snd s))) /\ In x (ids (scene (snd (snd r))))) /\
    (fst r = Ok "OK" <-> new <> []).
Proof.
  intros r.
  destruct (process_current_file_ends h (scene (snd s))
              (_all_imported_objects (fst s)) s (conj eq_refl eq_refl))
    as (new & (Hg & Himp & Hnew) & Hok).
  exists new. split; [exact Hg|]. split; [exact Himp|].
  split; [exact Hnew|exact Hok].
Qed.

(** X15: post-processing an object only runs operators: the objects, the
    collections and the 3D cursor of the scene are as before, the cursor
    being put back after an origin set to the world origin; and for an
    object that is not a mesh the scene is left as it is, no operator is
    run.  (The operators are taken to return.) *)
Theorem post_process_only_runs_operators (o : Operator) (x : nat) (sc : Scene) :
  let sc' := LADDER_OT_import_cad.post_process o x sc in
  objects sc' = objects sc /\ collections sc' = collections sc /\
  cursor_location sc' = cursor_location sc /\
  (exists l, ops sc' = (ops sc ++ l)%list) /\
  (forall ob, find_obj x sc = Some ob -> obj_type ob <> "MESH" -> sc' = sc) /\
  (forall ob, find_obj x sc = Some ob -> obj_type ob = "MESH" ->
     exists l, ops sc'
               = (ops sc ++ SelectAll_DESELECT :: SelectSet x :: SetActive x :: l)%list).
Proof.
  intros sc'.
  destruct (post_process_keeps_scene o x sc) as (Ho & Hc & Hcur & Hops).
  fold sc' in Ho, Hc, Hcur, Hops.
  repeat split; try assumption.
  - intros ob Hfind Htype. unfold sc', LADDER_OT_import_cad.post_process.
    rewrite Hfind.
    destruct (String.eqb_spec (obj_type ob) "MESH") as [E|E]; [contradiction|].
    reflexivity.
  - intros ob Hfind Htype. unfold sc', LADDER_OT_import_cad.post_process.
    rewrite Hfind, Htype. cbn [String.eqb Ascii.eqb Bool.eqb negb].
    set (sc1 := LADDER_OT_import_cad.run_ops
                  [SelectAll_DESELECT; SelectSet x; SetActive x] sc).
    assert (H1 : exists l, ops sc1
                 = (ops sc ++ SelectAll_DESELECT :: SelectSet x :: SetActive x :: l)%list).
    { exists []. unfold sc1. cbn. rewrite <- !app_assoc. reflexivity. }
    clearbody sc1.
    assert (Hop : forall op sc2,
              (exists l, ops sc2
                 = (ops sc ++ SelectAll_DESELECT :: SelectSet x :: SetActive x :: l)%list) ->
              exists l, ops (run_op op sc2)
                 = (ops sc ++ SelectAll_DESELECT :: SelectSet x :: SetActive x :: l)%list).
    { intros op sc2 [l Hl]. exists (l ++ [op])%list. cbn. rewrite Hl.
      rewrite <- app_assoc. reflexivity. }
    assert (Hops' : forall l0 sc2,
              (exists l, ops sc2
                 = (ops sc ++ SelectAll_DESELECT :: SelectSet x :: SetActive x :: l)%list) ->
              exists l, ops (LADDER_OT_import_cad.run_ops l0 sc2)
                 = (ops sc ++ SelectAll_DESELECT :: SelectSet x :: SetActive x :: l)%list).
    { unfold LADDER_OT_import_cad.run_ops.
      induction l0 as [|op l0 IH]; intros sc2 H2; [exact H2|].
      cbn [fold_left]. apply IH, Hop, H2. }
    set (sc2 := if smooth_shading o then run_op ShadeSmooth sc1 else sc1).
    assert (H2 : exists l, ops sc2
                 = (ops sc ++ SelectAll_DESELECT :: SelectSet x :: SetActive x :: l)%list)
      by (unfold sc2; destruct (smooth_shading o); [apply Hop|]; exact H1).
    clearbody sc2.
    match goal with |- context [if GmshManager.Qgt_bool ?a ?b then ?u else ?v] =>
      set (sc3 := if GmshManager.Qgt_bool a b then u else v) end.
    assert (H3 : exists l, ops sc3
                 = (ops sc ++ SelectAll_DESELECT :: SelectSet x :: SetActive x :: l)%list)
      by (unfold sc3; destruct (GmshManager.Qgt_bool _ _); [apply Hops'|]; exact H2).
    clearbody sc3.
    match goal with |- context [if recalc_normals o then ?u else ?v] =>
      set (sc4 := if recalc_normals o then u else v) end.
    assert (H4 : exists l, ops sc4
                 = (ops sc ++ SelectAll_DESELECT :: SelectSet x :: SetActive x :: l)%list)
      by (unfold sc4; destruct (recalc_normals o); [apply Hops'|]; exact H3).
    clearbody sc4.
    match goal with |- context [if apply_transform o then ?u else ?v] =>
      set (sc5 := if apply_transform o then u else v) end.
    assert (H5 : exists l, ops sc5
                 = (ops sc ++ SelectAll_DESELECT :: SelectSet x :: SetActive x :: l)%list)
      by (unfold sc5; destruct (apply_transform o); [apply Hop|]; exact H4).
    clearbody sc5.
    destruct (set_origin o); try exact H5; try (apply Hop; exact H5).
    destruct H5 as [l Hl]. exists (l ++ [OriginSet "ORIGIN_CURSOR" ""])%list.
    cbn. rewrite Hl, <- app_assoc. reflexivity.
Qed.

(** ** The names and the collection of adopted objects *)













(** ** The end of a batch: what the user sees *)



(** ** ImportProgress over the phases of a file *)

Lemma percent_phases (t i : Z) :
  0 < t -> 0 <= i -> i < t ->
  let A := (inject_Z i / inject_Z t * 100)%Q in
  let B := (inject_Z i / inject_Z t * 100 + (1 # 2) / inject_Z t * 100)%Q in
  let C := (inject_Z (i + 1) / inject_Z t * 100)%Q in
  (0 <= A /\ A < B /\ B < C /\ C <= 100)%Q.
Proof.
  intros Ht Hi Hit A B C.
  assert (Hu : (0 < / inject_Z t)%Q).
  { apply Qinv_lt_0_compat. rewrite <- (Zlt_Qlt 0). exact Ht. }
  assert (Hy : (0 <= inject_Z i * / inject_Z t)%Q).
  { apply Qmult_le_0_compat;
      [rewrite <- (Zle_Qle 0); exact Hi|apply Qlt_le_weak, Hu]. }
  assert (Hone : (inject_Z (i + 1) * / inject_Z t <= 1)%Q).
  { apply Qle_shift_div_r; [rewrite <- (Zlt_Qlt 0); exact Ht|].
    rewrite Qmult_1_l, <- Zle_Qle. lia. }
  assert (Hsum : (inject_Z (i + 1) * / inject_Z t
                  == inject_Z i * / inject_Z t + / inject_Z t)%Q).
  { rewrite inject_Z_plus. ring. }
  unfold A, B, C, Qdiv in *. clear A B C.
  set (u := (/ inject_Z t)%Q) in *. set (y := (inject_Z i * u)%Q) in *.
  set (z := (inject_Z (i + 1) * u)%Q) in *.
  repeat split; lra.
Qed.

(** X18: for a batch of [total_files > 0] files and a file index
    [0 <= i < total_files], the percentage shown while file [i] is being
    imported is lower than the one shown while it is being converted,
    which comes first: the half-file bonus belongs to the "converting"
    phase.  Both lie between 0 and the percentage of the import of the
    next file, which is at most 100. *)
Theorem progress_percent_over_phases (p : ImportProgress) (i : Z) :
  0 < total_files p -> 0 <= i -> i < total_files p ->
  let shown ph k :=
    Progress.progress_percent (Progress.update k (current_filename p) ph p) in
  (0 <= shown "importing" i)%Q /\
  (shown "importing" i < shown "converting" i)%Q /\
  (shown "converting" i < shown "importing" (i + 1)%Z)%Q /\
  (shown "importing" (i + 1)%Z <= 100)%Q.
Proof.
  intros Ht Hi Hit shown.
  destruct (percent_phases (total_files p) i Ht Hi Hit) as (HA & HAB & HBC & HC).
  cbv zeta in HA, HAB, HBC, HC.
  assert (Hne : (total_files p =? 0)%Z = false) by (apply Z.eqb_neq; lia).
  unfold shown, Progress.progress_percent, Progress.update.
  cbn [total_files current_file phase]. rewrite Hne.
  cbn [String.eqb Ascii.eqb Bool.eqb].
  rewrite !Q.min_l by lra.
  repeat split; assumption.
Qed.

Lemma progress_percent_over_phases_witness :
  (Progress.progress_percent
     (Progress.update 1 "model.step" "importing"
        (Progress.start 3 Progress.init))
   < Progress.progress_percent
       (Progress.update 1 "model.step" "converting"
          (Progress.start 3 Progress.init)))%Q.
Proof.
  destruct (progress_percent_over_phases
              (Progress.update 1 "model.step" "converting"
                 (Progress.start 3 Progress.init)) 1
              ltac:(reflexivity) ltac:(discriminate) ltac:(reflexivity))
    as (_ & H & _).
  exact H.
Defined.

(** ** Drag-and-drop: from [files_drop] to [execute] *)

Lemma split_nonempty (sep : ascii) (s : string) : Str.split sep s <> [].
Proof.
  destruct s as [|c r]; cbn [Str.split]; [discriminate|].
  destruct (Ascii.eqb c sep); [discriminate|].
  destruct (Str.split sep r); discriminate.
Qed.

Lemma join_cons (sep : ascii) (x y : string) (l : list string) :
  Str.join (String sep EmptyString) (x :: y :: l)
  = x +:+ String sep (Str.join (String sep EmptyString) (y :: l)).
Proof. reflexivity. Qed.

Lemma join_of_split (sep : ascii) (s : string) :
  Str.join (String sep EmptyString) (Str.split sep s) = s.
Proof.
  induction s as [|c r IH]; [reflexivity|].
  cbn [Str.split]. pose proof (split_nonempty sep r) as Hne.
  destruct (Ascii.eqb_spec c sep) as [->|Hc].
  - destruct (Str.split sep r) as [|w ws]; [contradiction|].
    rewrite join_cons, IH. reflexivity.
  - destruct (Str.split sep r) as [|w ws]; [contradiction|].
    destruct ws as [|w' ws].
    + cbn in IH. cbn. rewrite IH. reflexivity.
    + rewrite join_cons in *. rewrite <- IH. reflexivity.
Qed.

Lemma split_without_separator (sep : ascii) (x : string) :
  Str.has sep x = false -> Str.split sep x = [x].
Proof.
  induction x as [|c r IH]; intros H; [reflexivity|].
  cbn [Str.has] in H. apply orb_false_iff in H. destruct H as [Hc Hr].
  cbn [Str.split]. rewrite Hc, (IH Hr). reflexivity.
Qed.

Lemma split_at_separator (sep : ascii) (x rest : string) :
  Str.has sep x = false ->
  Str.split sep (x +:+ String sep rest) = x :: Str.split sep rest.
Proof.
  induction x as [|c r IH]; intros H.
  - change (EmptyString +:+ String sep rest) with (String sep rest).
    cbn [Str.split]. rewrite Ascii.eqb_refl. reflexivity.
  - cbn [Str.has] in H. apply orb_false_iff in H. destruct H as [Hc Hr].
    change (String c r +:+ String sep rest) with (String c (r +:+ String sep rest)).
    cbn [Str.split]. rewrite Hc, (IH Hr). reflexivity.
Qed.

Lemma split_of_join (sep : ascii) (l : list string) :
  l <> [] -> (forall x, In x l -> Str.has sep x = false) ->
  Str.split sep (Str.join (String sep EmptyString) l) = l.
Proof.
  induction l as [|x l IH]; intros Hne Hl; [contradiction|].
  destruct l as [|y l].
  - apply split_without_separator, Hl. left. reflexivity.
  - rewrite join_cons, split_at_separator by (apply Hl; left; reflexivity).
    f_equal. apply IH; [discriminate|]. intros z Hz. apply Hl. right. exact Hz.
Qed.

Lemma join_truthy (sep : string) (x : string) (l : list string) :
  Py.truthy x = true -> Py.truthy (Str.join sep (x :: l)) = true.
Proof.
  intros Hx. destruct x as [|c r]; [discriminate|].
  destruct l; reflexivity.
Qed.

Lemma filter_all (A : Type) (f : A -> bool) (l : list A) :
  (forall x, In x l -> f x = true) -> List.filter f l = l.
Proof.
  induction l as [|x l IH]; intros H; [reflexivity|].
  cbn. rewrite (H x) by (left; reflexivity).
  f_equal. apply IH. intros y Hy. apply H. right. exact Hy.
Qed.

(** X19: what [files_drop] hands over in [drop_paths] is what [execute]
    gathers.  When no dropped path is empty or contains the separator
    ";", the files [execute] gathers from the [drop_paths] built by
    [files_drop] are the dropped paths with a supported suffix, in the
    order of the drop: joining and splitting loses nothing, and the
    second suffix filter removes nothing. *)
Theorem dropped_files_reach_execute (x : Surroundings) (paths : list string)
    (inv : LADDER_FH_cad.Invocation) (props : Props.t) :
  LADDER_FH_cad.files_drop x paths = Some inv ->
  Props.drop_paths props = LADDER_FH_cad.inv_drop_paths inv ->
  (forall p, In p paths -> Py.truthy p = true /\ Str.has ";" p = false) ->
  Execute.gather_files x props
  = map (to_path x)
        (List.filter (fun p => LADDER_FH_cad.supported (to_path x p)) paths).
Proof.
  intros Hdrop Hprops Hpaths. unfold LADDER_FH_cad.files_drop in Hdrop.
  destruct paths as [|p0 paths0] eqn:Ep; [discriminate|]. rewrite <- Ep in *.
  set (valid := List.filter (fun p => LADDER_FH_cad.supported (to_path x p)) paths)
    in *.
  assert (Hvalid : forall p, In p valid ->
            Py.truthy p = true /\ Str.has ";" p = false /\
            LADDER_FH_cad.supported (to_path x p) = true).
  { intros p Hp. unfold valid in Hp. apply filter_In in Hp.
    destruct Hp as [Hin Hs]. destruct (Hpaths p Hin). auto. }
  destruct valid as [|first rest] eqn:Ev; [discriminate|].
  assert (Hjoin : Props.drop_paths props = Str.join ";" (first :: rest)).
  { rewrite Hprops. injection Hdrop as Hinv. rewrite <- Hinv. reflexivity. }
  clear Hdrop Hprops. unfold Execute.gather_files. rewrite Hjoin.
  rewrite join_truthy by (apply Hvalid; left; reflexivity).
  rewrite split_of_join;
    [|discriminate|intros p Hp; apply Hvalid, Hp].
  rewrite filter_all; [reflexivity|].
  intros p Hp. destruct (Hvalid p Hp) as (Ht & _ & Hs). rewrite Ht, Hs.
  reflexivity.
Qed.

Lemma dropped_files_reach_execute_witness :
  Execute.gather_files (Samples.surroundings "")
    (Samples.props_for "/cad/a.step;/cad/b.STP" "" "NORMAL")
  = [Samples.plain_path "/cad/a.step"; Samples.plain_path "/cad/b.STP"].
Proof.
  apply (dropped_files_reach_execute (Samples.surroundings "")
           ["/cad/a.step"; "/cad/notes.txt"; "/cad/b.STP"]
           {| LADDER_FH_cad.inv_directory := "/cad/a.step";
              LADDER_FH_cad.inv_files := ["/cad/a.step"; "/cad/b.STP"];
              LADDER_FH_cad.inv_drop_paths := "/cad/a.step;/cad/b.STP" |}).
  - reflexivity.
  - reflexivity.
  - intros p Hp. cbn in Hp.
    destruct Hp as [ <- | [ <- | [ <- | [] ] ] ]; split; reflexivity.
Defined.

Lemma split_pieces (sep : ascii) (s w : string) :
  In w (Str.split sep s) -> Str.has sep w = false.
Proof.
  revert w. induction s as [|c r IH]; intros w Hw.
  - cbn in Hw. destruct Hw as [ <- | [] ]. reflexivity.
  - cbn [Str.split] in Hw. destruct (Ascii.eqb c sep) eqn:Hc.
    + destruct Hw as [ <- | Hw ]; [reflexivity|apply IH, Hw].
    + destruct (Str.split sep r) as [|w0 ws].
      * destruct Hw as [ <- | [] ]. cbn. rewrite Hc. reflexivity.
      * destruct Hw as [ <- | Hw ].
        -- cbn [Str.has]. rewrite Hc. apply IH. left. reflexivity.
        -- apply IH. right. exact Hw.
Qed.

(** X20: where the files gathered by [execute] come from.  With
    [drop_paths] set, every file is the path of a non-empty piece of
    [drop_paths] between separators ";" (so a dropped path that contains
    a ";" is never gathered as such) and has a supported suffix; the
    file browser's selection is not looked at.  Otherwise, with a named
    file in [files], every file is a named file of [files] under
    [directory] with a supported suffix.  Otherwise the only file is
    [filepath], whose suffix is not checked. *)
Theorem gathered_files_origin (x : Surroundings) (props : Props.t) (f : Path) :
  In f (Execute.gather_files x props) ->
  (Py.truthy (Props.drop_paths props) = true /\
   LADDER_FH_cad.supported f = true /\
   exists q, f = to_path x q /\ Py.truthy q = true /\ Str.has ";" q = false /\
             In q (Str.split ";" (Props.drop_paths props))) \/
  (Props.drop_paths props = "" /\
   LADDER_FH_cad.supported f = true /\
   exists n, f = join_path x (Props.directory props) n /\ Py.truthy n = true /\
             In n (Props.files props)) \/
  (Props.drop_paths props = "" /\
   (forall n, In n (Props.files props) -> n = "") /\
   Py.truthy (Props.filepath props) = true /\
   f = to_path x (Props.filepath props)).
Proof.
  unfold Execute.gather_files. intros Hf.
  destruct (Py.truthy (Props.drop_paths props)) eqn:Hd.
  - left. split; [reflexivity|].
    apply in_map_iff in Hf. destruct Hf as (q & <- & Hq).
    apply filter_In in Hq. destruct Hq as [Hq Hc].
    apply andb_true_iff in Hc. destruct Hc as [Ht Hs].
    split; [exact Hs|]. exists q. repeat split; try assumption.
    apply (split_pieces _ _ _ Hq).
  - assert (Hempty : Props.drop_paths props = "")
      by (destruct (Props.drop_paths props); [reflexivity|discriminate]).
    right.
    destruct (negb (Nat.eqb (length (Props.files props)) 0)
              && existsb Py.truthy (Props.files props)) eqn:Hfiles.
    + left. split; [exact Hempty|].
      apply in_map_iff in Hf. destruct Hf as (n & <- & Hn).
      apply filter_In in Hn. destruct Hn as [Hn Hc].
      apply andb_true_iff in Hc. destruct Hc as [Ht Hs].
      split; [exact Hs|]. exists n. repeat split; assumption.
    + right. split; [exact Hempty|].
      destruct (Py.truthy (Props.filepath props)) eqn:Hp; [|destruct Hf].
      destruct Hf as [ <- | [] ]. split; [|split; reflexivity].
      intros n Hn. apply andb_false_iff in Hfiles.
      destruct Hfiles as [Hlen|Hany].
      * apply negb_false_iff, Nat.eqb_eq in Hlen.
        destruct (Props.files props); [destruct Hn|discriminate].
      * destruct n as [|c r]; [reflexivity|].
        assert (Hex : existsb Py.truthy (Props.files props) = true)
          by (apply existsb_exists; exists (String c r); split; [exact Hn|reflexivity]).
        congruence.
Qed.

Lemma gathered_files_origin_witness :
  LADDER_FH_cad.supported (Samples.plain_path "/cad/b.STP") = true.
Proof.
  destruct (gathered_files_origin (Samples.surroundings "")
              (Samples.props_for "/cad/a.step;/cad/b.STP" "/cad/notes.txt" "NORMAL")
              (Samples.plain_path "/cad/b.STP"))
    as [(_ & H & _) | [(H & _) | (H & _)]].
  - cbn. right. left. reflexivity.
  - exact H.
  - discriminate H.
  - discriminate H.
Defined.

(** ** [execute]: refusing or starting a batch *)

Lemma preset_NORMAL : MESH_QUALITY_PRESETS !! "NORMAL" = Some (1 # 10, 10 # 1)%Q.
Proof. vm_compute. reflexivity. Qed.

(** Every preset has a positive minimum size below its maximum size. *)
Lemma presets_ordered (k : string) (b : Q * Q) :
  MESH_QUALITY_PRESETS !! k = Some b -> (0 < fst b)%Q /\ (fst b < snd b)%Q.
Proof.
  intros H. unfold MESH_QUALITY_PRESETS in H.
  apply elem_of_list_to_map_2 in H.
  repeat (apply elem_of_cons in H; destruct H as [H|H];
          [inversion H; subst; split; reflexivity|]).
  inversion H.
Qed.

(** What [execute] does, case by case. *)
Lemma execute_run (h : Host) (x : Surroundings) (props : Props.t)
    (prefs : Preferences) (o : Operator) (w : World) :
  let a := GmshManager.is_available (gmsh h) (engine w) in
  let w1 := set_engine (snd a) w in
  let prefs1 :=
    if Py.truthy (Props.directory props)
    then {| last_import_directory := Props.directory props |} else prefs in
  let files := List.filter (path_exists x) (Execute.gather_files x props) in
  let o1 := set_files_to_process files
              (set_files_to_process (Execute.gather_files x props) o) in
  let bounds :=
    if String.eqb (Props.mesh_quality props) "CUSTOM"
    then (Props.mesh_size_min props, Props.mesh_size_max props)
    else default (1 # 10, 10 # 1)%Q
           (MESH_QUALITY_PRESETS !! Props.mesh_quality props) in
  let o2 := set_target_collection None (set_mesh_bounds bounds o1) in
  let started (o3 : Operator) (w3 : World) :=
    (set_timer (Some tt)
       (set_all_imported_objects []
          (set_temp_files [] (set_current_index 0 o3))),
     set_wm_progress (Some 0%Q)
       (set_import_progress
          (Progress.start (Z.of_nat (length files)) (import_progress w3)) w3)) in
  Execute.execute h x props (prefs, (o, w))
  = if negb (fst a) then
      (Ok CANCELLED,
       (prefs,
        (o, add_report "ERROR"
              "gmsh is not installed. Click 'Install gmsh' in addon preferences."
              w1)))
    else
      match files with
      | [] =>
          (Ok CANCELLED,
           (prefs1, (o1, add_report "ERROR" "No valid CAD files selected" w1)))
      | first :: _ =>
          if Props.import_to_collection props then
            let c := collections_new x (scene w1)
                       (Execute.coll_name props files first) in
            (Ok RUNNING_MODAL,
             (prefs1,
              started (set_target_collection (Some c) o2)
                (set_scene
                   (set_collections (collections (scene w1) ++ [c]) (scene w1))
                   w1)))
          else (Ok RUNNING_MODAL, (prefs1, started o2 w1))
      end.
Proof.
  cbv zeta. unfold Execute.execute.
  unfold bind at 1. unfold Execute.here at 1.
  unfold LADDER_OT_import_cad.on_engine at 1. cbn [fst snd].
  destruct (GmshManager.is_available (gmsh h) (engine w)) as [a e1].
  destruct a; cbn [negb fst snd]; [|reflexivity].
  rewrite preset_NORMAL.
  destruct (Py.truthy (Props.directory props));
    (destruct (List.filter (path_exists x) (Execute.gather_files x props))
       as [|first rest] eqn:Ef;
     [cbn; rewrite Ef; reflexivity|]);
    destruct (String.eqb (Props.mesh_quality props) "CUSTOM") eqn:Eq;
    destruct (Props.import_to_collection props) eqn:Ec;
    cbn; rewrite ?Ef; cbn; rewrite ?Eq, ?Ec; cbn; rewrite ?Ef; reflexivity.
Qed.


(** X22: when [execute] returns RUNNING_MODAL the batch is set up: the
    files to process are the gathered files that exist, in order, and
    there is at least one; the index is 0, the lists of temporary files
    and of imported objects are empty, the timer is set, the progress
    singleton is started for that many files and the indicator is at 0.
    The mesh sizes are the properties' for the quality CUSTOM and a
    preset's otherwise ([NORMAL]'s for an unknown quality), in which case
    0 < min < max.  A target collection exists exactly when
    [import_to_collection] is set, and it is then a collection of the
    scene. *)
Theorem execute_sets_up_the_batch (h : Host) (x : Surroundings)
    (props : Props.t) (prefs : Preferences) (o : Operator) (w : World) :
  let r := Execute.execute h x props (prefs, (o, w)) in
  let o' := fst (snd (snd r)) in
  let w' := snd (snd (snd r)) in
  fst r = Ok RUNNING_MODAL ->
  _files_to_process o'
  = List.filter (path_exists x) (Execute.gather_files x props) /\
  _files_to_process o' <> [] /\
  (forall f, In f (_files_to_process o') -> path_exists x f = true) /\
  _current_index o' = 0%nat /\ _temp_files o' = [] /\
  _all_imported_objects o' = [] /\ _timer o' = Some tt /\
  import_progress w'
  = Progress.start (Z.of_nat (length (_files_to_process o')))
      (import_progress w) /\
  wm_progress w' = Some 0%Q /\
  reports w' = reports w /\
  (Props.mesh_quality props = "CUSTOM" ->
   _mesh_min o' = Props.mesh_size_min props /\
   _mesh_max o' = Props.mesh_size_max props) /\
  (Props.mesh_quality props <> "CUSTOM" ->
   (0 < _mesh_min o')%Q /\ (_mesh_min o' < _mesh_max o')%Q /\
   (_mesh_min o', _mesh_max o')
   = default (1 # 10, 10 # 1)%Q
       (MESH_QUALITY_PRESETS !! Props.mesh_quality props)) /\
  (if Props.import_to_collection props
   then exists c, _target_collection o' = Some c /\
                  collections (scene w') = (collections (scene w) ++ [c])%list
   else _target_collection o' = None /\ scene w' = scene w) /\
  objects (scene w') = objects (scene w).
Proof.
  intros r o' w'. subst r o' w'. rewrite execute_run. cbv zeta.
  destruct (fst (GmshManager.is_available (gmsh h) (engine w)));
    cbn [negb]; [|discriminate].
  destruct (List.filter (path_exists x) (Execute.gather_files x props))
    as [|first rest] eqn:Ef; [discriminate|].
  intros _.
  assert (Hexists : forall f, In f (first :: rest) -> path_exists x f = true).
  { intros f Hf. rewrite <- Ef in Hf. apply filter_In in Hf. apply Hf. }
  assert (Hbounds :
            (Props.mesh_quality props = "CUSTOM" ->
             (if String.eqb (Props.mesh_quality props) "CUSTOM"
              then (Props.mesh_size_min props, Props.mesh_size_max props)
              else default (1 # 10, 10 # 1)%Q
                     (MESH_QUALITY_PRESETS !! Props.mesh_quality props))
             = (Props.mesh_size_min props, Props.mesh_size_max props)) /\
            (Props.mesh_quality props <> "CUSTOM" ->
             (if String.eqb (Props.mesh_quality props) "CUSTOM"
              then (Props.mesh_size_min props, Props.mesh_size_max props)
              else default (1 # 10, 10 # 1)%Q
                     (MESH_QUALITY_PRESETS !! Props.mesh_quality props))
             = default (1 # 10, 10 # 1)%Q
                 (MESH_QUALITY_PRESETS !! Props.mesh_quality props))).
  { destruct (String.eqb_spec (Props.mesh_quality props) "CUSTOM");
      split; intros; congruence. }
  assert (Hpreset : let b := default (1 # 10, 10 # 1)%Q
                               (MESH_QUALITY_PRESETS !! Props.mesh_quality props) in
                    (0 < fst b)%Q /\ (fst b < snd b)%Q).
  { destruct (MESH_QUALITY_PRESETS !! Props.mesh_quality props) as [b|] eqn:Eb;
      cbn [default]; [apply (presets_ordered _ _ Eb)|split; reflexivity]. }
  cbv zeta in Hpreset. destruct Hbounds as [Hcustom Hother].
  set (bounds := if String.eqb (Props.mesh_quality props) "CUSTOM"
                 then (Props.mesh_size_min props, Props.mesh_size_max props)
                 else default (1 # 10, 10 # 1)%Q
                        (MESH_QUALITY_PRESETS !! Props.mesh_quality props)) in *.
  destruct (Props.import_to_collection props); cbn [fst snd];
    (split; [reflexivity|]); (split; [discriminate|]);
    (split; [exact Hexists|]);
    (split; [reflexivity|]); (split; [reflexivity|]);
    (split; [reflexivity|]); (split; [reflexivity|]);
    (split; [reflexivity|]); (split; [reflexivity|]);
    (split; [reflexivity|]);
    (split; [intros Hq; cbn; rewrite (Hcustom Hq); split; reflexivity|]);
    (split; [intros Hq; cbn; rewrite (Hother Hq);
             split; [apply Hpreset|split; [apply Hpreset|]];
             destruct (default _ _); reflexivity|]).
  - split; [|reflexivity]. eexists. split; reflexivity.
  - split; [|reflexivity]. split; reflexivity.
Qed.

Lemma execute_sets_up_the_batch_witness :
  _files_to_process
    (fst (snd (snd (Execute.execute Demo.silent_second_host
                      (Samples.surroundings "/cad/b.STP")
                      (Samples.props_for "/cad/a.step;/cad/b.STP" "" "FINE")
                      Samples.idle))))
  = [Samples.plain_path "/cad/a.step"].
Proof.
  assert (Hr : fst (Execute.execute Demo.silent_second_host
                      (Samples.surroundings "/cad/b.STP")
                      (Samples.props_for "/cad/a.step;/cad/b.STP" "" "FINE")
                      Samples.idle)
               = Ok RUNNING_MODAL)
    by (vm_compute; reflexivity).
  pose proof (execute_sets_up_the_batch Demo.silent_second_host
                (Samples.surroundings "/cad/b.STP")
                (Samples.props_for "/cad/a.step;/cad/b.STP" "" "FINE")
                {| last_import_directory := "" |}
                Samples.idle_operator Samples.idle_world Hr) as (Hfiles & _).
  unfold Samples.idle. rewrite Hfiles. vm_compute. reflexivity.
Defined.


(** ** Installing the engine *)

Lemma pip_succeeded_dec (pip : PipRun) : pip_succeeded pip \/ ~ pip_succeeded pip.
Proof.
  destruct pip as [rc out err| |e].
  - destruct (Z.eq_dec rc 0) as [->|Hrc].
    + left. exists out, err. reflexivity.
    + right. intros (out' & err' & H). inversion H. contradiction.
  - right. intros (out' & err' & H). discriminate.
  - right. intros (out' & err' & H). discriminate.
Qed.

(** When the installation succeeds, and that it reports nothing itself. *)
Lemma install_succeeds_iff (pip : PipRun) (g : Gmsh) (w : World) :
  let r := GmshInstall.install pip g w in
  (fst (fst r) = true <-> pip_succeeded pip /\ importable g = true) /\
  reports (snd r) = reports w.
Proof.
  intros r. subst r. unfold GmshInstall.install, pip_succeeded.
  destruct pip as [rc out err| |e];
    [destruct (Z.eqb_spec rc 0) as [->|Hrc];
     [unfold GmshManager.is_available, GmshManager.reset_cache;
      cbn [_gmsh_available engine add_logged];
      destruct (importable g) eqn:Hg|]| |];
    cbn; repeat split;
    first
      [ reflexivity
      | discriminate
      | exists out, err; reflexivity
      | intros [_ H]; discriminate H
      | intros [(o1 & e1 & H) _]; inversion H; contradiction
      | intros _; reflexivity ].
Qed.


(** X25: the install operator returns FINISHED exactly when the
    installation succeeded and CANCELLED otherwise, and adds exactly two
    reports: the announcement, of level INFO, and the message of
    [GmshManager.install], of level INFO after a success and ERROR after
    a failure. *)
Theorem install_operator_reports (pip : PipRun) (g : Gmsh) (w : World) :
  let r := LADDER_OT_install_gmsh.execute pip g w in
  let installed := pip_succeeded pip /\ importable g = true in
  (fst r = FINISHED <-> installed) /\
  (fst r = CANCELLED <-> ~ installed) /\
  exists level message,
    reports (snd r)
    = (reports w ++ [("INFO", "Installing gmsh... This may take a moment.");
                     (level, message)])%list /\
    (level = "INFO" /\ fst r = FINISHED \/ level = "ERROR" /\ fst r = CANCELLED) /\
    message
    = snd (fst (GmshInstall.install pip g
                  (add_report "INFO" "Installing gmsh... This may take a moment." w))).
Proof.
  intros r installed. subst r. unfold LADDER_OT_install_gmsh.execute.
  set (w0 := add_report "INFO" "Installing gmsh... This may take a moment." w).
  destruct (install_succeeds_iff pip g w0) as (Hok & Hrep).
  cbv zeta in Hok, Hrep.
  destruct (GmshInstall.install pip g w0) as [[success message] w1].
  cbn [fst snd] in *. fold installed in Hok.
  destruct success; cbn [fst snd].
  - assert (Hi : installed) by (apply Hok; reflexivity).
    split; [tauto|]. split; [split; [discriminate|tauto]|].
    exists "INFO", message. split; [|split; [left; split; reflexivity|reflexivity]].
    cbn. rewrite Hrep. unfold w0. cbn. rewrite <- app_assoc. reflexivity.
  - assert (Hi : ~ installed) by (intros H; apply Hok in H; discriminate).
    split; [split; [discriminate|tauto]|]. split; [tauto|].
    exists "ERROR", message. split; [|split; [right; split; reflexivity|reflexivity]].
    cbn. rewrite Hrep. unfold w0. cbn. rewrite <- app_assoc. reflexivity.
Qed.

(** ** One file: what the user is told *)

Section MessageWalk.
Import LADDER_OT_import_cad.
Variable h : Host.
Variables r0 l0 : list (string * string).

Local Abbreviation Pq := (quiet r0 l0).
Local Abbreviation Qt := (told r0 l0).


















End MessageWalk.


(** ** A conversion on an engine that answers *)

Lemma logged_calls_nil (e : Engine) : logged_calls [] e = e.
Proof. destruct e. reflexivity. Qed.

Lemma logged_calls_cons (c : GmshCall) (l : list GmshCall) (e : Engine) :
  log_call c (logged_calls l e) = logged_calls (c :: l) e.
Proof. reflexivity. Qed.

Lemma logged_calls_app (l1 l2 : list GmshCall) (e : Engine) :
  logged_calls l1 (logged_calls l2 e) = logged_calls (l1 ++ l2) e.
Proof. unfold logged_calls. cbn. rewrite app_assoc. reflexivity. Qed.

Section Runs.
Context {L : Type}.

Lemma bind_call {A B} (c : GmshCall) (answer : history -> result A)
    (k : A -> M (Engine * L) B) (s : Engine * L) (a : A) :
  answer (calls (fst s)) = Ok a ->
  bind (GmshManager.call c answer) k s = k a (log_call c (fst s), snd s).
Proof. intros H. unfold bind, GmshManager.call. rewrite H. reflexivity. Qed.

Lemma or_fail_run (g : Gmsh) (m : M (Engine * L) unit) (msg : string)
    (rest : M (Engine * L) GmshManager.ConversionResult)
    (s s' : Engine * L) :
  m s = (Ok tt, s') -> GmshManager.or_fail g m msg rest s = rest s'.
Proof.
  intros H. unfold GmshManager.or_fail, bind, try_except. rewrite H. reflexivity.
Qed.

Lemma call_run {A} (c : GmshCall) (answer : history -> result A)
    (s : Engine * L) (a : A) :
  answer (calls (fst s)) = Ok a ->
  GmshManager.call c answer s = (Ok a, (log_call c (fst s), snd s)).
Proof. intros H. unfold GmshManager.call. rewrite H. reflexivity. Qed.

Lemma bind_run {A B} (m : M (Engine * L) A) (k : A -> M (Engine * L) B)
    (s s' : Engine * L) (a : A) :
  m s = (Ok a, s') -> bind m k s = k a s'.
Proof. intros H. unfold bind. rewrite H. reflexivity. Qed.

End Runs.

Lemma load_file_run (g : Gmsh) (ents : list (Z * Z)) (nm : Z -> Z -> string)
    (p : Path) (healing : bool) (s : Engine * list string) :
  converts g ents nm ->
  GmshManager.load_file g p
    (if healing then GmshManager.healing_options g else ret tt) s
  = (Ok tt, (logged_calls (load_calls healing p) (fst s), snd s)).
Proof.
  intros (_ & Hset & _ & Himp & Hsync & Hmerge & _).
  unfold GmshManager.load_file, load_calls.
  destruct (GmshManager.is_brep_ext (Py.lower (suffix p))).
  - assert (Hbefore :
              (if healing then GmshManager.healing_options g else ret tt) s
              = (Ok tt,
                 (logged_calls
                    (if healing
                     then [SetNumber "Geometry.OCCSewFaces" 1;
                           SetNumber "Geometry.OCCFixSmallFaces" 1;
                           SetNumber "Geometry.OCCFixSmallEdges" 1;
                           SetNumber "Geometry.OCCFixDegenerated" 1]
                     else []) (fst s), snd s))).
    { destruct healing.
      - unfold GmshManager.healing_options, GmshManager.setNumber.
        rewrite (bind_call _ _ _ _ tt) by apply Hset.
        rewrite (bind_call _ _ _ _ tt) by apply Hset.
        rewrite (bind_call _ _ _ _ tt) by apply Hset.
        rewrite (call_run _ _ _ tt) by apply Hset.
        reflexivity.
      - rewrite logged_calls_nil. destruct s. reflexivity. }
    rewrite (bind_run _ _ _ _ tt Hbefore).
    unfold GmshManager.importShapes, GmshManager.synchronize.
    rewrite (bind_call _ _ _ _ tt) by apply Himp.
    rewrite (call_run _ _ _ tt) by apply Hsync.
    reflexivity.
  - unfold GmshManager.merge. rewrite (call_run _ _ _ tt) by apply Hmerge.
    rewrite <- (logged_calls_nil (fst s)) at 1. reflexivity.
Qed.

Lemma convert_part_names_run (g : Gmsh) (nm : Z -> Z -> string)
    (ents : list (Z * Z)) (s : Engine * list string) :
  (forall h dim tag, on_getEntityName g h dim tag = Ok (nm dim tag)) ->
  GmshManager.convert_part_names g ents s
  = (Ok tt,
     (logged_calls (name_calls ents) (fst s),
      (snd s ++ named (map (fun dt => nm dt.1 dt.2) ents))%list)).
Proof.
  intros Hnm. revert s. induction ents as [|[dim tag] ents IH]; intros s.
  - cbn. rewrite logged_calls_nil, app_nil_r. destruct s. reflexivity.
  - rewrite (convert_part_names_cons g dim tag ents s (nm dim tag)) by apply Hnm.
    rewrite IH. cbn [fst snd map]. f_equal. f_equal.
    + unfold name_calls. cbn [map rev].
      change (log_call (GetEntityName dim tag) (fst s))
        with (logged_calls [GetEntityName dim tag] (logged_calls [] (fst s))).
      rewrite logged_calls_nil at 1. rewrite logged_calls_app. reflexivity.
    + unfold named. rewrite filter_cons. cbn [fst snd].
      destruct (Py.truthy (nm dim tag)) eqn:Ht.
      * destruct (decide (Py.truthy (nm dim tag) = true)); [|contradiction].
        rewrite <- app_assoc. reflexivity.
      * destruct (decide (Py.truthy (nm dim tag) = true)); [congruence|].
        reflexivity.
Qed.

Lemma convert_to_stl_try_run (g : Gmsh) (ents : list (Z * Z))
    (nm : Z -> Z -> string) (input_path : Path) (output_path : string)
    (mesh_size_min mesh_size_max : Q) (mesh_algorithm : Z)
    (optimize_mesh healing : bool) (e : Engine) :
  converts g ents nm ->
  let names := named (map (fun dt => nm dt.1 dt.2) ents) in
  let meshed :=
    logged_calls
      (conversion_calls input_path mesh_size_min mesh_size_max mesh_algorithm
         optimize_mesh healing ents) e in
  GmshManager.convert_to_stl_try g input_path output_path mesh_size_min
    mesh_size_max mesh_algorithm optimize_mesh healing (e, [])
  = (Ok (true, "Conversion successful", names),
     (log_call Finalize
        (set_files (write_files g (calls meshed) output_path (files meshed))
           (log_call (WriteFile output_path) meshed)),
      names)).
Proof.
  intros Hg names meshed.
  pose proof Hg as (Hinit & Hset & Hadd & _ & _ & _ & Hents & Hnm & Hgen
                    & Hwrite & Hfin).
  unfold GmshManager.convert_to_stl_try.
  unfold GmshManager.initialize at 1.
  rewrite (bind_call _ _ _ _ tt) by apply Hinit.
  unfold GmshManager.setNumber at 1.
  rewrite (bind_call _ _ _ _ tt) by apply Hset.
  unfold GmshManager.model_add at 1.
  rewrite (bind_call _ _ _ _ tt) by apply Hadd.
  rewrite (or_fail_run g _ _ _ _ _ (load_file_run g ents nm input_path healing _ Hg)).
  cbn [fst snd].
  set (e1 := logged_calls (load_calls healing input_path)
               (log_call (ModelAdd "cad_import")
                  (log_call (SetNumber "General.Terminal" 0)
                     (log_call Initialize e)))).
  assert (Hnames :
            try_pass
              (bind (GmshManager.getEntities g)
                    (fun ents0 => GmshManager.convert_part_names g ents0))
              (e1, [])
            = (Ok tt, (logged_calls (name_calls ents) (log_call GetEntities e1),
                       names))).
  { unfold try_pass, try_except, GmshManager.getEntities.
    rewrite (bind_call _ _ _ _ ents) by apply Hents.
    rewrite (convert_part_names_run g nm ents _ Hnm). reflexivity. }
  rewrite (bind_run _ _ _ _ tt Hnames).
  set (e2 := logged_calls (name_calls ents) (log_call GetEntities e1)).
  unfold GmshManager.setNumber at 1.
  rewrite (bind_call _ _ _ _ tt) by apply Hset.
  unfold GmshManager.setNumber at 1.
  rewrite (bind_call _ _ _ _ tt) by apply Hset.
  unfold GmshManager.setNumber at 1.
  rewrite (bind_call _ _ _ _ tt) by apply Hset.
  cbn [fst snd].
  set (e3 := log_call (SetNumber "Mesh.Algorithm" (inject_Z mesh_algorithm))
               (log_call (SetNumber "Mesh.CharacteristicLengthMax" mesh_size_max)
                  (log_call (SetNumber "Mesh.CharacteristicLengthMin" mesh_size_min)
                     e2))).
  assert (Hopt :
            (if optimize_mesh
             then bind (GmshManager.setNumber g "Mesh.Optimize" 1)
                       (fun _ => GmshManager.setNumber g "Mesh.OptimizeNetgen" 1)
             else ret tt) (e3, names)
            = (Ok tt,
               (logged_calls
                  (if optimize_mesh
                   then [SetNumber "Mesh.OptimizeNetgen" 1;
                         SetNumber "Mesh.Optimize" 1]
                   else []) e3, names))).
  { destruct optimize_mesh.
    - unfold GmshManager.setNumber.
      rewrite (bind_call _ _ _ _ tt) by apply Hset.
      rewrite (call_run _ _ _ tt) by apply Hset. reflexivity.
    - rewrite logged_calls_nil. reflexivity. }
  rewrite (bind_run _ _ _ _ tt Hopt).
  set (e4 := logged_calls
               (if optimize_mesh
                then [SetNumber "Mesh.OptimizeNetgen" 1; SetNumber "Mesh.Optimize" 1]
                else []) e3).
  assert (Hmeshed : log_call (Generate 2) e4 = meshed).
  { unfold meshed, conversion_calls, mesh_calls, e4, e3, e2, e1.
    rewrite !logged_calls_cons.
    repeat (rewrite <- ?logged_calls_cons; rewrite ?logged_calls_app).
    unfold logged_calls, log_call. cbn [_gmsh_available calls files].
    f_equal. rewrite <- !app_assoc. cbn [app]. rewrite <- ?app_assoc.
    reflexivity. }
  rewrite (or_fail_run g _ _ _ _ (log_call (Generate 2) e4, names)).
  2: { unfold GmshManager.generate. apply call_run, Hgen. }
  rewrite Hmeshed.
  rewrite (or_fail_run g _ _ _ _
             (set_files (write_files g (calls meshed) output_path (files meshed))
                (log_call (WriteFile output_path) meshed), names)).
  2: { unfold GmshManager.write. cbn [fst snd]. rewrite Hwrite. reflexivity. }
  unfold GmshManager.finalize.
  rewrite (bind_call _ _ _ _ tt) by apply Hfin.
  reflexivity.
Qed.

(** X27: on an installed engine on which the conversion goes through,
    [convert_to_stl] returns success with the non-empty names of the
    entities, in the order of the entities and repeated as often as they
    occur, after exactly these calls, in this order: initialize, the
    terminal option, the model, the loading calls (with the four healing
    options first if healing applies), the entity list, one name query
    per entity, the minimum and maximum sizes and the algorithm as given,
    the two optimizer options if asked for, the surface mesh, the write
    of the output path, and finalize once.  The files on disk are what
    that one write left. *)
Theorem convert_to_stl_on_answering_engine (g : Gmsh) (ents : list (Z * Z))
    (nm : Z -> Z -> string) (input_path : Path) (output_path : string)
    (mesh_size_min mesh_size_max : Q) (mesh_algorithm : Z)
    (optimize_mesh healing : bool) (e : Engine) :
  fst (GmshManager.is_available g e) = true ->
  converts g ents nm ->
  let r := GmshManager.convert_to_stl g input_path output_path mesh_size_min
             mesh_size_max mesh_algorithm optimize_mesh healing e in
  let done :=
    (conversion_calls input_path mesh_size_min mesh_size_max mesh_algorithm
       optimize_mesh healing ents ++ calls e)%list in
  fst r = (true, "Conversion successful",
           named (map (fun dt => nm dt.1 dt.2) ents)) /\
  calls (snd r) = Finalize :: WriteFile output_path :: done /\
  files (snd r) = write_files g done output_path (files e).
Proof.
  intros Hav Hg r done. subst r done.
  pose proof (is_available_calls g e) as Hcalls.
  pose proof (is_available_files g e) as Hfiles.
  unfold GmshManager.convert_to_stl.
  destruct (GmshManager.is_available g e) as [available e1].
  cbn [fst snd] in Hav, Hcalls, Hfiles. subst available. cbn [negb].
  unfold try_return.
  rewrite (convert_to_stl_try_run g ents nm input_path output_path mesh_size_min
             mesh_size_max mesh_algorithm optimize_mesh healing e1 Hg).
  cbn [fst snd calls files log_call set_files logged_calls].
  rewrite Hcalls, Hfiles. repeat split.
Qed.

Lemma convert_to_stl_on_answering_engine_witness :
  fst (GmshManager.convert_to_stl Demo.cube_gmsh Demo.bracket_step
         "/tmp/0.stl" (1 # 10) 10 2 false true Demo.fresh_engine)
  = (true, "Conversion successful", ["Panel"; "Panel"]).
Proof.
  apply (convert_to_stl_on_answering_engine Demo.cube_gmsh Demo.cube_entities
           (fun dim _ => if (dim =? 3)%Z then "" else "Panel")
           Demo.bracket_step "/tmp/0.stl" (1 # 10) 10 2 false true
           Demo.fresh_engine).
  - reflexivity.
  - repeat split. intros h dim tag. cbn. unfold Demo.cube_names.
    destruct (dim =? 3)%Z; reflexivity.
Defined.
